(** * Pruning task generators and command decoding of nni: a shallow embedding

    Sources embedded here:
    - [nni/algorithms/compression/v2/pytorch/pruning/tools/task_generator.py]
      (the function based generators AGP, Linear and LotteryTicket, and
      the simulated annealing generator);
    - [nni/runtime/commands/base.py] (the field loader of commands).

    Python floats are embedded as exact rationals ([Q]): rounding is not
    modelled, so a statement here is about the arithmetic the code
    writes down.  Python exceptions are values of [exn]; a function that
    can raise returns [result A].  The random number generator is a tape
    of draws from the unit interval that the code consumes left to
    right, and every [while True] loop carries a fuel; [Exhausted] is
    not a Python exception, it says that the fuel or the tape ran out. *)

From Stdlib Require Import QArith Qround Qabs Qminmax Lqa ZArith Lia List String Ascii.
From Stdlib Require Import Sorted Permutation.
From stdpp Require Import base option list sorting strings gmap.

Open Scope Q_scope.

(** ** Exceptions *)

Inductive exn : Type :=
| AssertionError (values : list Q)
| ZeroDivisionError
| KeyError
| IndexError
| TypeError
| Exhausted.

Definition result (A : Type) : Type := exn + A.

Definition ok {A} (a : A) : result A := inr a.
Definition raise {A} (e : exn) : result A := inl e.

Definition bind {A B} (m : result A) (k : A -> result B) : result B :=
  match m with
  | inl e => inl e
  | inr a => k a
  end.

Notation "'let*' p ':=' m 'in' k" := (bind m (fun p => k))
  (at level 10, p pattern, m at level 200, k at level 200).

(** ** Python arithmetic on the rational model *)

(** [a / b] on numbers: raises on a zero divisor. *)
Definition py_div (a b : Q) : result Q :=
  if Qeq_bool b 0 then raise ZeroDivisionError else ok (a / b).

(** [max(a, b)]: keeps its first argument unless the second is greater. *)
Definition py_max (a b : Q) : Q :=
  if Qlt_le_dec a b then b else a.

(** [int(x)]: truncation toward zero. *)
Definition py_int (x : Q) : Z := Z.quot (Qnum x) (Zpos (Qden x)).

(** [sorted(l)] for a comparison given as a boolean [le]: a stable
    insertion sort (an element stays before the later ones it ties with). *)
Fixpoint insert_by {A} (le : A -> A -> bool) (x : A) (l : list A) : list A :=
  match l with
  | [] => [x]
  | y :: l' => if le x y then x :: y :: l' else y :: insert_by le x l'
  end.

Fixpoint sorted_by {A} (le : A -> A -> bool) (l : list A) : list A :=
  match l with
  | [] => []
  | x :: l' => insert_by le x (sorted_by le l')
  end.

Definition sorted_Q (l : list Q) : list Q := sorted_by Qle_bool l.
Definition sorted_Z (l : list Z) : list Z := sorted_by Z.leb l.

(** ** Data model *)

(** A canonical config group: {'op_names': [...], 'total_sparsity': s}.
    Both keys are present in what [config_list_canonical] returns, so
    the lookups of the two keys are total and the assertion
    ['total_sparsity' in config] of [_init_config_sparsity] holds. *)
Record Config : Type := mkConfig {
  op_names : list string;
  total_sparsity : Q
}.

(** [weights_numel]: a dict in insertion order, op name to element count.
    [masked_rate]: a dict, op name to the fraction already masked. *)
Definition dict_get {V} (d : list (string * V)) (k : string) : result V :=
  match List.find (fun kv => String.eqb (fst kv) k) d with
  | Some kv => ok (snd kv)
  | None => raise KeyError
  end.

Fixpoint mapM {A B} (f : A -> result B) (l : list A) : result (list B) :=
  match l with
  | [] => ok []
  | a :: l' => let* b := f a in let* bs := mapM f l' in ok (b :: bs)
  end.

Module Allocator.

Section WithTables.

Variable weights_numel : list (string * Z).
Variable masked_rate : gmap string Q.

(** The inner loop of [_adjust_target_sparsity]: the running pair
    (remaining_weight_numel, pruned_weight_numel) over the op names. *)
Fixpoint count_numel (names : list string) (remaining pruned : Q)
  : result (Q * Q) :=
  match names with
  | [] => ok (remaining, pruned)
  | name :: names' =>
      let* w := dict_get weights_numel name in
      let remaining' := remaining + inject_Z w in
      match masked_rate !! name with
      | Some m =>
          let* r := py_div 1 m in
          let* d := py_div 1 (r - 1) in
          count_numel names' remaining' (pruned + d * inject_Z w)
      | None => count_numel names' remaining' pruned
      end
  end.

Definition adjust_config (config : Config) : result Config :=
  let* (remaining, pruned) := count_numel (op_names config) 0 0 in
  let* rate := py_div pruned (pruned + remaining) in
  ok (mkConfig (op_names config)
               (py_max 0 (total_sparsity config - rate))).

(** [_adjust_target_sparsity]: rewrites every target when some op is
    masked already, and does nothing otherwise. *)
Definition _adjust_target_sparsity (target_sparsity_list : list Config)
  : result (list Config) :=
  if decide (masked_rate = ∅) then ok target_sparsity_list
  else mapM adjust_config target_sparsity_list.

(** The accumulation loop of [_rescale_sparsity]:
    (total_weights, total_weights_pruned). *)
Fixpoint weigh (pairs : list (Z * Q)) (total pruned : Z) : Z * Z :=
  match pairs with
  | [] => (total, pruned)
  | (num_weight, s) :: pairs' =>
      weigh pairs' (total + num_weight)%Z
            (pruned + py_int (inject_Z num_weight * s))%Z
  end.

(** [_rescale_sparsity]: [None] of the source is [ok None]. *)
Definition _rescale_sparsity (random_sparsity : list Q) (target_sparsity : Q)
    (names : list string) : result (option (list Q)) :=
  if negb (Nat.eqb (length random_sparsity) (length names))
  then raise (AssertionError [])
  else
    let* ws := mapM (dict_get weights_numel) names in
    let num_weights := sorted_Z ws in
    let sparsity := sorted_Q random_sparsity in
    let '(total_weights, total_weights_pruned) :=
      weigh (combine num_weights sparsity) 0%Z 0%Z in
    if Z.eqb total_weights_pruned 0 then ok None
    else
      let* ratio := py_div (inject_Z total_weights_pruned) (inject_Z total_weights) in
      let* scale := py_div target_sparsity ratio in
      ok (Some (map (fun s => s * scale) sparsity)).

(** [_sparsity_to_config_list]: one entry per op, the ops taken from the
    table sorted by element count and kept when they are in the group. *)
Definition ops_by_numel (config : Config) : list string :=
  map fst
    (filter (fun kv => fst kv ∈ op_names config)
       (sorted_by (fun a b => Z.leb (snd a) (snd b)) weights_numel)).

Definition _sparsity_to_config_list (sparsity : list Q) (config : Config)
  : result (list Config) :=
  let sparsity := sorted_Q sparsity in
  let names := ops_by_numel config in
  if negb (Nat.eqb (length sparsity) (length names))
  then raise (AssertionError [])
  else ok (map (fun sn => mkConfig [snd sn] (fst sn)) (combine sparsity names)).

(** [_recover_real_sparsity]. *)
Definition recover_config (config : Config) : result Config :=
  match op_names config with
  | [op_name] =>
      match masked_rate !! op_name with
      | Some m =>
          ok (mkConfig (op_names config) (m + total_sparsity config * (1 - m)))
      | None => ok config
      end
  | _ => raise (AssertionError [])
  end.

Definition _recover_real_sparsity (config_list : list Config)
  : result (list Config) :=
  mapM recover_config config_list.

End WithTables.

End Allocator.

(** ** Tasks and what the generators persist *)

Inductive tid : Type := Origin | Tid (n : Z).

Inductive path : Type :=
| CompactModelPath (t : tid)
| CompactMasksPath (t : tid)
| ConfigListPath (n : Z).

(** Modelled from the spec: the class [Task] of
    [nni.algorithms.compression.v2.pytorch.base] is not among the
    sources; the spec gives it as the handle
    {task_id, model_ref, masks_ref, config_list_ref}.  The two last
    fields are what the generators read or write on a task:
    [state['current2origin_sparsity']] and [score]. *)
Record Task : Type := mkTask {
  task_id : Z;
  model_path : path;
  masks_path : path;
  config_list_path : path;
  current2origin_sparsity : option (list Config);
  score : option Q
}.

(** [task.state['current2origin_sparsity'] = c]. *)
Definition set_current2origin (t : Task) (c : list Config) : Task :=
  mkTask (task_id t) (model_path t) (masks_path t) (config_list_path t)
         (Some c) (score t).

(** Modelled from the spec: [TaskResult] of the same absent module.  The
    collaborator [compute_sparsity] is absent too, so a result carries
    the two metrics that the generator obtains from it for the compact
    model of the result. *)
Record TaskResult : Type := mkTaskResult {
  result_task_id : tid;
  current2origin : list Config;
  compact2origin : list Config
}.

(** A write to the intermediate result directory. *)
Inductive write : Type :=
| Saved (p : path)
| Dumped (p : path) (config_list : list Config).

(** ** The function based generators *)

Module Schedule.

Inductive kind : Type := AGP | Linear | LotteryTicket.

Record state : Type := mkState {
  current_iteration : Z;
  total_iteration : Z;
  target_sparsity : list Config;
  _tasks : gmap Z Task;
  _task_id_candidate : Z;
  writes : list write
}.

(** [__init__]: the counter starts at 0, and [LotteryTicketTaskGenerator]
    resets it to 1 after the constructor of the base class; the task
    table and the first free task id are those of the base class. *)
Definition init (k : kind) (total : Z) (targets : list Config)
    (first_id : Z) : state :=
  mkState (match k with LotteryTicket => 1 | _ => 0 end)%Z
          total targets ∅ first_id [].

Section WithPow.

(** [x ** y] on floats for a fractional exponent. *)
Variable float_pow : Q -> Q -> Q.

(** [ori_sparsity] of the three [generate_config_list]. *)
Definition ori_sparsity (k : kind) (iteration total : Z) (target : Q)
  : result Q :=
  let* r := py_div (inject_Z iteration) (inject_Z total) in
  match k with
  | AGP => ok ((1 - (1 - r) ^ 3) * target)
  | Linear => ok (r * target)
  | LotteryTicket => ok (1 - float_pow (1 - target) r)
  end.

(** The body of the loop over [zip(target_sparsity, compact2origin_sparsity)]. *)
Definition config_entry (k : kind) (iteration total : Z)
    (target mo : Config) : result Config :=
  let* ori := ori_sparsity k iteration total (total_sparsity target) in
  let* q := py_div (ori - total_sparsity mo) (1 - total_sparsity mo) in
  let sparsity := py_max 0 q in
  if Qle_bool 0 sparsity && Qle_bool sparsity 1
  then ok (mkConfig (op_names target) sparsity)
  else raise (AssertionError [sparsity; ori; total_sparsity mo]).

Definition generate_config_list (k : kind) (total : Z)
    (targets : list Config) (iteration : Z) (c2o : list Config)
  : result (list Config) :=
  mapM (fun tm => config_entry k iteration total (fst tm) (snd tm))
       (combine targets c2o).

(** [FunctionBasedTaskGenerator.generate_tasks]. *)
Definition generate_tasks (k : kind) (st : state) (r : TaskResult)
  : result (list Task * state) :=
  let model_path := CompactModelPath (result_task_id r) in
  let masks_path := CompactMasksPath (result_task_id r) in
  let writes1 := writes st ++ [Saved model_path; Saved masks_path] in
  let* tasks1 :=
    match result_task_id r with
    | Origin => ok (_tasks st)
    | Tid n =>
        match _tasks st !! n with
        | Some t =>
            ok (<[n := set_current2origin t (current2origin r)]> (_tasks st))
        | None => raise KeyError
        end
    end in
  if (total_iteration st <? current_iteration st)%Z
  then ok ([], mkState (current_iteration st) (total_iteration st)
                       (target_sparsity st) tasks1 (_task_id_candidate st)
                       writes1)
  else
    let id := _task_id_candidate st in
    let* new_config_list :=
      generate_config_list k (total_iteration st) (target_sparsity st)
                           (current_iteration st) (compact2origin r) in
    let task := mkTask id model_path masks_path (ConfigListPath id) None None in
    ok ([task],
        mkState (current_iteration st + 1)%Z (total_iteration st)
                (target_sparsity st) (<[id := task]> tasks1) (id + 1)%Z
                (writes1 ++ [Dumped (ConfigListPath id) new_config_list])).

(** The generator driven over a list of results: the tasks of every call. *)
Fixpoint run (k : kind) (st : state) (rs : list TaskResult)
  : result (list (list Task) * state) :=
  match rs with
  | [] => ok ([], st)
  | r :: rs' =>
      let* (tasks, st1) := generate_tasks k st r in
      let* (rest, st2) := run k st1 rs' in
      ok (tasks :: rest, st2)
  end.

(** [FunctionBasedTaskGenerator.init_pending_tasks]: the first call,
    with the origin model as its own result; the two metrics are those
    that [compute_sparsity] gives for the origin model and masks. *)
Definition init_pending_tasks (k : kind) (st : state)
    (origin_current2origin origin_compact2origin : list Config)
  : result (list Task * state) :=
  generate_tasks k st
    (mkTaskResult Origin origin_current2origin origin_compact2origin).

End WithPow.

End Schedule.

(** ** The simulated annealing generator *)

Module Annealing.

Record state : Type := mkState {
  start_temperature : Q;
  current_temperature : Q;
  stop_temperature : Q;
  cool_down_rate : Q;
  perturbation_magnitude : Q;
  weights_numel : list (string * Z);
  masked_rate : gmap string Q;
  target_sparsity_list : list Config;
  _temp_config_list : option (list Config);
  _temp_sparsity_list : list (list Q);
  _current_sparsity_list : option (list (list Q));
  _current_score : option Q;
  _tasks : gmap Z Task;
  _task_id_candidate : Z;
  writes : list write
}.

(** [__init__]: [weights_numel] and [masked_rate] come from
    [get_model_weights_numel] and the groups from [config_list_canonical],
    two collaborators; the targets are adjusted once, here. *)
Definition init (start stop cool magnitude : Q)
    (numel : list (string * Z)) (rate : gmap string Q)
    (targets : list Config) (first_id : Z) : result state :=
  let* adjusted := Allocator._adjust_target_sparsity numel rate targets in
  ok (mkState start start stop cool magnitude numel rate adjusted
              None [] None None ∅ first_id []).

(** The random stream: draws from the unit interval, consumed in order. *)
Definition tape : Type := list Q.

Fixpoint draws (n : nat) (t : tape) : result (list Q * tape) :=
  match n with
  | O => ok ([], t)
  | S n' =>
      match t with
      | [] => raise Exhausted
      | u :: t' => let* (us, t'') := draws n' t' in ok (u :: us, t'')
      end
  end.

(** [np.random.uniform(low, high, n)]. *)
Definition uniform (low high : Q) (n : nat) (t : tape)
  : result (list Q * tape) :=
  let* (us, t') := draws n t in
  ok (map (fun u => low + (high - low) * u) us, t').

(** [np.clip(a, a_min, None)] with a scalar [a] and an array [a_min]:
    the larger of the two, entry by entry. *)
Definition np_clip (a : Q) (a_min : list Q) : list Q :=
  map (fun lo => if Qlt_le_dec a lo then lo else a) a_min.

Definition Qlt_bool (a b : Q) : bool := negb (Qle_bool b a).

(** The test that closes both rejection loops:
    [v is not None and v[0] >= 0 and v[-1] < 1]. *)
Definition feasible (v : option (list Q)) : result (option (list Q)) :=
  match v with
  | None => ok None
  | Some l =>
      match head l, last l with
      | Some first, Some final =>
          ok (if Qle_bool 0 first && Qlt_bool final 1 then Some l else None)
      | _, _ => raise IndexError
      end
  end.

Section WithTables.

Variable numel : list (string * Z).

(** The [while True] of [_init_config_sparsity]. *)
Fixpoint init_loop (fuel : nat) (config : Config) (t : tape)
  : result (list Q * tape) :=
  match fuel with
  | O => raise Exhausted
  | S fuel' =>
      let* (us, t') := uniform 0 1 (length (op_names config)) t in
      let random_sparsity := sorted_Q us in
      let* rescaled :=
        Allocator._rescale_sparsity numel random_sparsity
          (total_sparsity config) (op_names config) in
      let* good := feasible rescaled in
      match good with
      | Some rescaled_sparsity => ok (rescaled_sparsity, t')
      | None => init_loop fuel' config t'
      end
  end.

Definition _init_config_sparsity (fuel : nat) (config : Config) (t : tape)
  : result (list Config * list Q * tape) :=
  if Qeq_bool (total_sparsity config) 0 then ok ([], [], t)
  else
    let* (rescaled_sparsity, t') := init_loop fuel config t in
    let* entries :=
      Allocator._sparsity_to_config_list numel rescaled_sparsity config in
    ok (entries, rescaled_sparsity, t').

(** The loop of [_init_temp_config_list]:
    (_temp_config_list, _temp_sparsity_list). *)
Fixpoint init_groups (fuel : nat) (targets : list Config) (t : tape)
  : result (list Config * list (list Q) * tape) :=
  match targets with
  | [] => ok ([], [], t)
  | config :: targets' =>
      let* (sparsity_config, sparsity, t1) :=
        _init_config_sparsity fuel config t in
      let* (configs, sparsities, t2) := init_groups fuel targets' t1 in
      ok (sparsity_config ++ configs, sparsity :: sparsities, t2)
  end.

(** The [while True] of [_update_with_perturbations]. *)
Fixpoint perturb_loop (fuel : nat) (magnitude : Q) (config : Config)
    (current_sparsity : list Q) (t : tape) : result (list Q * tape) :=
  match fuel with
  | O => raise Exhausted
  | S fuel' =>
      let* (perturbation, t') :=
        uniform (- magnitude) magnitude (length current_sparsity) t in
      let temp_sparsity :=
        np_clip 0 (zip_with Qplus current_sparsity perturbation) in
      let* rescaled :=
        Allocator._rescale_sparsity numel temp_sparsity
          (total_sparsity config) (op_names config) in
      let* good := feasible rescaled in
      match good with
      | Some temp_sparsity' => ok (temp_sparsity', t')
      | None => perturb_loop fuel' magnitude config current_sparsity t'
      end
  end.

(** One round of the [for] of [_update_with_perturbations]: what the
    group adds to [_temp_config_list], and its entry of
    [_temp_sparsity_list]. *)
Definition perturb_group (fuel : nat) (magnitude : Q) (config : Config)
    (current_sparsity : list Q) (t : tape)
  : result (list Config * list Q * tape) :=
  if Nat.eqb (length current_sparsity) 0 then ok ([], [], t)
  else
    let* (temp_sparsity, t') :=
      perturb_loop fuel magnitude config current_sparsity t in
    let* entries :=
      Allocator._sparsity_to_config_list numel temp_sparsity config in
    ok (entries, temp_sparsity, t').

Fixpoint perturb_groups (fuel : nat) (magnitude : Q)
    (pairs : list (Config * list Q)) (t : tape)
  : result (list Config * list (list Q) * tape) :=
  match pairs with
  | [] => ok ([], [], t)
  | (config, current_sparsity) :: pairs' =>
      let* (entries, sparsity, t1) :=
        perturb_group fuel magnitude config current_sparsity t in
      let* (configs, sparsities, t2) :=
        perturb_groups fuel magnitude pairs' t1 in
      ok (entries ++ configs, sparsity :: sparsities, t2)
  end.

End WithTables.

Definition set_temp (st : state) (configs : list Config)
    (sparsities : list (list Q)) : state :=
  mkState (start_temperature st) (current_temperature st)
    (stop_temperature st) (cool_down_rate st) (perturbation_magnitude st)
    (weights_numel st) (masked_rate st) (target_sparsity_list st)
    (Some configs) sparsities (_current_sparsity_list st)
    (_current_score st) (_tasks st) (_task_id_candidate st) (writes st).

Definition set_current (st : state) (new_score : option Q)
    (temperature : Q) : state :=
  mkState (start_temperature st) temperature
    (stop_temperature st) (cool_down_rate st) (perturbation_magnitude st)
    (weights_numel st) (masked_rate st) (target_sparsity_list st)
    (_temp_config_list st) (_temp_sparsity_list st)
    (Some (_temp_sparsity_list st))
    new_score (_tasks st) (_task_id_candidate st) (writes st).

Definition _init_temp_config_list (fuel : nat) (st : state) (t : tape)
  : result (state * tape) :=
  let* (configs, sparsities, t') :=
    init_groups (weights_numel st) fuel (target_sparsity_list st) t in
  ok (set_temp st configs sparsities, t').

Definition _update_with_perturbations (fuel : nat) (st : state) (t : tape)
  : result (state * tape) :=
  let* ratio := py_div (current_temperature st) (start_temperature st) in
  let magnitude := ratio * perturbation_magnitude st in
  match _current_sparsity_list st with
  | None => raise TypeError
  | Some current =>
      let* (configs, sparsities, t') :=
        perturb_groups (weights_numel st) fuel magnitude
          (combine (target_sparsity_list st) current) t in
      ok (set_temp st configs sparsities, t')
  end.

Section WithExp.

(** [np.exp] on floats. *)
Variable float_exp : Q -> Q.

(** [np.exp(-1 * delta_E / self.current_temperature)].  The division is
    numpy's, which does not raise: at temperature 0 the quotient is
    [-inf] or [nan], and the test [draw < probability] is then false,
    as it is for the probability 0 and a draw of the unit interval. *)
Definition acceptance_probability (delta_E temperature : Q) : Q :=
  if Qeq_bool temperature 0 then 0
  else float_exp (-1 * delta_E / temperature).

(** [self._tasks[task_result.task_id].score]. *)
Definition task_score (st : state) (r : TaskResult) : result (option Q) :=
  match result_task_id r with
  | Origin => raise KeyError
  | Tid n =>
      match _tasks st !! n with
      | Some task => ok (score task)
      | None => raise KeyError
      end
  end.

(** The update of the current assignment in [generate_tasks], from the
    score of the candidate. *)
Definition acceptance (st : state) (new_score : option Q) (t : tape)
  : result (state * tape) :=
  match _current_sparsity_list st with
  | None => ok (set_current st new_score (current_temperature st), t)
  | Some _ =>
      match new_score, _current_score st with
      | Some s, Some current =>
          let delta_E := Qabs (s - current) in
          let probability :=
            acceptance_probability delta_E (current_temperature st) in
          let cooled := current_temperature st * cool_down_rate st in
          if Qlt_bool current s then ok (set_current st (Some s) cooled, t)
          else
            let* (us, t') := uniform 0 1 1 t in
            match us with
            | [u] =>
                if Qlt_bool u probability
                then ok (set_current st (Some s) cooled, t')
                else ok (st, t')
            | _ => raise IndexError
            end
      | _, _ => raise TypeError
      end
  end.

(** The tail of [generate_tasks]: the candidate is exported and wrapped
    in a task. *)
Definition emit (st : state) : result (list Task * state) :=
  match _temp_config_list st with
  | None => raise TypeError
  | Some configs =>
      let id := _task_id_candidate st in
      let* new_config_list :=
        Allocator._recover_real_sparsity (masked_rate st) configs in
      let task := mkTask id (CompactModelPath Origin) (CompactMasksPath Origin)
                         (ConfigListPath id) None None in
      ok ([task],
          mkState (start_temperature st) (current_temperature st)
            (stop_temperature st) (cool_down_rate st)
            (perturbation_magnitude st) (weights_numel st) (masked_rate st)
            (target_sparsity_list st) (_temp_config_list st)
            (_temp_sparsity_list st) (_current_sparsity_list st)
            (_current_score st) (<[id := task]> (_tasks st)) (id + 1)%Z
            (writes st ++ [Dumped (ConfigListPath id) new_config_list]))
  end.

(** [SimulatedAnnealingTaskGenerator.generate_tasks]. *)
Definition generate_tasks (fuel : nat) (st : state) (r : TaskResult)
    (t : tape) : result (list Task * state * tape) :=
  match _temp_config_list st with
  | None =>
      let* (st1, t1) := _init_temp_config_list fuel st t in
      let* (tasks, st2) := emit st1 in
      ok (tasks, st2, t1)
  | Some _ =>
      let* new_score := task_score st r in
      let* (st1, t1) := acceptance st new_score t in
      if Qlt_bool (current_temperature st1) (stop_temperature st1)
      then ok ([], st1, t1)
      else
        let* (st2, t2) := _update_with_perturbations fuel st1 t1 in
        let* (tasks, st3) := emit st2 in
        ok (tasks, st3, t2)
  end.

(** Modelled from the spec: the feedback of the executor.  The score of
    a result reaches [generate_tasks] as the [score] of the task of the
    result; the base class [TaskGenerator], which stores it there before
    it calls [generate_tasks], is not among the sources. *)
Definition store_score (st : state) (r : TaskResult) (new_score : option Q)
  : state :=
  match result_task_id r with
  | Origin => st
  | Tid n =>
      mkState (start_temperature st) (current_temperature st)
        (stop_temperature st) (cool_down_rate st) (perturbation_magnitude st)
        (weights_numel st) (masked_rate st) (target_sparsity_list st)
        (_temp_config_list st) (_temp_sparsity_list st)
        (_current_sparsity_list st) (_current_score st)
        (alter (fun task =>
                  mkTask (task_id task) (model_path task) (masks_path task)
                         (config_list_path task)
                         (current2origin_sparsity task) new_score)
               n (_tasks st))
        (_task_id_candidate st) (writes st)
  end.

(** The generator driven over the feedback of the executor: the tasks of
    every call. *)
Fixpoint run (fuel : nat) (st : state)
    (feedback : list (TaskResult * option Q)) (t : tape)
  : result (list (list Task) * state * tape) :=
  match feedback with
  | [] => ok ([], st, t)
  | (r, new_score) :: feedback' =>
      let* (tasks, st1, t1) :=
        generate_tasks fuel (store_score st r new_score) r t in
      let* (rest, st2, t2) := run fuel st1 feedback' t1 in
      ok (tasks :: rest, st2, t2)
  end.

(** [SimulatedAnnealingTaskGenerator.init_pending_tasks]: the origin
    model and masks are saved as the model and masks of every task, then
    comes the first call. *)
Definition init_pending_tasks (fuel : nat) (st : state) (t : tape)
  : result (list Task * state * tape) :=
  let saved :=
    mkState (start_temperature st) (current_temperature st)
      (stop_temperature st) (cool_down_rate st) (perturbation_magnitude st)
      (weights_numel st) (masked_rate st) (target_sparsity_list st)
      (_temp_config_list st) (_temp_sparsity_list st)
      (_current_sparsity_list st) (_current_score st) (_tasks st)
      (_task_id_candidate st)
      (writes st ++ [Saved (CompactModelPath Origin);
                     Saved (CompactMasksPath Origin)]) in
  generate_tasks fuel saved (mkTaskResult Origin [] []) t.

End WithExp.

End Annealing.

(** ** Commands: the field loader *)

Module Command.

(** A decoded JSON value; [JNull] is Python's [None]. *)
#[warnings="-register-all"]
Inductive json : Type :=
| JNull
| JBool (b : bool)
| JNum (n : Z)
| JStr (s : string)
| JArr (items : list json)
| JObj (members : list (string * json)).

Inductive log_entry : Type :=
| MissingField (field : string) (data : gmap string json)
| UnrecognizedFields (data : gmap string json).

Definition is_upper (c : ascii) : bool :=
  let n := nat_of_ascii c in (65 <=? n)%nat && (n <=? 90)%nat.
Definition is_lower (c : ascii) : bool :=
  let n := nat_of_ascii c in (97 <=? n)%nat && (n <=? 122)%nat.
Definition to_upper (c : ascii) : ascii :=
  if is_lower c then ascii_of_nat (nat_of_ascii c - 32) else c.
Definition to_lower (c : ascii) : ascii :=
  if is_upper c then ascii_of_nat (nat_of_ascii c + 32) else c.

(** [name.split('_')]: never empty, an empty word between two
    underscores. *)
Fixpoint split_underscore (name : string) : list string :=
  match name with
  | EmptyString => [EmptyString]
  | String c rest =>
      if Ascii.eqb c "_"%char then EmptyString :: split_underscore rest
      else
        match split_underscore rest with
        | word :: words => String c word :: words
        | [] => [String c EmptyString]
        end
  end.

(** [word.title()] on ASCII: a letter is upper case when the character
    before it is not a letter, and lower case otherwise. *)
Fixpoint title_from (previous_is_cased : bool) (word : string) : string :=
  match word with
  | EmptyString => EmptyString
  | String c rest =>
      if is_upper c || is_lower c
      then String (if previous_is_cased then to_lower c else to_upper c)
                  (title_from true rest)
      else String c (title_from false rest)
  end.

Definition title (word : string) : string := title_from false word.

Definition _camel_case (name : string) : string :=
  match split_underscore name with
  | [] => EmptyString
  | first :: words => (first ++ String.concat "" (map title words))%string
  end.

(** [data.pop(key)]. *)
Definition dict_pop (key : string) (data : gmap string json)
  : result (json * gmap string json) :=
  match data !! key with
  | Some value => ok (value, delete key data)
  | None => raise KeyError
  end.

(** The [for field in fields(cls)] of [_load]: the remaining data, the
    attributes set on [obj] and the log. *)
Fixpoint load_fields (fields : list string) (data obj : gmap string json)
    (log : list log_entry)
  : result (gmap string json * gmap string json * list log_entry) :=
  match fields with
  | [] => ok (data, obj, log)
  | name :: fields' =>
      let camel_key := _camel_case name in
      if decide (data !! camel_key = None)
      then load_fields fields' data (<[name := JNull]> obj)
                       (log ++ [MissingField name data])
      else
        let* (value, data') := dict_pop camel_key data in
        load_fields fields' data' (<[name := value]> obj) log
  end.

(** [Command._load] for a class whose declared fields are [fields]:
    the attributes of the object and what was logged. *)
Definition _load (fields : list string) (data : gmap string json)
  : result (gmap string json * list log_entry) :=
  let* (rest, obj, log) := load_fields fields data ∅ [] in
  ok (obj, if decide (rest = ∅) then log
           else log ++ [UnrecognizedFields rest]).

(** The declared fields of the commands of [from_algo.py] and
    [to_algo.py], those of the base class first. *)
Definition NewTrialJobCommand : list string :=
  ["channel"; "command_type"; "parameter_id"; "parameter"]%string.
Definition KillTrialJobCommand : list string :=
  ["channel"; "command_type"; "trial_job_id"]%string.
Definition ReportMetricDataCommand : list string :=
  ["channel"; "command_type"; "parameter_id"; "value"; "type"]%string.
Definition UpdateSearchSpaceCommand : list string :=
  ["channel"; "command_type"; "search_space"]%string.

Definition InitializeCommand : list string :=
  ["channel"; "command_type"; "config"]%string.

Section WithConfig.

(** [ExperimentConfig], a collaborator, called with keyword arguments:
    it builds a config of some type from the members of an object, or
    raises. *)
Variable V : Type.
Variable ExperimentConfig : list (string * json) -> result V.

(** [InitializeCommand._load]: the loader of the base class, then
    [obj.config] is replaced by the [ExperimentConfig] built from it; the
    unpacking of [obj.config] into keyword arguments needs a mapping and
    raises a type error on anything else.  The new value of the
    attribute [config] is the second component. *)
Definition InitializeCommand_load (data : gmap string json)
  : result (gmap string json * V * list log_entry) :=
  let* (obj, log) := _load InitializeCommand data in
  match obj !! "config"%string with
  | Some (JObj members) =>
      let* config := ExperimentConfig members in
      ok (obj, config, log)
  | _ => raise TypeError
  end.

End WithConfig.

End Command.

(** ** The protocol: sending a command *)

Module Protocol.

Inductive CommandType : Type :=
| Initialize | RequestTrialJobs | ReportMetricData | UpdateSearcSpace
| ImportData | AddCustomizedTrialJob | TrialEnd | Terminate | Ping
| Initialized | NewTrialJob | SendTrialJobParameter | NoMoreTrialJobs
| KillTrialJob.

Definition value (command : CommandType) : string :=
  match command with
  | Initialize => "to-algo/initialize"
  | RequestTrialJobs => "to-algo/request-trial-jobs"
  | ReportMetricData => "to-algo/report-metric-data"
  | UpdateSearcSpace => "to-algo/update-search-space"
  | ImportData => "to-algo/import-data"
  | AddCustomizedTrialJob => "to-algo/add-customized-trial-job"
  | TrialEnd => "to-algo/trial-end"
  | Terminate => "to-algo/terminate"
  | Ping => "to-algo/ping"
  | Initialized => "from-algo/initialized"
  | NewTrialJob => "from-algo/new-trial-job"
  | SendTrialJobParameter => "from-algo/send-trial-job-parameter"
  | NoMoreTrialJobs => "from-algo/no-more-trial-jobs"
  | KillTrialJob => "from-algo/kill-trial-job"
  end%string.

(** [send], on the out queue: the assertion on the prefix of the value,
    then [json.dumps] of a dict that holds the member itself, which is
    not serializable and raises a type error before anything is put on
    the queue.  The assertion error carries the command, not numbers. *)
Definition send (command : CommandType) (data : string)
    (_out_queue : list string) : result (list string) :=
  if String.prefix "from-tuner/" (value command) then raise TypeError
  else raise (AssertionError []).

End Protocol.

(** ** What the specification speaks of *)

Module Spec.

(** [pruned_elements]: the sum of [floor(weight_size_i * fraction_i)]
    over the positions of the two sorted vectors. *)
Fixpoint pruned_elements (pairs : list (Z * Q)) : Z :=
  match pairs with
  | [] => 0%Z
  | (w, f) :: pairs' => (Qfloor (inject_Z w * f) + pruned_elements pairs')%Z
  end.

Fixpoint total_elements (pairs : list (Z * Q)) : Z :=
  match pairs with
  | [] => 0%Z
  | (w, _) :: pairs' => (w + total_elements pairs')%Z
  end.

(** [scale = target_total / (pruned_elements / total_elements)]. *)
Definition scale (target_total : Q) (pairs : list (Z * Q)) : Q :=
  target_total / (inject_Z (pruned_elements pairs)
                  / inject_Z (total_elements pairs)).

(** The sum of [weight_size_i * fraction_i], no floor taken. *)
Fixpoint weighted_sum (pairs : list (Z * Q)) : Q :=
  match pairs with
  | [] => 0
  | (w, f) :: pairs' => inject_Z w * f + weighted_sum pairs'
  end.

(** The weighted pruned fraction of a vector [v] over sizes [ws]. *)
Definition weighted_fraction (ws : list Z) (v : list Q) : Q :=
  weighted_sum (combine ws v) / inject_Z (total_elements (combine ws v)).

(** The cumulative target [C(i)] of a schedule, for the target [T] of
    a group and [N] iterations. *)
Definition cumulative_target (float_pow : Q -> Q -> Q) (k : Schedule.kind)
    (i N : Z) (T : Q) : Q :=
  match k with
  | Schedule.AGP => T * (1 - (1 - inject_Z i / inject_Z N) ^ 3)
  | Schedule.Linear => T * (inject_Z i / inject_Z N)
  | Schedule.LotteryTicket => 1 - float_pow (1 - T) (inject_Z i / inject_Z N)
  end.

(** The incremental sparsity [S = max(0, (C - A) / (1 - A))]. *)
Definition incremental_sparsity (C A : Q) : Q := Qmax 0 ((C - A) / (1 - A)).

(** The acceptance rule of the annealing engine, for a candidate of
    score [s]: there is a current score, and [s] is strictly better or
    the next draw is below the acceptance probability. *)
Definition accepted_by_rule (float_exp : Q -> Q) (st : Annealing.state)
    (s : Q) (t : Annealing.tape) : Prop :=
  exists current : Q,
    Annealing._current_score st = Some current
    /\ is_Some (Annealing._current_sparsity_list st)
    /\ (current < s
        \/ exists u t', t = u :: t'
             /\ u < Annealing.acceptance_probability float_exp
                      (Qabs (s - current)) (Annealing.current_temperature st)).

(** The candidate of [st] is the current assignment of [st'], with the
    score [s]. *)
Definition adopted (st st' : Annealing.state) (s : Q) : Prop :=
  Annealing._current_sparsity_list st'
  = Some (Annealing._temp_sparsity_list st)
  /\ Annealing._current_score st' = Some s.

(** The vectors of the groups whose target is 0 are empty. *)
Definition zero_groups_empty (targets : list Config)
    (sparsities : list (list Q)) : Prop :=
  Forall2 (fun config v => total_sparsity config == 0 -> v = [])
          targets sparsities.

(** An entry of a config list names one op, of a group whose target is
    not 0. *)
Definition from_nonzero_group (targets : list Config) (entry : Config)
  : Prop :=
  exists (config : Config) (n : string),
    config ∈ targets /\ ~ total_sparsity config == 0
    /\ op_names entry = [n] /\ n ∈ op_names config.

(** Two states agree on the parameters of the search and on the current
    assignment, its score and the temperature. *)
Definition same_search (st st' : Annealing.state) : Prop :=
  Annealing.start_temperature st' = Annealing.start_temperature st
  /\ Annealing.current_temperature st' = Annealing.current_temperature st
  /\ Annealing.stop_temperature st' = Annealing.stop_temperature st
  /\ Annealing.cool_down_rate st' = Annealing.cool_down_rate st
  /\ Annealing.perturbation_magnitude st' = Annealing.perturbation_magnitude st
  /\ Annealing.weights_numel st' = Annealing.weights_numel st
  /\ Annealing.masked_rate st' = Annealing.masked_rate st
  /\ Annealing.target_sparsity_list st' = Annealing.target_sparsity_list st
  /\ Annealing._current_sparsity_list st' = Annealing._current_sparsity_list st
  /\ Annealing._current_score st' = Annealing._current_score st.

(** The invariant of the engine about the groups whose target is 0:
    their vectors are empty in the candidate and in the current
    assignment, and no entry of the candidate or of a config list
    written so far comes from them. *)
Definition zero_groups_silent (st : Annealing.state) : Prop :=
  let targets := Annealing.target_sparsity_list st in
  (forall configs, Annealing._temp_config_list st = Some configs ->
     Forall (from_nonzero_group targets) configs
     /\ zero_groups_empty targets (Annealing._temp_sparsity_list st))
  /\ (forall current, Annealing._current_sparsity_list st = Some current ->
        zero_groups_empty targets current)
  /\ (forall p configs, Dumped p configs ∈ Annealing.writes st ->
        Forall (from_nonzero_group targets) configs).

(** The temperature after [k] accepted steps: one multiplication by the
    cool down rate for each. *)
Fixpoint cooled (temperature cool : Q) (k : nat) : Q :=
  match k with
  | O => temperature
  | S k' => cooled temperature cool k' * cool
  end.

(** A string holds an underscore. *)
Fixpoint has_underscore (s : string) : bool :=
  match s with
  | EmptyString => false
  | String c rest => Ascii.eqb c "_"%char || has_underscore rest
  end.

(** The engine has stopped: it has a candidate and a scored current
    assignment, and its temperature, not negative, is below the stop
    temperature. *)
Definition stopped (st : Annealing.state) : Prop :=
  is_Some (Annealing._temp_config_list st)
  /\ is_Some (Annealing._current_sparsity_list st)
  /\ is_Some (Annealing._current_score st)
  /\ 0 <= Annealing.current_temperature st
  /\ Annealing.current_temperature st < Annealing.stop_temperature st
  /\ 0 < Annealing.cool_down_rate st
  /\ Annealing.cool_down_rate st <= 1.

(** A feedback that names a task of the generator and carries a score. *)
Definition scored (st : Annealing.state) (f : TaskResult * option Q) : Prop :=
  exists (n : Z) (s : Q),
    result_task_id (fst f) = Tid n
    /\ is_Some (Annealing._tasks st !! n)
    /\ snd f = Some s.

End Spec.

(** ** A small engine, for examples *)

Module Scenario.

(** One group of one op of 10 elements, with the target 1/2. *)
Definition numel : list (string * Z) := [("a"%string, 10%Z)].
Definition targets : list Config := [mkConfig ["a"%string] (1 # 2)].

Definition origin : TaskResult := mkTaskResult Origin [] [].
Definition result_of (n : Z) : TaskResult := mkTaskResult (Tid n) [] [].

(** An exponential that is never looked at closely. *)
Definition half : Q -> Q := fun _ => 1 # 2.

(** The engine with its default parameters: start 100, stop 20,
    cool down rate 0.9, magnitude 0.35. *)
Definition default : result Annealing.state :=
  Annealing.init 100 20 (9 # 10) (35 # 100) numel ∅ targets 0.

(** The same engine started at the temperature 10, below the stop
    temperature 20. *)
Definition cold : result Annealing.state :=
  Annealing.init 10 20 (9 # 10) (35 # 100) numel ∅ targets 0.

(** An engine at the temperature -10 whose current assignment has the
    score 0. *)
Definition negative : Annealing.state :=
  Annealing.mkState (-10) (-10) 20 (1 # 2) (35 # 100) numel ∅ targets
    (Some [mkConfig ["a"%string] (1 # 2)]) [[1 # 2]] (Some [[1 # 2]])
    (Some 0) ∅ 1 [].

(** The default engine after some rounds: the candidate [[1/2]] has been
    run as the task 0, which got the score 1, and the current assignment
    has the score 0. *)
Definition warm : Annealing.state :=
  Annealing.mkState 100 100 20 (9 # 10) (35 # 100) numel ∅ targets
    (Some [mkConfig ["a"%string] (1 # 2)]) [[1 # 2]] (Some [[1 # 2]])
    (Some 0)
    {[ 0%Z := mkTask 0 (CompactModelPath Origin) (CompactMasksPath Origin)
                     (ConfigListPath 0) None (Some 1) ]}
    1 [].

(** Two groups, the second with the target 0. *)
Definition numel2 : list (string * Z) :=
  [("a"%string, 10%Z); ("b"%string, 5%Z)].
Definition targets2 : list Config :=
  [mkConfig ["a"%string] (1 # 2); mkConfig ["b"%string] 0].

(** The engine built for them with the default parameters and no prior
    mask. *)
Definition two_groups : Annealing.state :=
  Annealing.mkState 100 100 20 (9 # 10) (35 # 100) numel2 ∅ targets2
    None [] None None ∅ 0 [].

(** The feedback of a function based run of two iterations: the origin,
    then the tasks 0 and 1, with the sparsity achieved so far. *)
Definition achieved (n : tid) (a : Q) : TaskResult :=
  mkTaskResult n [mkConfig ["a"%string] a] [mkConfig ["a"%string] a].

(** The value that a computation returns, or a default. *)
Definition get {A} (default : A) (r : result A) : A :=
  match r with
  | inr a => a
  | inl _ => default
  end.

(** A function based run over three results, and the first call of the
    engine of two groups. *)
Definition feedback3 : list TaskResult :=
  [achieved Origin 0; achieved (Tid 0) 0; achieved (Tid 1) (1 # 2)].
Definition agp1 : Schedule.state :=
  Schedule.init Schedule.AGP 1 [mkConfig ["a"%string] (1 # 2)] 0.
Definition agp1_run : list (list Task) * Schedule.state :=
  get ([], agp1) (Schedule.run (fun _ _ => 0) Schedule.AGP agp1 feedback3).
Definition first_call : list Task * Annealing.state * Annealing.tape :=
  get ([], two_groups, [])
      (Annealing.generate_tasks half 1 two_groups origin [1 # 2]).
Definition first_run : list (list Task) * Annealing.state * Annealing.tape :=
  get ([], two_groups, [])
      (Annealing.run half 1 two_groups [(origin, None)] [1 # 2]).

(** The generator [agp1] after its first call, on the origin. *)
Definition agp1_first : list Task * Schedule.state :=
  get ([], agp1)
      (Schedule.generate_tasks (fun _ _ => 0) Schedule.AGP agp1
         (achieved Origin 0)).

(** A power that takes the exponent 1 to the base. *)
Definition pow1 : Q -> Q -> Q := fun x e => if Qeq_bool e 1 then x else 1.

(** Three rounds of the engine of two groups: the origin, then the
    tasks 0 and 1 come back with the scores 1 and 2. *)
Definition scores3 : list (TaskResult * option Q) :=
  [(origin, None); (result_of 0, Some 1); (result_of 1, Some 2)].
Definition three_rounds
  : list (list Task) * Annealing.state * Annealing.tape :=
  get ([], two_groups, [])
      (Annealing.run half 1 two_groups scores3 [1 # 2; 1 # 2; 1 # 2]).

End Scenario.

(** * Properties *)

(** ** The error monad and the sort *)

Lemma mapM_Forall2 {A B} (f : A -> result B) (l : list A) (bs : list B) :
  mapM f l = ok bs <-> Forall2 (fun a b => f a = ok b) l bs.
Proof.
  revert bs. induction l as [|a l IH]; intros bs; simpl.
  - split.
    + intros H. injection H as <-. constructor.
    + intros H. inversion H. reflexivity.
  - split.
    + destruct (f a) as [e|b] eqn:Hfa; simpl; [discriminate|].
      destruct (mapM f l) as [e|bs'] eqn:Hl; simpl; [discriminate|].
      intros H. injection H as <-. constructor; [exact Hfa|].
      apply IH. reflexivity.
    + intros H. inversion H as [|a' b l' bs' Hfa Hrest]; subst.
      rewrite Hfa. simpl. apply IH in Hrest. rewrite Hrest. reflexivity.
Qed.

Lemma mapM_length {A B} (f : A -> result B) (l : list A) (bs : list B) :
  mapM f l = ok bs -> length bs = length l.
Proof.
  intros H. apply mapM_Forall2 in H. symmetry. eapply Forall2_length, H.
Qed.

Lemma mapM_total {A B} (f : A -> result B) (g : A -> B) (l : list A) :
  Forall (fun a => f a = ok (g a)) l -> mapM f l = ok (map g l).
Proof.
  intros H. apply mapM_Forall2. induction H; simpl; constructor; auto.
Qed.

Section Sorting.

Context {A : Type} (le : A -> A -> bool).

Lemma insert_by_perm (x : A) (l : list A) : insert_by le x l ≡ₚ x :: l.
Proof.
  induction l as [|y l IH]; simpl; [reflexivity|].
  destruct (le x y); [reflexivity|].
  rewrite IH. apply Permutation_swap.
Qed.

Lemma sorted_by_perm (l : list A) : sorted_by le l ≡ₚ l.
Proof.
  induction l as [|x l IH]; simpl; [reflexivity|].
  rewrite insert_by_perm. now rewrite IH.
Qed.

Lemma sorted_by_length (l : list A) : length (sorted_by le l) = length l.
Proof. apply Permutation_length, sorted_by_perm. Qed.

Hypothesis le_total : forall a b, le a b = true \/ le b a = true.
Hypothesis le_trans :
  forall a b c, le a b = true -> le b c = true -> le a c = true.

Lemma insert_by_sorted (x : A) (l : list A) :
  StronglySorted (fun a b => le a b = true) l ->
  StronglySorted (fun a b => le a b = true) (insert_by le x l).
Proof.
  induction 1 as [|y l Hs IH Hy]; simpl.
  - repeat constructor.
  - destruct (le x y) eqn:Hxy.
    + constructor; [constructor; assumption|].
      constructor; [exact Hxy|].
      eapply Forall_impl; [exact Hy|]. intros z Hz. eauto.
    + constructor; [exact IH|].
      rewrite insert_by_perm. constructor; [|exact Hy].
      destruct (le_total x y) as [H|H]; congruence.
Qed.

Lemma sorted_by_sorted (l : list A) :
  StronglySorted (fun a b => le a b = true) (sorted_by le l).
Proof.
  induction l as [|x l IH]; simpl; [constructor|].
  apply insert_by_sorted, IH.
Qed.

End Sorting.

Lemma StronglySorted_weaken {A} (R1 R2 : A -> A -> Prop) (l : list A) :
  (forall a b, R1 a b -> R2 a b) -> StronglySorted R1 l -> StronglySorted R2 l.
Proof.
  intros HR. induction 1 as [|a l Hs IH Ha]; constructor; [exact IH|].
  eapply Forall_impl; [exact Ha|]. intros b. apply HR.
Qed.

Lemma sorted_Z_sorted (l : list Z) : StronglySorted Z.le (sorted_Z l).
Proof.
  eapply StronglySorted_weaken; [|apply (sorted_by_sorted Z.leb)].
  - intros a b H. apply Z.leb_le, H.
  - intros a b. rewrite !Z.leb_le. lia.
  - intros a b c. rewrite !Z.leb_le. lia.
Qed.

Lemma sorted_Q_sorted (l : list Q) : StronglySorted Qle (sorted_Q l).
Proof.
  eapply StronglySorted_weaken; [|apply (sorted_by_sorted Qle_bool)].
  - intros a b H. apply Qle_bool_iff, H.
  - intros a b. rewrite !Qle_bool_iff.
    destruct (Qlt_le_dec a b) as [H|H]; [left; apply Qlt_le_weak, H|right; exact H].
  - intros a b c. rewrite !Qle_bool_iff. apply Qle_trans.
Qed.

(** ** Python arithmetic *)

Lemma py_int_floor (x : Q) : 0 <= x -> py_int x = Qfloor x.
Proof.
  destruct x as [n d]. unfold Qle, py_int, Qfloor. simpl. intros H.
  apply Z.quot_div_nonneg; lia.
Qed.

Lemma py_div_ok (a b : Q) : ~ b == 0 -> py_div a b = ok (a / b).
Proof.
  intros H. unfold py_div. destruct (Qeq_bool b 0) eqn:E; [|reflexivity].
  apply Qeq_bool_iff in E. contradiction.
Qed.

Lemma py_div_zero (a b : Q) : b == 0 -> py_div a b = raise ZeroDivisionError.
Proof.
  intros H. unfold py_div. apply Qeq_bool_iff in H. now rewrite H.
Qed.

Lemma py_max_spec (a b : Q) :
  (a < b /\ py_max a b = b) \/ (b <= a /\ py_max a b = a).
Proof.
  unfold py_max. destruct (Qlt_le_dec a b); [left|right]; split; auto.
Qed.

(** ** The allocator: [_rescale_sparsity] *)

Lemma Forall_combine {A B} (P : A -> Prop) (R : B -> Prop)
    (l : list A) (k : list B) :
  Forall P l -> Forall R k ->
  Forall (fun p => P (fst p) /\ R (snd p)) (combine l k).
Proof.
  intros Hl. revert k. induction Hl as [|a l Ha Hl IH]; intros k Hk; simpl.
  - constructor.
  - destruct Hk as [|b k Hb Hk]; constructor; auto.
Qed.

Lemma sorted_pairs_nonneg (ws : list Z) (fractions : list Q) :
  Forall (fun w => (0 < w)%Z) ws ->
  Forall (fun f => 0 <= f) fractions ->
  Forall (fun p => (0 < fst p)%Z /\ 0 <= snd p)
         (combine (sorted_Z ws) (sorted_Q fractions)).
Proof.
  intros Hw Hf. apply Forall_combine.
  - unfold sorted_Z. now rewrite sorted_by_perm.
  - unfold sorted_Q. now rewrite sorted_by_perm.
Qed.

Lemma weight_times_fraction_nonneg (w : Z) (f : Q) :
  (0 < w)%Z -> 0 <= f -> 0 <= inject_Z w * f.
Proof.
  intros Hw Hf. apply Qmult_le_0_compat; [|exact Hf].
  change 0 with (inject_Z 0). rewrite <- Zle_Qle. lia.
Qed.

Lemma weigh_spec (pairs : list (Z * Q)) (total pruned : Z) :
  Forall (fun p => (0 < fst p)%Z /\ 0 <= snd p) pairs ->
  Allocator.weigh pairs total pruned
  = ((total + Spec.total_elements pairs)%Z,
     (pruned + Spec.pruned_elements pairs)%Z).
Proof.
  intros H. revert total pruned.
  induction H as [|[w f] pairs [Hw Hf] _ IH]; intros total pruned;
    cbn [Allocator.weigh Spec.total_elements Spec.pruned_elements].
  - f_equal; lia.
  - rewrite IH. simpl in Hw, Hf.
    rewrite py_int_floor by (apply weight_times_fraction_nonneg; assumption).
    f_equal; lia.
Qed.

Lemma total_elements_nonneg (pairs : list (Z * Q)) :
  Forall (fun p => (0 < fst p)%Z /\ 0 <= snd p) pairs ->
  (0 <= Spec.total_elements pairs)%Z.
Proof.
  induction 1 as [|[w f] pairs [Hw _] _ IH];
    cbn [Spec.total_elements fst] in *; lia.
Qed.

Lemma pruned_elements_nonneg (pairs : list (Z * Q)) :
  Forall (fun p => (0 < fst p)%Z /\ 0 <= snd p) pairs ->
  (0 <= Spec.pruned_elements pairs)%Z.
Proof.
  induction 1 as [|[w f] pairs [Hw Hf] _ IH];
    cbn [Spec.pruned_elements fst snd] in *; [lia|].
  assert (0 <= Qfloor (inject_Z w * f))%Z; [|lia].
  change 0%Z with (Qfloor 0). apply Qfloor_resp_le.
  apply weight_times_fraction_nonneg; assumption.
Qed.

Lemma total_elements_pos (pairs : list (Z * Q)) :
  Forall (fun p => (0 < fst p)%Z /\ 0 <= snd p) pairs ->
  Spec.pruned_elements pairs <> 0%Z ->
  (0 < Spec.total_elements pairs)%Z.
Proof.
  intros H Hp. destruct H as [|[w f] pairs [Hw _] H];
    cbn [Spec.total_elements Spec.pruned_elements fst] in *.
  - congruence.
  - apply total_elements_nonneg in H. lia.
Qed.

Lemma inject_Z_nonzero (z : Z) : z <> 0%Z -> ~ inject_Z z == 0.
Proof. intros Hz H. apply Hz. now apply inject_Z_injective. Qed.

Lemma Qdiv_nonzero (a b : Q) : ~ a == 0 -> ~ b == 0 -> ~ a / b == 0.
Proof.
  intros Ha Hb H. apply Ha.
  rewrite <- (Qmult_div_r a b Hb), H. ring.
Qed.

Section Rescale.

Variables (numel : list (string * Z)) (fractions : list Q) (target_total : Q).
Variables (names : list string) (ws : list Z).
Hypothesis Hlen : length fractions = length names.
Hypothesis Hws : mapM (dict_get numel) names = ok ws.
Hypothesis Hpos : Forall (fun w => (0 < w)%Z) ws.
Hypothesis Hnonneg : Forall (fun f => 0 <= f) fractions.

Let pairs : list (Z * Q) := combine (sorted_Z ws) (sorted_Q fractions).

Lemma rescale_sparsity_nothing_pruned :
  Spec.pruned_elements pairs = 0%Z ->
  Allocator._rescale_sparsity numel fractions target_total names = ok None.
Proof.
  intros Hp. unfold Allocator._rescale_sparsity.
  rewrite Hlen, Nat.eqb_refl. simpl. rewrite Hws. simpl.
  fold pairs.
  rewrite weigh_spec by (apply sorted_pairs_nonneg; assumption).
  rewrite !Z.add_0_l. cbv beta iota. now rewrite Hp.
Qed.

Lemma rescale_sparsity_scaled :
  Spec.pruned_elements pairs <> 0%Z ->
  Allocator._rescale_sparsity numel fractions target_total names
  = ok (Some (map (fun f => f * Spec.scale target_total pairs)
                  (sorted_Q fractions))).
Proof.
  intros Hp.
  pose proof (sorted_pairs_nonneg ws fractions Hpos Hnonneg) as Hpairs.
  fold pairs in Hpairs.
  unfold Allocator._rescale_sparsity.
  rewrite Hlen, Nat.eqb_refl. simpl. rewrite Hws. simpl.
  fold pairs. rewrite weigh_spec by exact Hpairs.
  rewrite !Z.add_0_l. cbv beta iota.
  destruct (Z.eqb_spec (Spec.pruned_elements pairs) 0%Z) as [E|_];
    [contradiction|].
  pose proof (total_elements_pos pairs Hpairs Hp) as Htot.
  rewrite py_div_ok by (apply inject_Z_nonzero; lia). simpl.
  rewrite py_div_ok
    by (apply Qdiv_nonzero; apply inject_Z_nonzero; [exact Hp|lia]).
  reflexivity.
Qed.

End Rescale.

(** C2. Over sizes that are positive and fractions that are not
    negative, [_rescale_sparsity] works on the sizes of the group in
    ascending order and on the fractions in ascending order (each a
    sorted rearrangement of what it is given); it returns [None]
    exactly when the number of pruned elements, the sum of the floors
    of [weight_size_i * fraction_i] over the two sorted vectors, is 0;
    and otherwise it returns the sorted fractions, each multiplied by
    [scale = target_total / (pruned_elements / total_elements)]. *)
Theorem rescale_sparsity_none_iff_nothing_pruned
    (numel : list (string * Z)) (fractions : list Q) (target_total : Q)
    (names : list string) (ws : list Z)
    (Hlen : length fractions = length names)
    (Hws : mapM (dict_get numel) names = ok ws)
    (Hpos : Forall (fun w => (0 < w)%Z) ws)
    (Hnonneg : Forall (fun f => 0 <= f) fractions) :
  exists (sizes : list Z) (sorted_fractions : list Q),
    sizes ≡ₚ ws /\ StronglySorted Z.le sizes
    /\ sorted_fractions ≡ₚ fractions /\ StronglySorted Qle sorted_fractions
    /\ (Spec.pruned_elements (combine sizes sorted_fractions) = 0%Z <->
        Allocator._rescale_sparsity numel fractions target_total names
        = ok None)
    /\ (Spec.pruned_elements (combine sizes sorted_fractions) <> 0%Z ->
        Allocator._rescale_sparsity numel fractions target_total names
        = ok (Some (map (fun f =>
                           f * Spec.scale target_total
                                 (combine sizes sorted_fractions))
                        sorted_fractions))).
Proof.
  exists (sorted_Z ws), (sorted_Q fractions).
  split; [apply sorted_by_perm|]. split; [apply sorted_Z_sorted|].
  split; [apply sorted_by_perm|]. split; [apply sorted_Q_sorted|].
  split; [|apply rescale_sparsity_scaled; assumption].
  split.
  - apply rescale_sparsity_nothing_pruned; assumption.
  - intros Hnone.
    destruct (Z.eq_dec (Spec.pruned_elements
                          (combine (sorted_Z ws) (sorted_Q fractions))) 0%Z)
      as [E|E]; [exact E|].
    rewrite (rescale_sparsity_scaled numel fractions target_total names ws
               Hlen Hws Hpos Hnonneg E) in Hnone.
    discriminate.
Qed.

Lemma total_elements_scaled (c : Q) (ws : list Z) (fs : list Q) :
  Spec.total_elements (combine ws (map (fun f => f * c) fs))
  = Spec.total_elements (combine ws fs).
Proof.
  revert fs. induction ws as [|w ws IH]; intros [|f fs]; simpl; auto.
  now rewrite IH.
Qed.

Lemma weighted_sum_scaled (c : Q) (ws : list Z) (fs : list Q) :
  Spec.weighted_sum (combine ws (map (fun f => f * c) fs))
  == c * Spec.weighted_sum (combine ws fs).
Proof.
  revert fs. induction ws as [|w ws IH]; intros [|f fs];
    cbn [combine map Spec.weighted_sum]; try ring.
  rewrite IH. ring.
Qed.

Lemma weighted_sum_whole (pairs : list (Z * Q)) :
  Forall (fun p => inject_Z (Qfloor (inject_Z (fst p) * snd p))
                   == inject_Z (fst p) * snd p) pairs ->
  Spec.weighted_sum pairs == inject_Z (Spec.pruned_elements pairs).
Proof.
  induction 1 as [|[w f] pairs Hwf _ IH];
    cbn [Spec.weighted_sum Spec.pruned_elements fst snd] in *; [reflexivity|].
  rewrite inject_Z_plus, IH, Hwf. reflexivity.
Qed.

(** C7, as amended. When the number of pruned elements is positive,
    [_rescale_sparsity] returns a vector whose weighted pruned fraction
    is [target_total] times the quotient of the sum of
    [weight_size_i * fraction_i] by the sum of their floors; it is
    [target_total] when every [weight_size_i * fraction_i] is whole. *)
Theorem rescaled_fraction_is_target_up_to_floor
    (numel : list (string * Z)) (fractions : list Q) (target_total : Q)
    (names : list string) (ws : list Z)
    (Hlen : length fractions = length names)
    (Hws : mapM (dict_get numel) names = ok ws)
    (Hpos : Forall (fun w => (0 < w)%Z) ws)
    (Hnonneg : Forall (fun f => 0 <= f) fractions)
    (Hpruned : Spec.pruned_elements
                 (combine (sorted_Z ws) (sorted_Q fractions)) <> 0%Z) :
  exists v : list Q,
    Allocator._rescale_sparsity numel fractions target_total names
    = ok (Some v)
    /\ Spec.weighted_fraction (sorted_Z ws) v
       == target_total
          * (Spec.weighted_sum (combine (sorted_Z ws) (sorted_Q fractions))
             / inject_Z (Spec.pruned_elements
                           (combine (sorted_Z ws) (sorted_Q fractions))))
    /\ (Forall (fun p => inject_Z (Qfloor (inject_Z (fst p) * snd p))
                         == inject_Z (fst p) * snd p)
               (combine (sorted_Z ws) (sorted_Q fractions)) ->
        Spec.weighted_fraction (sorted_Z ws) v == target_total).
Proof.
  set (pairs := combine (sorted_Z ws) (sorted_Q fractions)) in *.
  pose proof (sorted_pairs_nonneg ws fractions Hpos Hnonneg) as Hpairs.
  fold pairs in Hpairs.
  pose proof (total_elements_pos pairs Hpairs Hpruned) as Htot.
  assert (HT : ~ inject_Z (Spec.total_elements pairs) == 0)
    by (apply inject_Z_nonzero; lia).
  assert (HP : ~ inject_Z (Spec.pruned_elements pairs) == 0)
    by (apply inject_Z_nonzero; exact Hpruned).
  eexists. split.
  { apply (rescale_sparsity_scaled numel fractions target_total names ws
             Hlen Hws Hpos Hnonneg Hpruned). }
  fold pairs.
  assert (Hfrac :
    Spec.weighted_fraction (sorted_Z ws)
      (map (fun f => f * Spec.scale target_total pairs) (sorted_Q fractions))
    == target_total
       * (Spec.weighted_sum pairs / inject_Z (Spec.pruned_elements pairs))).
  { unfold Spec.weighted_fraction.
    rewrite total_elements_scaled, weighted_sum_scaled. fold pairs.
    unfold Spec.scale. field. repeat split; assumption. }
  split; [exact Hfrac|].
  intros Hwhole. rewrite Hfrac, (weighted_sum_whole pairs Hwhole).
  field. exact HP.
Qed.

(** C7, the counterexample. One op of 4 elements, the fraction 3/8 and
    the target 1/2: one element is pruned, the scaled vector is [3/4],
    and its weighted pruned fraction is 1/4 away from the target (the
    floor of 4 * 3/4 is 3 elements of 4 as well). *)
Lemma rescaled_fraction_misses_target :
  Spec.pruned_elements (combine (sorted_Z [4%Z]) (sorted_Q [3 # 8])) = 1%Z
  /\ exists v : Q,
       Allocator._rescale_sparsity [("a"%string, 4%Z)] [3 # 8] (1 # 2)
         ["a"%string] = ok (Some [v])
       /\ v == 3 # 4
       /\ Qabs (Spec.weighted_fraction [4%Z] [v] - (1 # 2)) == 1 # 4
       /\ Spec.pruned_elements (combine [4%Z] [v]) = 3%Z.
Proof.
  split; [reflexivity|]. eexists. split; [vm_compute; reflexivity|].
  split; [reflexivity|]. split; reflexivity.
Qed.

(** ** The allocator: prior masks *)

Section SingleOp.

Variables (name : string) (w : Z) (m : Q).
Hypothesis Hm0 : 0 < m.
Hypothesis Hm1 : m < 1.
Hypothesis Hw : (0 < w)%Z.

Let pruned : Q := 0 + 1 / (1 / m - 1) * inject_Z w.
Let remaining : Q := 0 + inject_Z w.

Lemma single_op_inverse_nonzero : ~ 1 / m - 1 == 0.
Proof.
  intros H. assert (Hm : ~ m == 0) by lra.
  assert (E : 1 == m * (1 / m)) by (field; exact Hm).
  assert (E1 : 1 / m == 1) by lra.
  rewrite E1 in E. lra.
Qed.

Lemma single_op_masked_rate :
  ~ pruned + remaining == 0 /\ pruned / (pruned + remaining) == m.
Proof.
  assert (Hm : ~ m == 0) by lra.
  assert (H1m : ~ 1 - m == 0) by lra.
  assert (Hw' : ~ inject_Z w == 0) by (apply inject_Z_nonzero; lia).
  assert (Hsum : pruned + remaining == inject_Z w / (1 - m)).
  { unfold pruned, remaining. field. split; [lra|exact Hm]. }
  assert (Hnz : ~ pruned + remaining == 0).
  { rewrite Hsum. apply Qdiv_nonzero; assumption. }
  split; [exact Hnz|].
  rewrite Hsum. unfold pruned. field. repeat split; try assumption; lra.
Qed.

Lemma single_op_count_numel :
  Allocator.count_numel [(name, w)] {[name := m]} [name] 0 0
  = ok (remaining, pruned).
Proof.
  cbn [Allocator.count_numel]. unfold dict_get. cbn [List.find fst snd].
  rewrite String.eqb_refl. cbn [bind ok].
  rewrite lookup_singleton_eq.
  rewrite py_div_ok by lra. cbn [bind ok].
  rewrite py_div_ok by exact single_op_inverse_nonzero.
  reflexivity.
Qed.

Lemma single_op_adjust (t : Q) :
  Allocator._adjust_target_sparsity [(name, w)] {[name := m]}
    [mkConfig [name] t]
  = ok [mkConfig [name] (py_max 0 (t - pruned / (pruned + remaining)))].
Proof.
  unfold Allocator._adjust_target_sparsity.
  destruct (decide (({[name := m]} : gmap string Q) = ∅)) as [E|_].
  { exfalso. eapply (map_non_empty_singleton (M := gmap string)), E. }
  cbn [mapM]. unfold Allocator.adjust_config. cbn [op_names total_sparsity].
  rewrite single_op_count_numel. cbn [bind ok].
  rewrite py_div_ok by apply single_op_masked_rate.
  reflexivity.
Qed.

Lemma single_op_recover (s' : Q) :
  Allocator._recover_real_sparsity {[name := m]} [mkConfig [name] s']
  = ok [mkConfig [name] (m + s' * (1 - m))].
Proof.
  unfold Allocator._recover_real_sparsity. cbn [mapM].
  unfold Allocator.recover_config. cbn [op_names total_sparsity].
  rewrite lookup_singleton_eq. reflexivity.
Qed.

End SingleOp.

(** ** The engine on one op with a prior mask *)

Section SingleOpEngine.

Variable float_exp : Q -> Q.
Variables (name : string) (n : positive) (k : Z).
Hypothesis Hk : (0 < k < Z.pos n)%Z.

Let numel : list (string * Z) := [(name, Z.pos n)].

(** The draw [k / n] as [np.random.uniform(0, 1, 1)] returns it. *)
Let u : Q := 0 + (1 - 0) * (k # n).

Lemma single_op_draw_whole : inject_Z (Z.pos n) * u == inject_Z k.
Proof. unfold u, Qeq. cbn. nia. Qed.

Lemma single_op_draw_pruned :
  Spec.pruned_elements [(Z.pos n, u)] = k.
Proof.
  cbn [Spec.pruned_elements].
  rewrite (Qfloor_comp _ _ single_op_draw_whole), Qfloor_Z. lia.
Qed.

Lemma single_op_draw_scaled (target : Q) :
  u * Spec.scale target [(Z.pos n, u)] == target.
Proof.
  unfold Spec.scale. rewrite single_op_draw_pruned.
  cbn [Spec.total_elements]. rewrite Z.add_0_r.
  assert (Hn : ~ inject_Z (Z.pos n) == 0) by (apply inject_Z_nonzero; lia).
  assert (Hk0 : ~ inject_Z k == 0) by (apply inject_Z_nonzero; lia).
  assert (Hu : u == inject_Z k / inject_Z (Z.pos n)).
  { rewrite <- single_op_draw_whole. field. exact Hn. }
  rewrite Hu. field. split; assumption.
Qed.

Lemma single_op_rescale (target : Q) :
  Allocator._rescale_sparsity numel (sorted_Q [u]) target [name]
  = ok (Some [u * Spec.scale target [(Z.pos n, u)]]).
Proof.
  assert (Hu : 0 <= u).
  { unfold u, Qle. cbn. nia. }
  rewrite (rescale_sparsity_scaled numel (sorted_Q [u]) target [name]
             [Z.pos n]).
  - reflexivity.
  - reflexivity.
  - unfold numel, dict_get. cbn [mapM List.find fst snd].
    rewrite String.eqb_refl. reflexivity.
  - repeat constructor.
  - repeat constructor. exact Hu.
  - change (Spec.pruned_elements [(Z.pos n, u)] <> 0%Z).
    rewrite single_op_draw_pruned. lia.
Qed.

Lemma single_op_uniform (tape : Annealing.tape) :
  Annealing.uniform 0 1 1 ((k # n) :: tape) = ok ([u], tape).
Proof. reflexivity. Qed.

Lemma single_op_ops (target : Q) :
  Allocator.ops_by_numel numel (mkConfig [name] target) = [name].
Proof.
  unfold Allocator.ops_by_numel, numel.
  cbn [sorted_by insert_by op_names].
  rewrite filter_cons_True by (cbn [fst]; apply list_elem_of_here).
  reflexivity.
Qed.

Section Feasible.

Variable target : Q.
Hypothesis Htarget0 : 0 < target.
Hypothesis Htarget1 : target < 1.

Let candidate : Q := u * Spec.scale target [(Z.pos n, u)].

Lemma single_op_feasible :
  Annealing.feasible (Some [candidate]) = ok (Some [candidate]).
Proof.
  pose proof (single_op_draw_scaled target) as Hc. fold candidate in Hc.
  unfold Annealing.feasible. cbn [head last].
  assert (H0 : Qle_bool 0 candidate = true)
    by (apply Qle_bool_iff; rewrite Hc; lra).
  assert (H1 : Annealing.Qlt_bool candidate 1 = true).
  { unfold Annealing.Qlt_bool.
    destruct (Qle_bool 1 candidate) eqn:E; [|reflexivity].
    apply Qle_bool_iff in E. rewrite Hc in E. lra. }
  rewrite H0, H1. reflexivity.
Qed.

Lemma single_op_init_config_sparsity (fuel : nat) (tape : Annealing.tape) :
  Annealing._init_config_sparsity numel (S fuel) (mkConfig [name] target)
    ((k # n) :: tape)
  = ok ([mkConfig [name] candidate], [candidate], tape).
Proof.
  unfold Annealing._init_config_sparsity. cbn [total_sparsity].
  destruct (Qeq_bool target 0) eqn:E.
  { apply Qeq_bool_iff in E. lra. }
  cbn [Annealing.init_loop op_names total_sparsity length].
  rewrite single_op_uniform. cbn [bind ok].
  rewrite single_op_rescale. cbn [bind ok].
  fold candidate. rewrite single_op_feasible. cbn [bind ok].
  unfold Allocator._sparsity_to_config_list.
  rewrite single_op_ops. reflexivity.
Qed.

End Feasible.

End SingleOpEngine.

(** C1. The engine on one op of [n] remaining elements with the prior
    masked fraction [m], [0 < m < 1], and the target [t < 1], the first
    draw being [k / n]: the construction adjusts the target to
    [max(0, t - m)], and the first task is exported through
    [_init_config_sparsity] and [_recover_real_sparsity].  For [t <= m]
    the adjusted target is 0 and the exported config list is empty: the
    op gets no entry.  For [m < t] the exported sparsity of the op is
    [m + (t - m) * (1 - m) = t - m * (t - m)], which is below the
    original target [t]. *)
Theorem single_op_export_misses_target
    (float_exp : Q -> Q) (start stop cool magnitude : Q) (name : string)
    (n : positive) (k : Z) (m t : Q) (fuel : nat) (tape : Annealing.tape)
    (Hm0 : 0 < m) (Hm1 : m < 1) (Ht1 : t < 1)
    (Hk : (0 < k < Z.pos n)%Z) :
  exists (st0 st1 : Annealing.state) (task : Task) (tape' : Annealing.tape)
         (exported : list Config),
    Annealing.init start stop cool magnitude [(name, Z.pos n)]
      {[name := m]} [mkConfig [name] t] 0 = ok st0
    /\ Annealing.init_pending_tasks float_exp (S fuel) st0 ((k # n) :: tape)
       = ok ([task], st1, tape')
    /\ Annealing.writes st1
       = [Saved (CompactModelPath Origin); Saved (CompactMasksPath Origin);
          Dumped (ConfigListPath 0) exported]
    /\ (t <= m -> exported = [])
    /\ (m < t ->
        exists s : Q,
          exported = [mkConfig [name] s]
          /\ s == t - m * (t - m) /\ s < t).
Proof.
  assert (Hn : (0 < Z.pos n)%Z) by lia.
  destruct (single_op_masked_rate (Z.pos n) m Hm0 Hm1 Hn) as [_ Hrate].
  unfold Annealing.init.
  rewrite (single_op_adjust name (Z.pos n) m Hm0 Hm1 Hn t).
  cbn [bind ok].
  set (rate := (0 + 1 / (1 / m - 1) * inject_Z (Z.pos n))
               / (0 + 1 / (1 / m - 1) * inject_Z (Z.pos n)
                  + (0 + inject_Z (Z.pos n)))) in *.
  destruct (py_max_spec 0 (t - rate)) as [[Hlt ->]|[Hge ->]].
  - (* the target is above the masked fraction *)
    eexists. eexists. eexists. eexists. eexists.
    split; [reflexivity|].
    unfold Annealing.init_pending_tasks, Annealing.generate_tasks,
      Annealing._init_temp_config_list.
    cbn [Annealing.start_temperature Annealing.current_temperature
         Annealing.stop_temperature Annealing.cool_down_rate
         Annealing.perturbation_magnitude Annealing.weights_numel
         Annealing.masked_rate Annealing.target_sparsity_list
         Annealing._temp_config_list Annealing._temp_sparsity_list
         Annealing._current_sparsity_list Annealing._current_score
         Annealing._tasks Annealing._task_id_candidate Annealing.writes
         Annealing.init_groups app].
    rewrite (single_op_init_config_sparsity name n k Hk (t - rate))
      by (rewrite Hrate in *; lra).
    cbn [bind ok Annealing.init_groups app].
    unfold Annealing.emit, Annealing.set_temp.
    cbn [Annealing._temp_config_list Annealing.masked_rate].
    rewrite single_op_recover. cbn [bind ok].
    split; [reflexivity|]. cbn [Annealing.writes app].
    split; [reflexivity|]. split.
    + intros Hle. rewrite Hrate in Hlt. lra.
    + intros _. eexists. split; [reflexivity|].
      rewrite (single_op_draw_scaled n k Hk (t - rate)), Hrate.
      split; [ring|]. nra.
  - (* the target is not above it *)
    eexists. eexists. eexists. eexists. eexists.
    split; [reflexivity|].
    split; [reflexivity|]. cbn [Annealing.writes app].
    split; [reflexivity|]. split; [reflexivity|].
    intros Hlt. rewrite Hrate in Hge. lra.
Qed.

(** ** The allocator: the order of the ops *)

Lemma combine_lookup {A B} (l : list A) (k : list B) (i : nat) (a : A) (b : B) :
  combine l k !! i = Some (a, b) <-> l !! i = Some a /\ k !! i = Some b.
Proof.
  revert k i. induction l as [|x l IH]; intros [|y k] [|i]; simpl;
    try (split; [discriminate|intros [? ?]; discriminate]).
  - split; [intros [= -> ->]; auto|intros [[= ->] [= ->]]; reflexivity].
  - apply IH.
Qed.






Section OpsByNumel.

Variable numel : list (string * Z).
Variable config : Config.
Variable ws : list Z.
Hypothesis Hkeys : NoDup (map fst numel).
Hypothesis Hnames : NoDup (op_names config).
Hypothesis Hws : mapM (dict_get numel) (op_names config) = ok ws.

Let items : list (string * Z) :=
  sorted_by (fun a b => Z.leb (snd a) (snd b)) numel.



End OpsByNumel.


(** ** The function based generators: the config list *)

Lemma py_max_Qmax (a b b' : Q) : b == b' -> py_max a b == Qmax a b'.
Proof.
  intros Hb. destruct (py_max_spec a b) as [[H ->]|[H ->]].
  - rewrite Q.max_r; [exact Hb|]. rewrite <- Hb. apply Qlt_le_weak, H.
  - rewrite Q.max_l; [reflexivity|]. rewrite <- Hb. exact H.
Qed.

Lemma in_unit_interval_bool (s : Q) :
  Qle_bool 0 s && Qle_bool s 1 = true <-> 0 <= s /\ s <= 1.
Proof. rewrite andb_true_iff, !Qle_bool_iff. reflexivity. Qed.

Section WithPow.

Variable float_pow : Q -> Q -> Q.
Variables (k : Schedule.kind) (iteration total : Z).
Hypothesis Htotal : total <> 0%Z.

Lemma ori_sparsity_cumulative (T : Q) :
  exists c : Q,
    Schedule.ori_sparsity float_pow k iteration total T = ok c
    /\ c == Spec.cumulative_target float_pow k iteration total T.
Proof.
  unfold Schedule.ori_sparsity.
  rewrite py_div_ok by (apply inject_Z_nonzero; exact Htotal).
  cbn [bind ok]. destruct k; eexists; (split; [reflexivity|]);
    unfold Spec.cumulative_target; ring.
Qed.

Lemma config_entry_spec (target mo : Config) :
  ~ total_sparsity mo == 1 ->
  exists s c : Q,
    c == Spec.cumulative_target float_pow k iteration total
           (total_sparsity target)
    /\ s == Spec.incremental_sparsity c (total_sparsity mo)
    /\ Schedule.config_entry float_pow k iteration total target mo
       = if Qle_bool 0 s && Qle_bool s 1
         then ok (mkConfig (op_names target) s)
         else raise (AssertionError [s; c; total_sparsity mo]).
Proof.
  intros HA. unfold Schedule.config_entry.
  destruct (ori_sparsity_cumulative (total_sparsity target)) as (c & -> & Hc).
  cbn [bind ok]. rewrite py_div_ok by lra. cbn [bind ok].
  eexists. exists c. split; [exact Hc|]. split; [|reflexivity].
  unfold Spec.incremental_sparsity. apply py_max_Qmax. reflexivity.
Qed.

End WithPow.

(** C3. For each of the three schedules, with a total iteration number
    that is not 0 and achieved sparsities other than 1: when every
    [S = max(0, (C(i) - A) / (1 - A))] lies in [0, 1], the config list
    has one entry per group with the ops of its target and the sparsity
    [S]; and at the first group whose [S] lies outside [0, 1],
    [generate_config_list] raises an assertion error that carries [S],
    [C(i)] and [A], and returns no config. *)
Theorem generate_config_list_incremental_or_abort
    (float_pow : Q -> Q -> Q) (k : Schedule.kind) (iteration total : Z)
    (targets c2o : list Config)
    (Htotal : total <> 0%Z)
    (Hc2o : Forall (fun mo => ~ total_sparsity mo == 1) c2o) :
  let C := fun tm : Config * Config =>
    Spec.cumulative_target float_pow k iteration total
      (total_sparsity (fst tm)) in
  let S := fun tm : Config * Config =>
    Spec.incremental_sparsity (C tm) (total_sparsity (snd tm)) in
  (Forall (fun tm => 0 <= S tm /\ S tm <= 1) (combine targets c2o) ->
   exists configs : list Config,
     Schedule.generate_config_list float_pow k total targets iteration c2o
     = ok configs
     /\ Forall2 (fun entry tm =>
                   op_names entry = op_names (fst tm)
                   /\ total_sparsity entry == S tm)
                configs (combine targets c2o))
  /\ (forall (before after : list (Config * Config)) (tm : Config * Config),
        combine targets c2o = before ++ tm :: after ->
        Forall (fun tm' => 0 <= S tm' /\ S tm' <= 1) before ->
        ~ (0 <= S tm /\ S tm <= 1) ->
        exists s c : Q,
          Schedule.generate_config_list float_pow k total targets iteration c2o
          = raise (AssertionError [s; c; total_sparsity (snd tm)])
          /\ s == S tm /\ c == C tm).
Proof.
  intros C S. unfold Schedule.generate_config_list.
  assert (Hpairs : Forall (fun tm => ~ total_sparsity (snd tm) == 1)
                          (combine targets c2o)).
  { eapply Forall_impl;
      [apply (Forall_combine (fun _ : Config => True)
                (fun mo : Config => ~ total_sparsity mo == 1) targets c2o);
       [apply Forall_forall; auto|exact Hc2o]|].
    intros tm [_ H]. exact H. }
  clear Hc2o. generalize dependent (combine targets c2o). clear targets c2o.
  intros pairs Hpairs.
  assert (Hentry : forall tm, ~ total_sparsity (snd tm) == 1 ->
    exists s c, c == C tm /\ s == S tm
      /\ Schedule.config_entry float_pow k iteration total (fst tm) (snd tm)
         = if Qle_bool 0 s && Qle_bool s 1
           then ok (mkConfig (op_names (fst tm)) s)
           else raise (AssertionError [s; c; total_sparsity (snd tm)])).
  { intros tm HA.
    destruct (config_entry_spec float_pow k iteration total Htotal
                (fst tm) (snd tm) HA) as (s & c & Hc & Hs & E).
    exists s, c. split; [exact Hc|]. split; [|exact E].
    rewrite Hs. unfold S, C, Spec.incremental_sparsity. now rewrite Hc. }
  split.
  - induction 1 as [|tm pairs [H0 H1] Hall IH]; cbn [mapM].
    + exists []. split; [reflexivity|constructor].
    + apply Forall_cons in Hpairs as [HA Hpairs].
      destruct (Hentry tm HA) as (s & c & Hc & Hs & ->).
      assert (Hin : Qle_bool 0 s && Qle_bool s 1 = true)
        by (apply in_unit_interval_bool; rewrite Hs; auto).
      rewrite Hin. cbn [bind ok].
      destruct (IH Hpairs) as (configs & -> & Hconfigs).
      eexists. split; [reflexivity|]. constructor; [|exact Hconfigs].
      split; [reflexivity|exact Hs].
  - intros before after tm -> Hbefore Hout.
    induction Hbefore as [|tm' before [H0 H1] Hall IH]; cbn [mapM app].
    + apply Forall_cons in Hpairs as [HA _].
      destruct (Hentry tm HA) as (s & c & Hc & Hs & ->).
      destruct (Qle_bool 0 s && Qle_bool s 1) eqn:Hin.
      * exfalso. apply Hout. apply in_unit_interval_bool in Hin.
        rewrite <- Hs. exact Hin.
      * exists s, c. auto.
    + cbn [app] in Hpairs. apply Forall_cons in Hpairs as [HA Hpairs].
      destruct (Hentry tm' HA) as (s & c & Hc & Hs & ->).
      assert (Hin : Qle_bool 0 s && Qle_bool s 1 = true)
        by (apply in_unit_interval_bool; rewrite Hs; auto).
      rewrite Hin. cbn [bind ok].
      destruct (IH Hpairs) as (s' & c' & -> & Hs' & Hc').
      exists s', c'. auto.
Qed.

(** AGP with the target 0.5 and 10 iterations, at iteration 5 with the
    achieved sparsity 0.2: the cumulative target is 0.4375 and the
    sparsity of the entry is 0.296875. *)
Example agp_halfway :
  exists s : Q,
    Schedule.generate_config_list (fun _ _ => 0) Schedule.AGP 10
      [mkConfig ["a"%string] (1 # 2)] 5 [mkConfig ["a"%string] (1 # 5)]
    = ok [mkConfig ["a"%string] s]
    /\ s == 19 # 64
    /\ Spec.cumulative_target (fun _ _ => 0) Schedule.AGP 5 10 (1 # 2)
       == 7 # 16.
Proof.
  eexists. split; [vm_compute; reflexivity|]. split; reflexivity.
Qed.

(** An achieved sparsity above 1 puts the quotient above 1: the
    generator raises, with the three values of its message. *)
Example linear_aborts :
  exists s c : Q,
    Schedule.generate_config_list (fun _ _ => 0) Schedule.Linear 10
      [mkConfig ["a"%string] (1 # 2)] 5 [mkConfig ["a"%string] 2]
    = raise (AssertionError [s; c; 2])
    /\ s == 7 # 4 /\ c == 1 # 4.
Proof.
  eexists. eexists. split; [vm_compute; reflexivity|]. split; reflexivity.
Qed.

(** ** The function based generators: one task per iteration *)

Section FunctionBased.

Variable float_pow : Q -> Q -> Q.
Variable k : Schedule.kind.

(** What one call that returns does. *)
Lemma generate_tasks_step (st st' : Schedule.state) (r : TaskResult)
    (tasks : list Task) :
  Schedule.generate_tasks float_pow k st r = ok (tasks, st') ->
  Schedule.total_iteration st' = Schedule.total_iteration st
  /\ Schedule.target_sparsity st' = Schedule.target_sparsity st
  /\ (exists more, Schedule.writes st' = Schedule.writes st ++ more)
  /\ (((Schedule.total_iteration st < Schedule.current_iteration st)%Z
       /\ tasks = []
       /\ Schedule.current_iteration st' = Schedule.current_iteration st)
      \/ ((Schedule.current_iteration st <= Schedule.total_iteration st)%Z
          /\ Schedule.current_iteration st'
             = (Schedule.current_iteration st + 1)%Z
          /\ exists (task : Task) (configs : list Config),
               tasks = [task]
               /\ Schedule.generate_config_list float_pow k
                    (Schedule.total_iteration st) (Schedule.target_sparsity st)
                    (Schedule.current_iteration st) (compact2origin r)
                  = ok configs
               /\ Dumped (config_list_path task) configs
                  ∈ Schedule.writes st')).
Proof.
  unfold Schedule.generate_tasks.
  destruct (match result_task_id r with
            | Origin => ok (Schedule._tasks st)
            | Tid n => _
            end) as [e|tasks1]; cbn [bind]; [discriminate|].
  destruct (Z.ltb_spec (Schedule.total_iteration st)
                       (Schedule.current_iteration st)) as [Hlt|Hle].
  - intros [= <- <-]. cbn.
    split; [reflexivity|]. split; [reflexivity|].
    split; [eexists; reflexivity|]. left. auto.
  - destruct (Schedule.generate_config_list _ _ _ _ _ _) as [e|configs] eqn:Hg;
      cbn [bind]; [discriminate|].
    intros [= <- <-]. cbn.
    split; [reflexivity|]. split; [reflexivity|].
    split; [rewrite <- app_assoc; eexists; reflexivity|].
    right. split; [exact Hle|]. split; [reflexivity|].
    eexists. exists configs. split; [reflexivity|]. split; [reflexivity|].
    cbn. apply elem_of_app. right. left.
Qed.

(** A call returns when the task of the result is known and the config
    list, if one is due, is generated. *)
Lemma generate_tasks_returns (st : Schedule.state) (r : TaskResult) :
  (result_task_id r = Origin
   \/ exists n, result_task_id r = Tid n /\ is_Some (Schedule._tasks st !! n)) ->
  ((Schedule.total_iteration st < Schedule.current_iteration st)%Z
   \/ is_Some (match Schedule.generate_config_list float_pow k
                       (Schedule.total_iteration st)
                       (Schedule.target_sparsity st)
                       (Schedule.current_iteration st) (compact2origin r)
               with inr configs => Some configs | inl _ => None end)) ->
  exists tasks st', Schedule.generate_tasks float_pow k st r = ok (tasks, st').
Proof.
  intros Hknown Hgen. unfold Schedule.generate_tasks.
  assert (exists tasks1,
    match result_task_id r with
    | Origin => ok (Schedule._tasks st)
    | Tid n =>
        match Schedule._tasks st !! n with
        | Some t => ok (<[n := set_current2origin t (current2origin r)]>
                          (Schedule._tasks st))
        | None => raise KeyError
        end
    end = ok tasks1) as [tasks1 ->].
  { destruct Hknown as [->|(n & -> & [t ->])]; eexists; reflexivity. }
  cbn [bind ok].
  destruct (Z.ltb_spec (Schedule.total_iteration st)
                       (Schedule.current_iteration st)) as [Hlt|Hle].
  - eexists. eexists. reflexivity.
  - destruct Hgen as [Hlt|Hgen]; [lia|].
    destruct (Schedule.generate_config_list _ _ _ _ _ _) as [e|configs];
      [destruct Hgen; discriminate|].
    cbn [bind ok]. eexists. eexists. reflexivity.
Qed.

Lemma run_spec (rs : list TaskResult) :
  forall (st st' : Schedule.state) (outs : list (list Task)),
  Schedule.run float_pow k st rs = ok (outs, st') ->
  length outs = length rs
  /\ Schedule.total_iteration st' = Schedule.total_iteration st
  /\ Schedule.target_sparsity st' = Schedule.target_sparsity st
  /\ (exists more, Schedule.writes st' = Schedule.writes st ++ more)
  /\ forall (j : nat) (r : TaskResult) (tasks : list Task),
       rs !! j = Some r -> outs !! j = Some tasks ->
       let iteration := (Schedule.current_iteration st + Z.of_nat j)%Z in
       ((Schedule.total_iteration st < iteration)%Z -> tasks = [])
       /\ ((iteration <= Schedule.total_iteration st)%Z ->
           exists (task : Task) (configs : list Config),
             tasks = [task]
             /\ Schedule.generate_config_list float_pow k
                  (Schedule.total_iteration st) (Schedule.target_sparsity st)
                  iteration (compact2origin r) = ok configs
             /\ Dumped (config_list_path task) configs ∈ Schedule.writes st').
Proof.
  induction rs as [|r0 rs IH]; intros st st' outs; cbn [Schedule.run].
  - intros [= <- <-]. split; [reflexivity|]. split; [reflexivity|].
    split; [reflexivity|]. split; [exists []; now rewrite app_nil_r|].
    intros j r tasks Hj. discriminate.
  - destruct (Schedule.generate_tasks float_pow k st r0) as [e|[tasks0 st1]]
      eqn:Hstep; cbn [bind]; [discriminate|].
    destruct (Schedule.run float_pow k st1 rs) as [e|[rest st2]] eqn:Hrun;
      cbn [bind]; [discriminate|].
    intros [= <- <-].
    apply generate_tasks_step in Hstep as (Htot & Htar & [m1 Hw1] & Hcase).
    apply IH in Hrun as (Hlen & Htot' & Htar' & [m2 Hw2] & Hrest).
    split; [cbn; congruence|]. split; [congruence|]. split; [congruence|].
    split; [exists (m1 ++ m2); rewrite Hw2, Hw1, app_assoc; reflexivity|].
    intros [|j] r tasks Hr Ht; cbn in Hr, Ht.
    + injection Hr as <-. injection Ht as <-. cbv zeta.
      rewrite Z.add_0_r.
      destruct Hcase as [(Hlt & -> & _)|(Hle & _ & task & configs & -> & Hg & Hd)].
      * split; [reflexivity|]. intros; lia.
      * split; [intros; lia|]. intros _. exists task, configs.
        split; [reflexivity|]. split; [exact Hg|].
        rewrite Hw2. apply elem_of_app. left. exact Hd.
    + specialize (Hrest j r tasks Hr Ht). cbv zeta in Hrest |- *.
      rewrite Htot, Htar in Hrest.
      destruct Hcase as [(Hlt & _ & Hcur)|(Hle & Hcur & _)];
        rewrite Hcur in Hrest.
      * destruct Hrest as [Hempty _]. split; [intros _; apply Hempty; lia|].
        intros; lia.
      * replace (Schedule.current_iteration st + 1 + Z.of_nat j)%Z
          with (Schedule.current_iteration st + Z.of_nat (S j))%Z in Hrest
          by lia.
        exact Hrest.
Qed.

End FunctionBased.

(** C4. A call of [generate_tasks] that returns gives the empty list
    exactly when the iteration counter exceeds [total_iteration], and a
    single task otherwise.  The counter starts at 0 for AGP and Linear
    and at 1 for LotteryTicket, and in a run of calls that all return,
    the call number [j] (from 0) gives one task, whose config list is
    the one generated for the iteration [start + j], as long as
    [start + j <= total_iteration], and the empty list afterwards: the
    tasks are those of the iterations 0..N for AGP and Linear and 1..N
    for LotteryTicket. *)
Theorem one_task_per_iteration_until_total
    (float_pow : Q -> Q -> Q) (k : Schedule.kind) (N first_id : Z)
    (targets : list Config) (rs : list TaskResult)
    (outs : list (list Task)) (final : Schedule.state)
    (Hrun : Schedule.run float_pow k (Schedule.init k N targets first_id) rs
            = ok (outs, final)) :
  let start := match k with Schedule.LotteryTicket => 1%Z | _ => 0%Z end in
  Schedule.current_iteration (Schedule.init k N targets first_id) = start
  /\ (forall (st st' : Schedule.state) (r : TaskResult) (tasks : list Task),
        Schedule.generate_tasks float_pow k st r = ok (tasks, st') ->
        (tasks = [] <->
         (Schedule.total_iteration st < Schedule.current_iteration st)%Z)
        /\ ((Schedule.current_iteration st <= Schedule.total_iteration st)%Z ->
            length tasks = 1%nat))
  /\ length outs = length rs
  /\ forall (j : nat) (r : TaskResult) (tasks : list Task),
       rs !! j = Some r -> outs !! j = Some tasks ->
       ((N < start + Z.of_nat j)%Z -> tasks = [])
       /\ ((start + Z.of_nat j <= N)%Z ->
           exists (task : Task) (configs : list Config),
             tasks = [task]
             /\ Schedule.generate_config_list float_pow k N targets
                  (start + Z.of_nat j) (compact2origin r) = ok configs
             /\ Dumped (config_list_path task) configs
                ∈ Schedule.writes final).
Proof.
  intros start. split; [destruct k; reflexivity|]. split.
  { intros st st' r tasks Hstep.
    apply generate_tasks_step in Hstep
      as (_ & _ & _ & [(Hlt & -> & _)|(Hle & _ & task & configs & -> & _)]).
    - split; [tauto|]. intros; lia.
    - split; [|reflexivity]. split; [discriminate|lia]. }
  apply run_spec in Hrun as (Hlen & _ & _ & _ & Hrest).
  split; [exact Hlen|].
  intros j r tasks Hr Ht. specialize (Hrest j r tasks Hr Ht).
  cbv zeta in Hrest.
  replace (Schedule.current_iteration (Schedule.init k N targets first_id))
    with start in Hrest by (destruct k; reflexivity).
  exact Hrest.
Qed.

(** ** The annealing engine: acceptance *)

Lemma Qlt_bool_iff (a b : Q) : Annealing.Qlt_bool a b = true <-> a < b.
Proof.
  unfold Annealing.Qlt_bool. rewrite negb_true_iff.
  split.
  - intros H. apply Qnot_le_lt. intros Hle.
    apply Qle_bool_iff in Hle. congruence.
  - intros H. destruct (Qle_bool b a) eqn:E; [|reflexivity].
    apply Qle_bool_iff in E. lra.
Qed.

Lemma same_search_refl (st : Annealing.state) : Spec.same_search st st.
Proof. repeat split. Qed.

Lemma same_search_trans (st1 st2 st3 : Annealing.state) :
  Spec.same_search st1 st2 -> Spec.same_search st2 st3 ->
  Spec.same_search st1 st3.
Proof.
  unfold Spec.same_search. intros H1 H2.
  decompose [and] H1. decompose [and] H2. repeat split; congruence.
Qed.

Lemma update_with_perturbations_same (fuel : nat) (st st' : Annealing.state)
    (t t' : Annealing.tape) :
  Annealing._update_with_perturbations fuel st t = ok (st', t') ->
  Spec.same_search st st'
  /\ Annealing._tasks st' = Annealing._tasks st
  /\ is_Some (Annealing._temp_config_list st').
Proof.
  unfold Annealing._update_with_perturbations.
  destruct (py_div _ _) as [e|ratio]; cbn [bind]; [discriminate|].
  destruct (Annealing._current_sparsity_list st) as [current|];
    [|discriminate].
  destruct (Annealing.perturb_groups _ _ _ _ _) as [e|[[configs sps] t1]];
    cbn [bind]; [discriminate|].
  intros [= <- <-]. split; [repeat split|]. split; [reflexivity|].
  cbn. eauto.
Qed.

Lemma emit_same (st st' : Annealing.state) (tasks : list Task) :
  Annealing.emit st = ok (tasks, st') ->
  Spec.same_search st st'
  /\ Annealing._temp_config_list st' = Annealing._temp_config_list st
  /\ Annealing._temp_sparsity_list st' = Annealing._temp_sparsity_list st
  /\ length tasks = 1%nat.
Proof.
  unfold Annealing.emit.
  destruct (Annealing._temp_config_list st) as [configs|] eqn:E;
    [|discriminate].
  destruct (Allocator._recover_real_sparsity _ _) as [e|exported];
    cbn [bind]; [discriminate|].
  intros [= <- <-]. split; [repeat split|]. cbn. auto.
Qed.

Section Acceptance.

Variable float_exp : Q -> Q.

(** A call on a state with a candidate, taken apart. *)
Lemma generate_tasks_with_candidate (fuel : nat) (st st' : Annealing.state)
    (r : TaskResult) (t t' : Annealing.tape) (tasks : list Task) :
  is_Some (Annealing._temp_config_list st) ->
  Annealing.generate_tasks float_exp fuel st r t = ok (tasks, st', t') ->
  exists (new_score : option Q) (st1 : Annealing.state),
    Annealing.task_score st r = ok new_score
    /\ ((Annealing.current_temperature st1 < Annealing.stop_temperature st1
         /\ Annealing.acceptance float_exp st new_score t = ok (st', t')
         /\ st1 = st' /\ tasks = [])
        \/ (~ Annealing.current_temperature st1
              < Annealing.stop_temperature st1
            /\ (exists t1, Annealing.acceptance float_exp st new_score t
                           = ok (st1, t1))
            /\ Spec.same_search st1 st' /\ length tasks = 1%nat)).
Proof.
  intros [configs Hc]. unfold Annealing.generate_tasks. rewrite Hc.
  destruct (Annealing.task_score st r) as [e|new_score]; cbn [bind];
    [discriminate|].
  destruct (Annealing.acceptance float_exp st new_score t) as [e|[st1 t1]]
    eqn:Hacc; cbn [bind]; [discriminate|].
  destruct (Annealing.Qlt_bool _ _) eqn:Hstop.
  - intros [= <- <- <-]. exists new_score, st1. split; [reflexivity|].
    left. apply Qlt_bool_iff in Hstop. auto.
  - destruct (Annealing._update_with_perturbations fuel st1 t1)
      as [e|[st2 t2]] eqn:Hupd; cbn [bind]; [discriminate|].
    destruct (Annealing.emit st2) as [e|[tasks' st3]] eqn:Hemit; cbn [bind];
      [discriminate|].
    intros [= <- <- <-]. exists new_score, st1. split; [reflexivity|].
    right.
    split; [intros H; apply Qlt_bool_iff in H; congruence|].
    split; [eauto|].
    apply update_with_perturbations_same in Hupd as (Hsame & _).
    apply emit_same in Hemit as (Hsame' & _ & _ & Hlen).
    split; [eapply same_search_trans; eassumption|exact Hlen].
Qed.

End Acceptance.

(** C5. When there is a current score and the score of the candidate is
    strictly greater, the acceptance step adopts the candidate, whatever
    the tape of random draws is, and draws nothing from it: the current
    score is the new score, the current assignment is the candidate, and
    the temperature is multiplied by [cool_down_rate]; and so it is
    after every call of [generate_tasks] that returns from such a
    state. *)
Theorem strict_improvement_is_accepted
    (float_exp : Q -> Q) (st : Annealing.state) (s current : Q)
    (assignment : list (list Q))
    (Hassignment : Annealing._current_sparsity_list st = Some assignment)
    (Hcurrent : Annealing._current_score st = Some current)
    (Hbetter : current < s) :
  forall t : Annealing.tape,
    (exists st1 : Annealing.state,
       Annealing.acceptance float_exp st (Some s) t = ok (st1, t)
       /\ Spec.adopted st st1 s
       /\ Annealing.current_temperature st1
          = Annealing.current_temperature st * Annealing.cool_down_rate st)
    /\ forall (fuel : nat) (r : TaskResult) (tasks : list Task)
              (st' : Annealing.state) (t' : Annealing.tape),
         is_Some (Annealing._temp_config_list st) ->
         Annealing.task_score st r = ok (Some s) ->
         Annealing.generate_tasks float_exp fuel st r t = ok (tasks, st', t') ->
         Spec.adopted st st' s
         /\ Annealing.current_temperature st'
            = Annealing.current_temperature st * Annealing.cool_down_rate st.
Proof.
  intros t.
  assert (Hacc : Annealing.acceptance float_exp st (Some s) t
    = ok (Annealing.set_current st (Some s)
            (Annealing.current_temperature st * Annealing.cool_down_rate st),
          t)).
  { unfold Annealing.acceptance. rewrite Hassignment, Hcurrent.
    apply Qlt_bool_iff in Hbetter. now rewrite Hbetter. }
  split.
  - eexists. split; [exact Hacc|]. split; [split|]; reflexivity.
  - intros fuel r tasks st' t' Hcand Hscore Hcall.
    apply generate_tasks_with_candidate in Hcall
      as (new_score & st1 & Hscore' & Hcase); [|exact Hcand].
    rewrite Hscore in Hscore'. injection Hscore' as <-.
    rewrite Hacc in Hcase.
    destruct Hcase as [(_ & [= <- <-] & _)|(_ & [t1 [= <- <-]] & Hsame & _)].
    + split; [split|]; reflexivity.
    + unfold Spec.same_search in Hsame. decompose [and] Hsame. clear Hsame.
      unfold Spec.adopted. cbn in *. split; [split|]; congruence.
Qed.

(** ** The annealing engine: temperature *)

Section Temperature.

Variable float_exp : Q -> Q.

Lemma uniform_one_draw (t : Annealing.tape) (us : list Q) (t' : Annealing.tape) :
  Annealing.uniform 0 1 1 t = ok (us, t') ->
  exists u, t = u :: t' /\ us = [0 + (1 - 0) * u].
Proof.
  unfold Annealing.uniform. cbn [Annealing.draws].
  destruct t as [|u t0]; cbn [bind]; [discriminate|].
  intros [= <- <-]. eauto.
Qed.

(** The three ways in which the acceptance step returns. *)
Lemma acceptance_cases (st st1 : Annealing.state) (s : Q)
    (t t1 : Annealing.tape) :
  Annealing.acceptance float_exp st (Some s) t = ok (st1, t1) ->
  (Spec.accepted_by_rule float_exp st s t
   /\ st1 = Annealing.set_current st (Some s)
              (Annealing.current_temperature st * Annealing.cool_down_rate st))
  \/ (~ Spec.accepted_by_rule float_exp st s t
      /\ Annealing._current_sparsity_list st = None
      /\ st1 = Annealing.set_current st (Some s)
                 (Annealing.current_temperature st))
  \/ (~ Spec.accepted_by_rule float_exp st s t
      /\ is_Some (Annealing._current_sparsity_list st)
      /\ is_Some (Annealing._current_score st)
      /\ st1 = st).
Proof.
  unfold Annealing.acceptance, Spec.accepted_by_rule.
  destruct (Annealing._current_sparsity_list st) as [assignment|] eqn:Ha.
  - destruct (Annealing._current_score st) as [current|] eqn:Hc;
      [|discriminate].
    destruct (Annealing.Qlt_bool current s) eqn:Hbetter.
    + intros [= <- <-]. left. split; [|reflexivity].
      exists current. apply Qlt_bool_iff in Hbetter. eauto.
    + destruct (Annealing.uniform 0 1 1 t) as [e|[us t']] eqn:Hu;
        cbn [bind]; [discriminate|].
      apply uniform_one_draw in Hu as (u & -> & ->).
      assert (Hu : 0 + (1 - 0) * u == u) by ring.
      cbv iota.
      destruct (Annealing.Qlt_bool (0 + (1 - 0) * u) _) eqn:Hdraw;
        intros [= <- <-].
      * left. split; [|reflexivity]. exists current.
        split; [reflexivity|]. split; [eauto|]. right.
        exists u, t'. split; [reflexivity|].
        apply Qlt_bool_iff in Hdraw. rewrite <- Hu. exact Hdraw.
      * right. right. split; [|eauto].
        intros (current' & [= <-] & _ & [Hlt|(u' & t0 & [= <- <-] & Hlt)]).
        -- apply Qlt_bool_iff in Hlt. congruence.
        -- rewrite <- Hu in Hlt. apply Qlt_bool_iff in Hlt. congruence.
  - intros [= <- <-]. right. left. split; [|auto].
    intros (current & _ & [x Hx] & _). discriminate.
Qed.

Lemma task_score_stored (st : Annealing.state) (r : TaskResult) (n : Z)
    (new_score : option Q) :
  result_task_id r = Tid n -> is_Some (Annealing._tasks st !! n) ->
  Annealing.task_score (Annealing.store_score st r new_score) r
  = ok new_score.
Proof.
  intros Hr [task Htask]. unfold Annealing.task_score, Annealing.store_score.
  rewrite Hr. cbn. rewrite lookup_alter_eq, Htask. reflexivity.
Qed.

Lemma stopped_store_score (st : Annealing.state) (r : TaskResult)
    (new_score : option Q) :
  Spec.stopped st -> Spec.stopped (Annealing.store_score st r new_score).
Proof.
  unfold Annealing.store_score. destruct (result_task_id r); auto.
Qed.

Lemma scored_store_score (st : Annealing.state) (r : TaskResult)
    (new_score : option Q) (f : TaskResult * option Q) :
  Spec.scored st f -> Spec.scored (Annealing.store_score st r new_score) f.
Proof.
  intros (n & s & Hn & Htask & Hs). exists n, s.
  split; [exact Hn|]. split; [|exact Hs].
  unfold Annealing.store_score. destruct (result_task_id r) as [|n'];
    [exact Htask|].
  cbn. destruct (decide (n' = n)) as [->|Hne].
  - rewrite lookup_alter_eq. destruct Htask as [x ->]. cbn. eauto.
  - rewrite lookup_alter_ne by exact Hne. exact Htask.
Qed.

(** A call on a stopped engine returns the empty list and leaves the
    engine stopped. *)
Lemma stopped_call (fuel : nat) (st : Annealing.state) (r : TaskResult)
    (s : Q) (t : Annealing.tape) :
  Spec.stopped st ->
  Annealing.task_score st r = ok (Some s) ->
  t <> [] ->
  exists (st' : Annealing.state) (t' : Annealing.tape),
    Annealing.generate_tasks float_exp fuel st r t = ok ([], st', t')
    /\ Spec.stopped st'
    /\ Annealing._tasks st' = Annealing._tasks st
    /\ (length t <= S (length t'))%nat.
Proof.
  intros ([configs Hc] & [assignment Ha] & [current Hcur] & H0 & Hstop
          & Hcool0 & Hcool1) Hscore Ht.
  assert (Hacc : exists st1 t1,
    Annealing.acceptance float_exp st (Some s) t = ok (st1, t1)
    /\ (length t <= S (length t1))%nat).
  { unfold Annealing.acceptance. rewrite Ha, Hcur.
    destruct (Annealing.Qlt_bool current s); [eauto|].
    destruct t as [|u t0]; [congruence|].
    unfold Annealing.uniform. cbn [Annealing.draws bind ok map].
    destruct (Annealing.Qlt_bool _ _); eauto. }
  destruct Hacc as (st1 & t1 & Hacc & Hlen).
  assert (Hst1 : Spec.stopped st1 /\ Annealing._tasks st1 = Annealing._tasks st).
  { destruct (acceptance_cases _ _ _ _ _ Hacc)
      as [(_ & ->)|[(_ & Hnone & _)|(_ & _ & _ & ->)]].
    - split; [|reflexivity]. unfold Spec.stopped. cbn. rewrite Hc.
      repeat split; eauto; nra.
    - congruence.
    - split; [|reflexivity]. unfold Spec.stopped. rewrite Hc, Ha, Hcur.
      repeat split; eauto. }
  destruct Hst1 as [Hst1 Htasks].
  exists st1, t1. split; [|auto].
  unfold Annealing.generate_tasks. rewrite Hc, Hscore. cbn [bind ok].
  rewrite Hacc. cbn [bind ok].
  destruct Hst1 as (_ & _ & _ & _ & Hstop1 & _).
  apply Qlt_bool_iff in Hstop1. now rewrite Hstop1.
Qed.

Lemma stopped_run (fuel : nat) (feedback : list (TaskResult * option Q)) :
  forall (st : Annealing.state) (t : Annealing.tape),
  Spec.stopped st ->
  Forall (Spec.scored st) feedback ->
  (length feedback <= length t)%nat ->
  exists (outs : list (list Task)) (st' : Annealing.state)
         (t' : Annealing.tape),
    Annealing.run float_exp fuel st feedback t = ok (outs, st', t')
    /\ Forall (eq []) outs.
Proof.
  induction feedback as [|[r new_score] feedback IH]; intros st t Hst Hf Hlen.
  - exists [], st, t. split; [reflexivity|constructor].
  - apply Forall_cons in Hf as [(n & s & Hn & Htask & Hs) Hf].
    cbn [fst snd] in Hn, Hs. subst new_score.
    cbn [length] in Hlen.
    destruct (stopped_call fuel (Annealing.store_score st r (Some s)) r s t)
      as (st1 & t1 & Hcall & Hst1 & Htasks & Ht1).
    + apply stopped_store_score, Hst.
    + eapply task_score_stored; eassumption.
    + destruct t; cbn in Hlen; [lia|congruence].
    + destruct (IH st1 t1 Hst1) as (outs & st2 & t2 & Hrun & Houts).
      * eapply Forall_impl; [exact Hf|]. intros f Hscored.
        apply (scored_store_score st r (Some s)) in Hscored.
        destruct Hscored as (n' & s' & Hn' & Htask' & Hs').
        exists n', s'. rewrite Htasks. auto.
      * lia.
      * exists ([] :: outs), st2, t2. split; [|constructor; auto].
        cbn [Annealing.run]. rewrite Hcall. cbn [bind ok]. rewrite Hrun.
        reflexivity.
Qed.

End Temperature.

(** C6, as amended. With [0 < cool_down_rate <= 1] and a temperature
    that is not negative, in a call that scores a pending candidate the
    temperature is multiplied by [cool_down_rate] exactly when the
    acceptance rule accepts (there is a current score, and the new score
    is strictly better or the draw is below the acceptance probability),
    and it is unchanged otherwise, on a rejected step as on the first
    score, whose candidate is adopted without a test; so it does not
    increase.  When the temperature is then below [stop_temperature],
    the call returns the empty list, and so does every later call. *)
Theorem temperature_cools_when_the_rule_accepts
    (float_exp : Q -> Q) (st st1 : Annealing.state) (r : TaskResult) (s : Q)
    (t t1 : Annealing.tape)
    (Hcool0 : 0 < Annealing.cool_down_rate st)
    (Hcool1 : Annealing.cool_down_rate st <= 1)
    (Htemp : 0 <= Annealing.current_temperature st)
    (Hcand : is_Some (Annealing._temp_config_list st))
    (Hscore : Annealing.task_score st r = ok (Some s))
    (Hacc : Annealing.acceptance float_exp st (Some s) t = ok (st1, t1)) :
  (Spec.accepted_by_rule float_exp st s t ->
   Annealing.current_temperature st1
   = Annealing.current_temperature st * Annealing.cool_down_rate st
   /\ Spec.adopted st st1 s)
  /\ (~ Spec.accepted_by_rule float_exp st s t ->
      Annealing.current_temperature st1 = Annealing.current_temperature st)
  /\ Annealing.current_temperature st1 <= Annealing.current_temperature st
  /\ 0 <= Annealing.current_temperature st1
  /\ (forall (fuel : nat) (tasks : list Task) (st' : Annealing.state)
             (t' : Annealing.tape),
        Annealing.generate_tasks float_exp fuel st r t = ok (tasks, st', t') ->
        Annealing.current_temperature st' = Annealing.current_temperature st1
        /\ (tasks = [] <->
            Annealing.current_temperature st1 < Annealing.stop_temperature st))
  /\ (Annealing.current_temperature st1 < Annealing.stop_temperature st ->
      (forall fuel : nat,
         Annealing.generate_tasks float_exp fuel st r t = ok ([], st1, t1))
      /\ forall (fuel : nat) (feedback : list (TaskResult * option Q))
                (t2 : Annealing.tape),
           Forall (Spec.scored st1) feedback ->
           (length feedback <= length t2)%nat ->
           exists (outs : list (list Task)) (st2 : Annealing.state)
                  (t3 : Annealing.tape),
             Annealing.run float_exp fuel st1 feedback t2 = ok (outs, st2, t3)
             /\ Forall (eq []) outs).
Proof.
  pose proof (acceptance_cases float_exp st st1 s t t1 Hacc) as Hcases.
  assert (Hfields :
    Annealing.stop_temperature st1 = Annealing.stop_temperature st
    /\ Annealing.cool_down_rate st1 = Annealing.cool_down_rate st
    /\ Annealing._temp_config_list st1 = Annealing._temp_config_list st
    /\ (is_Some (Annealing._current_sparsity_list st1)
        /\ is_Some (Annealing._current_score st1))).
  { destruct Hcases as [(_ & ->)|[(_ & _ & ->)|(_ & Ha & Hc & ->)]];
      cbn; eauto 10. }
  destruct Hfields as (Hstop & Hcool & Hconfigs & Hlist & Hcur).
  assert (Hrule : Spec.accepted_by_rule float_exp st s t ->
    Annealing.current_temperature st1
    = Annealing.current_temperature st * Annealing.cool_down_rate st
    /\ Spec.adopted st st1 s).
  { intros Hyes.
    destruct Hcases as [(_ & ->)|[(Hno & _)|(Hno & _)]]; try contradiction.
    split; [|split]; reflexivity. }
  assert (Hother : ~ Spec.accepted_by_rule float_exp st s t ->
    Annealing.current_temperature st1 = Annealing.current_temperature st).
  { intros Hno.
    destruct Hcases as [(Hyes & _)|[(_ & _ & ->)|(_ & _ & _ & ->)]];
      [contradiction| |]; reflexivity. }
  assert (Hrange :
    Annealing.current_temperature st1 <= Annealing.current_temperature st
    /\ 0 <= Annealing.current_temperature st1).
  { destruct Hcases as [(_ & ->)|[(_ & _ & ->)|(_ & _ & _ & ->)]];
      cbn; split; try lra; nra. }
  split; [exact Hrule|]. split; [exact Hother|].
  split; [apply Hrange|]. split; [apply Hrange|]. split.
  { intros fuel tasks st' t' Hcall.
    apply generate_tasks_with_candidate in Hcall
      as (new_score & st1' & Hscore' & Hcase); [|exact Hcand].
    rewrite Hscore in Hscore'. injection Hscore' as <-.
    rewrite Hacc in Hcase. rewrite <- Hstop.
    destruct Hcase as [(Hlt & [= <- <-] & -> & ->)
                      |(Hge & [t1' [= <- <-]] & Hsame & Hlen)].
    - split; [reflexivity|]. tauto.
    - split; [apply Hsame|]. split; [|tauto].
      intros ->. discriminate. }
  intros Hbelow. split.
  { intros fuel. unfold Annealing.generate_tasks.
    destruct Hcand as [configs ->]. rewrite Hscore. cbn [bind ok].
    rewrite Hacc. cbn [bind ok]. rewrite <- Hstop in Hbelow.
    apply Qlt_bool_iff in Hbelow. now rewrite Hbelow. }
  intros fuel feedback t2 Hfeedback Hlen.
  apply stopped_run; [|exact Hfeedback|exact Hlen].
  unfold Spec.stopped. rewrite Hconfigs, Hstop, Hcool.
  repeat split; try assumption; apply Hrange.
Qed.

(** C6, the counterexample.  On the default engine, the call that
    brings the first score adopts the candidate and leaves the
    temperature at 100, although the cool down rate is 0.9; an engine
    started at 10, under the stop temperature 20, still returns a task
    from its first call; and at the temperature -10 an accepted step
    raises the temperature to -5. *)
Lemma temperature_counterexample :
  (exists (st0 st1 st2 : Annealing.state) (first second : Task),
     Scenario.default = ok st0
     /\ Annealing.generate_tasks Scenario.half 1 st0 Scenario.origin [1 # 2]
        = ok ([first], st1, [])
     /\ Annealing.generate_tasks Scenario.half 1
          (Annealing.store_score st1 (Scenario.result_of 0) (Some 1))
          (Scenario.result_of 0) [1 # 2]
        = ok ([second], st2, [])
     /\ Spec.adopted st1 st2 1
     /\ Annealing.cool_down_rate st1 = 9 # 10
     /\ Annealing.current_temperature st1 = 100
     /\ Annealing.current_temperature st2 = 100)
  /\ (exists (st0 st1 : Annealing.state) (first : Task),
        Scenario.cold = ok st0
        /\ Annealing.current_temperature st0 < Annealing.stop_temperature st0
        /\ Annealing.generate_tasks Scenario.half 1 st0 Scenario.origin [1 # 2]
           = ok ([first], st1, []))
  /\ (exists st1 : Annealing.state,
        Annealing.acceptance Scenario.half Scenario.negative (Some 1) []
        = ok (st1, [])
        /\ Spec.adopted Scenario.negative st1 1
        /\ Annealing.current_temperature st1 == -5
        /\ Annealing.current_temperature Scenario.negative
           < Annealing.current_temperature st1).
Proof.
  split; [|split].
  - do 5 eexists. split; [vm_compute; reflexivity|].
    split; [vm_compute; reflexivity|].
    split; [vm_compute; reflexivity|].
    split; [split; vm_compute; reflexivity|].
    repeat split.
  - do 3 eexists. split; [vm_compute; reflexivity|].
    split; [vm_compute; reflexivity|]. vm_compute. reflexivity.
  - eexists. split; [vm_compute; reflexivity|].
    split; [split; reflexivity|]. split; vm_compute; reflexivity.
Qed.

(** ** The annealing engine: groups whose target is 0 *)

Lemma sparsity_to_config_list_ops (numel : list (string * Z))
    (sparsity : list Q) (config : Config) (entries : list Config) :
  Allocator._sparsity_to_config_list numel sparsity config = ok entries ->
  Forall (fun entry => exists n, op_names entry = [n] /\ n ∈ op_names config)
         entries.
Proof.
  unfold Allocator._sparsity_to_config_list.
  destruct (negb _); [discriminate|]. intros [= <-].
  apply Forall_forall. intros entry Hentry.
  apply list_elem_of_fmap in Hentry as ([s n] & -> & Hsn).
  exists n. split; [reflexivity|]. cbn [snd].
  apply list_elem_of_lookup in Hsn as [i Hi].
  apply combine_lookup in Hi as [_ Hn].
  apply list_elem_of_lookup_2 in Hn.
  unfold Allocator.ops_by_numel in Hn.
  apply list_elem_of_fmap in Hn as (kv & -> & Hkv).
  apply list_elem_of_filter in Hkv as [Hkv _]. exact Hkv.
Qed.

Lemma recover_real_sparsity_ops (rate : gmap string Q)
    (configs exported : list Config) (P : list string -> Prop) :
  Allocator._recover_real_sparsity rate configs = ok exported ->
  Forall (fun entry => P (op_names entry)) configs ->
  Forall (fun entry => P (op_names entry)) exported.
Proof.
  unfold Allocator._recover_real_sparsity. intros H.
  apply mapM_Forall2 in H. induction H as [|c e cs es Hce _ IH];
    intros Hall; [constructor|].
  apply Forall_cons in Hall as [Hc Hcs]. constructor; [|auto].
  unfold Allocator.recover_config in Hce.
  destruct (op_names c) as [|n [|]] eqn:Hn; try discriminate.
  destruct (rate !! n); injection Hce as <-; cbn [op_names]; congruence.
Qed.

Section ZeroGroups.

Variable numel : list (string * Z).
Variable all : list Config.

Lemma init_config_sparsity_zero (fuel : nat) (config : Config)
    (t : Annealing.tape) :
  total_sparsity config == 0 ->
  Annealing._init_config_sparsity numel fuel config t = ok ([], [], t).
Proof.
  intros H. unfold Annealing._init_config_sparsity.
  apply Qeq_bool_iff in H. now rewrite H.
Qed.

Lemma perturb_group_empty (fuel : nat) (magnitude : Q) (config : Config)
    (t : Annealing.tape) :
  Annealing.perturb_group numel fuel magnitude config [] t = ok ([], [], t).
Proof. reflexivity. Qed.

Lemma init_config_sparsity_silent (fuel : nat) (config : Config)
    (t t' : Annealing.tape) (entries : list Config) (v : list Q) :
  config ∈ all ->
  Annealing._init_config_sparsity numel fuel config t = ok (entries, v, t') ->
  (total_sparsity config == 0 -> v = [])
  /\ Forall (Spec.from_nonzero_group all) entries.
Proof.
  intros Hin. unfold Annealing._init_config_sparsity.
  destruct (Qeq_bool (total_sparsity config) 0) eqn:Hz.
  - intros [= <- <- <-]. split; [reflexivity|constructor].
  - destruct (Annealing.init_loop numel fuel config t) as [e|[v' t1]];
      cbn [bind]; [discriminate|].
    destruct (Allocator._sparsity_to_config_list numel v' config)
      as [e|entries'] eqn:Hentries; cbn [bind]; [discriminate|].
    intros [= <- <- <-].
    assert (Hnz : ~ total_sparsity config == 0).
    { intros H. apply Qeq_bool_iff in H. congruence. }
    split; [intros H; contradiction|].
    eapply Forall_impl; [apply (sparsity_to_config_list_ops _ _ _ _ Hentries)|].
    intros entry (n & Hn & Hop). exists config, n. auto.
Qed.

Lemma init_groups_silent (fuel : nat) (targets : list Config) :
  forall (t t' : Annealing.tape) (configs : list Config)
         (sparsities : list (list Q)),
  (forall config, config ∈ targets -> config ∈ all) ->
  Annealing.init_groups numel fuel targets t = ok (configs, sparsities, t') ->
  Spec.zero_groups_empty targets sparsities
  /\ Forall (Spec.from_nonzero_group all) configs.
Proof.
  induction targets as [|config targets IH];
    intros t t' configs sparsities Hall; cbn [Annealing.init_groups].
  - intros [= <- <- <-]. split; constructor.
  - destruct (Annealing._init_config_sparsity numel fuel config t)
      as [e|[[entries v] t1]] eqn:Hone; cbn [bind]; [discriminate|].
    destruct (Annealing.init_groups numel fuel targets t1)
      as [e|[[configs' sparsities'] t2]] eqn:Hrest; cbn [bind];
      [discriminate|].
    intros [= <- <- <-].
    apply init_config_sparsity_silent in Hone as [Hv Hentries];
      [|apply Hall; left].
    apply IH in Hrest as [Hzero Hconfigs];
      [|intros c Hc; apply Hall; right; exact Hc].
    split; [constructor; assumption|].
    apply Forall_app. auto.
Qed.

Lemma perturb_group_silent (fuel : nat) (magnitude : Q) (config : Config)
    (current : list Q) (t t' : Annealing.tape) (entries : list Config)
    (v : list Q) :
  config ∈ all ->
  (total_sparsity config == 0 -> current = []) ->
  Annealing.perturb_group numel fuel magnitude config current t
  = ok (entries, v, t') ->
  (total_sparsity config == 0 -> v = [])
  /\ Forall (Spec.from_nonzero_group all) entries.
Proof.
  intros Hin Hzero. unfold Annealing.perturb_group.
  destruct (Nat.eqb_spec (length current) 0) as [Hlen|Hlen].
  - intros [= <- <- <-]. split; [reflexivity|constructor].
  - destruct (Annealing.perturb_loop numel fuel magnitude config current t)
      as [e|[v' t1]]; cbn [bind]; [discriminate|].
    destruct (Allocator._sparsity_to_config_list numel v' config)
      as [e|entries'] eqn:Hentries; cbn [bind]; [discriminate|].
    intros [= <- <- <-].
    assert (Hnz : ~ total_sparsity config == 0).
    { intros H. apply Hzero in H. subst current. apply Hlen. reflexivity. }
    split; [intros H; contradiction|].
    eapply Forall_impl; [apply (sparsity_to_config_list_ops _ _ _ _ Hentries)|].
    intros entry (n & Hn & Hop). exists config, n. auto.
Qed.

Lemma perturb_groups_silent (fuel : nat) (magnitude : Q)
    (targets : list Config) (current : list (list Q)) :
  Spec.zero_groups_empty targets current ->
  forall (t t' : Annealing.tape) (configs : list Config)
         (sparsities : list (list Q)),
  (forall config, config ∈ targets -> config ∈ all) ->
  Annealing.perturb_groups numel fuel magnitude (combine targets current) t
  = ok (configs, sparsities, t') ->
  Spec.zero_groups_empty targets sparsities
  /\ Forall (Spec.from_nonzero_group all) configs.
Proof.
  induction 1 as [|config v targets current Hv _ IH];
    intros t t' configs sparsities Hall;
    cbn [combine Annealing.perturb_groups].
  - intros [= <- <- <-]. split; constructor.
  - destruct (Annealing.perturb_group numel fuel magnitude config v t)
      as [e|[[entries v'] t1]] eqn:Hone; cbn [bind]; [discriminate|].
    destruct (Annealing.perturb_groups numel fuel magnitude
                (combine targets current) t1)
      as [e|[[configs' sparsities'] t2]] eqn:Hrest; cbn [bind];
      [discriminate|].
    intros [= <- <- <-].
    apply perturb_group_silent in Hone as [Hv' Hentries];
      [|apply Hall; left|exact Hv].
    apply IH in Hrest as [Hzero Hconfigs];
      [|intros c Hc; apply Hall; right; exact Hc].
    split; [constructor; assumption|].
    apply Forall_app. auto.
Qed.

End ZeroGroups.

Section Silent.

Variable float_exp : Q -> Q.

Lemma init_temp_config_list_silent (fuel : nat) (st st' : Annealing.state)
    (t t' : Annealing.tape) :
  Spec.zero_groups_silent st ->
  Annealing._init_temp_config_list fuel st t = ok (st', t') ->
  Spec.zero_groups_silent st'.
Proof.
  intros (_ & Hcur & Hw). unfold Annealing._init_temp_config_list.
  destruct (Annealing.init_groups _ _ _ _) as [e|[[configs sps] t1]] eqn:Hg;
    cbn [bind]; [discriminate|].
  intros [= <- <-].
  apply (init_groups_silent _ (Annealing.target_sparsity_list st)) in Hg
    as [Hzero Hconfigs]; [|auto].
  split; [|split]; cbn.
  - intros configs' [= <-]. auto.
  - exact Hcur.
  - exact Hw.
Qed.

Lemma update_with_perturbations_silent (fuel : nat)
    (st st' : Annealing.state) (t t' : Annealing.tape) :
  Spec.zero_groups_silent st ->
  Annealing._update_with_perturbations fuel st t = ok (st', t') ->
  Spec.zero_groups_silent st'.
Proof.
  intros (_ & Hcur & Hw). unfold Annealing._update_with_perturbations.
  destruct (py_div _ _) as [e|ratio]; cbn [bind]; [discriminate|].
  destruct (Annealing._current_sparsity_list st) as [current|] eqn:Hc;
    [|discriminate].
  destruct (Annealing.perturb_groups _ _ _ _ _) as [e|[[configs sps] t1]]
    eqn:Hg; cbn [bind]; [discriminate|].
  intros [= <- <-].
  apply (perturb_groups_silent _ (Annealing.target_sparsity_list st)) in Hg
    as [Hzero Hconfigs]; [|apply Hcur; reflexivity|auto].
  split; [|split]; cbn.
  - intros configs' [= <-]. auto.
  - rewrite Hc. exact Hcur.
  - exact Hw.
Qed.

Lemma acceptance_silent (st st1 : Annealing.state) (new_score : option Q)
    (t t1 : Annealing.tape) :
  Spec.zero_groups_silent st ->
  is_Some (Annealing._temp_config_list st) ->
  Annealing.acceptance float_exp st new_score t = ok (st1, t1) ->
  Spec.zero_groups_silent st1.
Proof.
  intros Hinv [configs Hconfigs] Hacc.
  assert (Hset : forall sc temperature,
    Spec.zero_groups_silent (Annealing.set_current st sc temperature)).
  { intros sc temperature. destruct Hinv as (Htemp & Hcur & Hw).
    split; [|split]; cbn.
    - exact Htemp.
    - intros current [= <-]. apply (Htemp configs Hconfigs).
    - exact Hw. }
  unfold Annealing.acceptance in Hacc.
  destruct (Annealing._current_sparsity_list st) as [assignment|].
  - destruct new_score as [s|]; [|discriminate].
    destruct (Annealing._current_score st) as [current|]; [|discriminate].
    destruct (Annealing.Qlt_bool current s).
    + injection Hacc as <- <-. apply Hset.
    + destruct (Annealing.uniform 0 1 1 t) as [e|[us t']]; cbn [bind] in Hacc;
        [discriminate|].
      destruct us as [|u [|]]; try discriminate.
      destruct (Annealing.Qlt_bool u _); injection Hacc as <- <-;
        [apply Hset|exact Hinv].
  - injection Hacc as <- <-. apply Hset.
Qed.

Lemma emit_silent (st st' : Annealing.state) (tasks : list Task) :
  Spec.zero_groups_silent st ->
  Annealing.emit st = ok (tasks, st') ->
  Spec.zero_groups_silent st'.
Proof.
  intros (Htemp & Hcur & Hw). unfold Annealing.emit.
  destruct (Annealing._temp_config_list st) as [configs|] eqn:Hc;
    [|discriminate].
  destruct (Allocator._recover_real_sparsity _ _) as [e|exported] eqn:Hr;
    cbn [bind]; [discriminate|].
  intros [= <- <-]. split; [|split]; cbn.
  - exact Htemp.
  - exact Hcur.
  - intros p configs' Hin. apply elem_of_app in Hin as [Hin|Hin].
    + eapply Hw, Hin.
    + apply list_elem_of_singleton in Hin. injection Hin as _ ->.
      eapply (recover_real_sparsity_ops _ _ _
                (fun ops => exists config n,
                   config ∈ Annealing.target_sparsity_list st
                   /\ ~ total_sparsity config == 0
                   /\ ops = [n] /\ n ∈ op_names config)); [exact Hr|].
      apply (Htemp configs eq_refl).
Qed.

Lemma generate_tasks_silent (fuel : nat) (st st' : Annealing.state)
    (r : TaskResult) (t t' : Annealing.tape) (tasks : list Task) :
  Spec.zero_groups_silent st ->
  Annealing.generate_tasks float_exp fuel st r t = ok (tasks, st', t') ->
  Spec.zero_groups_silent st'
  /\ Annealing.target_sparsity_list st' = Annealing.target_sparsity_list st.
Proof.
  intros Hinv. unfold Annealing.generate_tasks.
  destruct (Annealing._temp_config_list st) as [configs|] eqn:Hc.
  - destruct (Annealing.task_score st r) as [e|new_score]; cbn [bind];
      [discriminate|].
    destruct (Annealing.acceptance float_exp st new_score t) as [e|[st1 t1]]
      eqn:Hacc; cbn [bind]; [discriminate|].
    assert (Htargets : Annealing.target_sparsity_list st1
                       = Annealing.target_sparsity_list st).
    { unfold Annealing.acceptance in Hacc.
      destruct (Annealing._current_sparsity_list st).
      - destruct new_score as [s|]; [|discriminate].
        destruct (Annealing._current_score st) as [current|]; [|discriminate].
        destruct (Annealing.Qlt_bool current s);
          [injection Hacc as <- <-; reflexivity|].
        destruct (Annealing.uniform 0 1 1 t) as [e|[us t0]];
          cbn [bind] in Hacc; [discriminate|].
        destruct us as [|u [|]]; try discriminate.
        destruct (Annealing.Qlt_bool u _); injection Hacc as <- <-;
          reflexivity.
      - injection Hacc as <- <-. reflexivity. }
    apply acceptance_silent in Hacc; [|exact Hinv|rewrite Hc; eauto].
    destruct (Annealing.Qlt_bool _ _).
    + intros [= <- <- <-]. auto.
    + destruct (Annealing._update_with_perturbations fuel st1 t1)
        as [e|[st2 t2]] eqn:Hupd; cbn [bind]; [discriminate|].
      destruct (Annealing.emit st2) as [e|[tasks' st3]] eqn:Hemit;
        cbn [bind]; [discriminate|].
      intros [= <- <- <-].
      pose proof (update_with_perturbations_same _ _ _ _ _ Hupd) as (Hs1 & _).
      pose proof (emit_same _ _ _ Hemit) as (Hs2 & _).
      split.
      * eapply emit_silent; [|exact Hemit].
        eapply update_with_perturbations_silent; eassumption.
      * unfold Spec.same_search in Hs1, Hs2.
        decompose [and] Hs1. decompose [and] Hs2. congruence.
  - destruct (Annealing._init_temp_config_list fuel st t) as [e|[st1 t1]]
      eqn:Hinit; cbn [bind]; [discriminate|].
    destruct (Annealing.emit st1) as [e|[tasks' st2]] eqn:Hemit;
      cbn [bind]; [discriminate|].
    intros [= <- <- <-].
    pose proof (emit_same _ _ _ Hemit) as (Hs2 & _).
    split.
    + eapply emit_silent; [|exact Hemit].
      eapply init_temp_config_list_silent; eassumption.
    + unfold Spec.same_search in Hs2. decompose [and] Hs2.
      unfold Annealing._init_temp_config_list in Hinit.
      destruct (Annealing.init_groups _ _ _ _) as [e|[[cs sps] t0]];
        cbn [bind] in Hinit; [discriminate|].
      injection Hinit as <- <-. assumption.
Qed.

Lemma store_score_silent (st : Annealing.state) (r : TaskResult)
    (new_score : option Q) :
  Spec.zero_groups_silent st ->
  Spec.zero_groups_silent (Annealing.store_score st r new_score).
Proof. unfold Annealing.store_score. destruct (result_task_id r); auto. Qed.

Lemma run_silent (fuel : nat) (feedback : list (TaskResult * option Q)) :
  forall (st st' : Annealing.state) (t t' : Annealing.tape)
         (outs : list (list Task)),
  Spec.zero_groups_silent st ->
  Annealing.run float_exp fuel st feedback t = ok (outs, st', t') ->
  Spec.zero_groups_silent st'
  /\ Annealing.target_sparsity_list st' = Annealing.target_sparsity_list st.
Proof.
  induction feedback as [|[r new_score] feedback IH];
    intros st st' t t' outs Hinv; cbn [Annealing.run].
  - intros [= <- <- <-]. auto.
  - destruct (Annealing.generate_tasks _ _ _ _ _) as [e|[[tasks st1] t1]]
      eqn:Hcall; cbn [bind]; [discriminate|].
    destruct (Annealing.run float_exp fuel st1 feedback t1)
      as [e|[[rest st2] t2]] eqn:Hrun; cbn [bind]; [discriminate|].
    intros [= <- <- <-].
    apply generate_tasks_silent in Hcall as [Hinv1 Ht1];
      [|apply store_score_silent, Hinv].
    apply IH in Hrun as [Hinv2 Ht2]; [|exact Hinv1].
    split; [exact Hinv2|]. rewrite Ht2, Ht1.
    unfold Annealing.store_score. destruct (result_task_id r); reflexivity.
Qed.

End Silent.

(** C9. For a group whose total sparsity, after the adjustment, is 0:
    the initial generation returns an empty config list and an empty
    sparsity vector, and a perturbation step keeps the empty vector and
    adds nothing; so, in every run of the engine from its construction,
    the vectors of such a group are empty in the candidate and in the
    current assignment, and every entry of every config list written
    for a task names an op of a group whose total sparsity is not 0. *)
Theorem zero_sparsity_groups_emit_nothing
    (float_exp : Q -> Q) (start stop cool magnitude : Q)
    (numel : list (string * Z)) (rate : gmap string Q)
    (targets : list Config) (first_id : Z) (st0 final : Annealing.state)
    (fuel : nat) (feedback : list (TaskResult * option Q))
    (t t' : Annealing.tape) (outs : list (list Task))
    (Hinit : Annealing.init start stop cool magnitude numel rate targets
               first_id = ok st0)
    (Hrun : Annealing.run float_exp fuel st0 feedback t
            = ok (outs, final, t')) :
  let adjusted := Annealing.target_sparsity_list st0 in
  (forall config : Config,
     config ∈ adjusted -> total_sparsity config == 0 ->
     (forall (fuel' : nat) (t0 : Annealing.tape),
        Annealing._init_config_sparsity numel fuel' config t0
        = ok ([], [], t0))
     /\ (forall (fuel' : nat) (m : Q) (t0 : Annealing.tape),
           Annealing.perturb_group numel fuel' m config [] t0
           = ok ([], [], t0)))
  /\ (forall configs : list Config,
        Annealing._temp_config_list final = Some configs ->
        Forall (Spec.from_nonzero_group adjusted) configs
        /\ Spec.zero_groups_empty adjusted
             (Annealing._temp_sparsity_list final))
  /\ (forall current : list (list Q),
        Annealing._current_sparsity_list final = Some current ->
        Spec.zero_groups_empty adjusted current)
  /\ (forall (p : path) (configs : list Config),
        Dumped p configs ∈ Annealing.writes final ->
        Forall (Spec.from_nonzero_group adjusted) configs).
Proof.
  intros adjusted. split.
  { intros config _ Hzero. split.
    - intros fuel' t0. apply init_config_sparsity_zero, Hzero.
    - intros fuel' m t0. apply perturb_group_empty. }
  assert (Hinv0 : Spec.zero_groups_silent st0).
  { unfold Annealing.init in Hinit.
    destruct (Allocator._adjust_target_sparsity numel rate targets)
      as [e|adj]; cbn [bind] in Hinit; [discriminate|].
    injection Hinit as <-. split; [|split]; cbn.
    - discriminate.
    - discriminate.
    - intros p configs Hin. inversion Hin. }
  apply run_silent in Hrun as [(Htemp & Hcur & Hw) Htargets];
    [|exact Hinv0].
  rewrite Htargets in Htemp, Hcur, Hw. auto.
Qed.

(** ** Commands: [_load] *)

Section Load.

Import Command.

Lemma load_fields_spec (fields : list string) :
  forall (data obj : gmap string json) (log : list log_entry),
  exists (rest obj' : gmap string json) (missing : list log_entry),
    load_fields fields data obj log = ok (rest, obj', log ++ missing)
    /\ (forall key : string,
          rest !! key
          = if decide (key ∈ map _camel_case fields) then None
            else data !! key)
    /\ Forall (fun entry => exists name d,
                 entry = MissingField name d /\ name ∈ fields) missing
    /\ (forall name : string, name ∉ fields -> obj' !! name = obj !! name)
    /\ (NoDup (map _camel_case fields) ->
        forall name : string, name ∈ fields ->
          obj' !! name = Some (default JNull (data !! _camel_case name))
          /\ ((exists d, MissingField name d ∈ missing)
              <-> data !! _camel_case name = None)).
Proof.
  induction fields as [|name fields IH]; intros data obj log.
  - exists data, obj, []. cbn [load_fields map]. rewrite app_nil_r.
    split; [reflexivity|]. split.
    { intros key. destruct (decide (key ∈ [])) as [H|_]; [inversion H|].
      reflexivity. }
    split; [constructor|]. split; [reflexivity|].
    intros _ n Hn. inversion Hn.
  - cbn [load_fields map]. set (k := _camel_case name).
    assert (Hstep : exists data1 obj1 here,
      (if decide (data !! k = None)
       then load_fields fields data (<[name:=JNull]> obj)
              (log ++ [MissingField name data])
       else
         let* (value, data') := dict_pop k data in
         load_fields fields data' (<[name:=value]> obj) log)
      = load_fields fields data1 obj1 (log ++ here)
      /\ data1 = delete k data
      /\ obj1 = <[name := default JNull (data !! k)]> obj
      /\ ((data !! k = None /\ here = [MissingField name data])
          \/ (data !! k <> None /\ here = []))).
    { destruct (decide (data !! k = None)) as [Hk|Hk].
      - exists data, (<[name:=JNull]> obj), [MissingField name data].
        split; [reflexivity|]. split; [symmetry; apply delete_id, Hk|].
        split; [now rewrite Hk|]. left. auto.
      - destruct (data !! k) as [v|] eqn:Hv; [|congruence].
        exists (delete k data), (<[name:=v]> obj), [].
        unfold dict_pop. rewrite Hv. cbn [bind ok]. rewrite app_nil_r.
        split; [reflexivity|]. split; [reflexivity|].
        split; [reflexivity|]. right. auto. }
    destruct Hstep as (data1 & obj1 & here & -> & Hdata1 & Hobj1 & Hhere).
    destruct (IH data1 obj1 (log ++ here))
      as (rest & obj' & missing & Hload & Hrest & Hmissing & Hother & Hnodup).
    exists rest, obj', (here ++ missing).
    split; [rewrite Hload, app_assoc; reflexivity|]. split.
    { intros key. rewrite Hrest, Hdata1.
      destruct (decide (key ∈ map _camel_case fields)) as [Hin|Hnin].
      - rewrite decide_True by (right; exact Hin). reflexivity.
      - destruct (decide (key = k)) as [->|Hne].
        + rewrite decide_True by left. apply lookup_delete_eq.
        + rewrite decide_False.
          * apply lookup_delete_ne. congruence.
          * intros Hin. apply elem_of_cons in Hin as [?|?]; contradiction. }
    split.
    { apply Forall_app. split.
      - destruct Hhere as [[_ ->]|[_ ->]]; [|constructor].
        constructor; [|constructor]. exists name, data. split; [auto|left].
      - eapply Forall_impl; [exact Hmissing|].
        intros entry (n & d & -> & Hn). exists n, d. split; [auto|right; auto]. }
    split.
    { intros n Hn. rewrite Hother by (intros H; apply Hn; right; exact H).
      rewrite Hobj1. apply lookup_insert_ne. intros ->. apply Hn. left. }
    intros Hnd n Hn. apply NoDup_cons in Hnd as [Hk Hnd]. fold k in Hk.
    assert (Hfresh : name ∉ fields).
    { intros H. apply Hk. unfold k. apply (list_elem_of_fmap_2 _camel_case), H. }
    assert (Hlogged : forall d, MissingField name d ∈ missing -> False).
    { intros d Hd. rewrite Forall_forall in Hmissing.
      destruct (Hmissing _ Hd) as (n' & d' & [= <- <-] & Hn'). auto. }
    apply elem_of_cons in Hn as [->|Hn].
    + rewrite (Hother name Hfresh), Hobj1, lookup_insert_eq.
      split; [reflexivity|]. fold k. split.
      * intros [d Hd]. apply elem_of_app in Hd as [Hd|Hd].
        -- destruct Hhere as [[Hnone _]|[_ ->]]; [exact Hnone|inversion Hd].
        -- exfalso. eapply Hlogged, Hd.
      * intros Hnone. exists data. apply elem_of_app. left.
        destruct Hhere as [[_ ->]|[Hsome _]]; [left|contradiction].
    + destruct (Hnodup Hnd n Hn) as [Hobj Hlog].
      assert (Hne : _camel_case n <> k).
      { intros E. apply Hk. rewrite <- E.
        apply (list_elem_of_fmap_2 _camel_case), Hn. }
      assert (Hsame : data1 !! _camel_case n = data !! _camel_case n).
      { rewrite Hdata1. apply lookup_delete_ne. congruence. }
      rewrite Hsame in Hobj, Hlog. split; [exact Hobj|].
      rewrite <- Hlog. split.
      * intros [d Hd]. apply elem_of_app in Hd as [Hd|Hd]; [|eauto].
        exfalso. destruct Hhere as [[_ ->]|[_ ->]]; [|inversion Hd].
        apply list_elem_of_singleton in Hd. injection Hd as -> _.
        contradiction.
      * intros [d Hd]. exists d. apply elem_of_app. right. exact Hd.
Qed.

End Load.

(** C10. For every input object and every list of declared fields,
    [_load] returns: the pop is guarded by the test of membership, and
    the keys that are left over are only logged.  When the camel case
    keys of the fields are pairwise distinct, a field whose key is
    missing is set to [None] and a missing field is logged for it, a
    field whose key is present holds the value of the input, and no
    other attribute is set. *)
Theorem load_never_raises
    (fields : list string) (data : gmap string Command.json) :
  exists (obj rest : gmap string Command.json)
         (missing : list Command.log_entry),
    Command._load fields data
    = ok (obj, if decide (rest = ∅) then missing
               else missing ++ [Command.UnrecognizedFields rest])
    /\ (forall key : string,
          rest !! key
          = if decide (key ∈ map Command._camel_case fields) then None
            else data !! key)
    /\ Forall (fun entry => exists name d,
                 entry = Command.MissingField name d /\ name ∈ fields)
              missing
    /\ (forall name : string, name ∉ fields -> obj !! name = None)
    /\ (NoDup (map Command._camel_case fields) ->
        forall name : string, name ∈ fields ->
          (data !! Command._camel_case name = None ->
           obj !! name = Some Command.JNull
           /\ exists d, Command.MissingField name d ∈ missing)
          /\ (forall value : Command.json,
                data !! Command._camel_case name = Some value ->
                obj !! name = Some value
                /\ forall d, Command.MissingField name d ∉ missing)).
Proof.
  destruct (load_fields_spec fields data ∅ [])
    as (rest & obj & missing & Hload & Hrest & Hmissing & Hother & Hnodup).
  exists obj, rest, missing. unfold Command._load.
  rewrite Hload. cbn [bind ok app].
  split; [reflexivity|]. split; [exact Hrest|]. split; [exact Hmissing|].
  split.
  { intros name Hname. rewrite (Hother name Hname). apply lookup_empty. }
  intros Hnd name Hname. destruct (Hnodup Hnd name Hname) as [Hobj Hlog].
  split.
  - intros Hnone. rewrite Hnone in Hobj. split; [exact Hobj|].
    apply Hlog, Hnone.
  - intros value Hvalue. rewrite Hvalue in Hobj. split; [exact Hobj|].
    intros d Hd. assert (Hnone : data !! Command._camel_case name = None)
      by (apply Hlog; eauto).
    congruence.
Qed.

(** The declared fields of the commands of the two source files have
    pairwise distinct camel case keys. *)
Lemma declared_commands_distinct_keys :
  NoDup (map Command._camel_case Command.NewTrialJobCommand)
  /\ NoDup (map Command._camel_case Command.KillTrialJobCommand)
  /\ NoDup (map Command._camel_case Command.ReportMetricDataCommand)
  /\ NoDup (map Command._camel_case Command.UpdateSearchSpaceCommand).
Proof. repeat split; apply (bool_decide_unpack _); vm_compute; exact I. Qed.

(** * Further properties of the code *)

(** ** [_recover_real_sparsity] and [_adjust_target_sparsity] *)

(** X1. On a config list whose entries name one op each,
    [_recover_real_sparsity] returns a list of the same ops in the same
    order; an entry whose op has no prior mask is unchanged, and an
    entry whose op was masked at the rate [m] gets
    [m + s * (1 - m)], which lies between [m] and 1 when [m] and [s]
    lie between 0 and 1, and stays under 1 when both do. *)
Theorem recover_real_sparsity_between_mask_and_one
    (rate : gmap string Q) (configs : list Config)
    (Hsingle : Forall (fun c => length (op_names c) = 1%nat) configs) :
  exists exported : list Config,
    Allocator._recover_real_sparsity rate configs = ok exported
    /\ Forall2
         (fun c e =>
            op_names e = op_names c
            /\ (forall n, op_names c = [n] -> rate !! n = None -> e = c)
            /\ (forall n m, op_names c = [n] -> rate !! n = Some m ->
                  total_sparsity e = m + total_sparsity c * (1 - m)
                  /\ (0 <= m <= 1 -> 0 <= total_sparsity c <= 1 ->
                      m <= total_sparsity e <= 1)
                  /\ (m < 1 -> total_sparsity c < 1 ->
                      total_sparsity e < 1)))
         configs exported.
Proof.
  unfold Allocator._recover_real_sparsity.
  induction Hsingle as [|c configs Hc _ (exported & IH & Hall)].
  - exists []. split; [reflexivity|constructor].
  - destruct (op_names c) as [|n [|]] eqn:Hn; try discriminate Hc.
    cbn [mapM]. unfold Allocator.recover_config at 1. rewrite Hn.
    destruct (rate !! n) as [m|] eqn:Hm; cbn [bind ok]; rewrite IH;
      cbn [bind ok]; eexists; (split; [reflexivity|]);
      (constructor; [|exact Hall]); cbn [op_names total_sparsity].
    + split; [congruence|]. split; [intros n' Hn' Hnone; congruence|].
      intros n' m' Hn' Hm'. assert (n' = n) as -> by congruence.
      rewrite Hm in Hm'. injection Hm' as <-.
      split; [reflexivity|]. split; intros; nra.
    + split; [congruence|]. split; [reflexivity|].
      intros n' m' Hn' Hm'. assert (n' = n) as -> by congruence.
      congruence.
Qed.

(** X2. [_recover_real_sparsity] raises its assertion error exactly when
    an entry of the list does not name exactly one op. *)
Theorem recover_real_sparsity_raises_iff_not_single
    (rate : gmap string Q) (configs : list Config) :
  Allocator._recover_real_sparsity rate configs = raise (AssertionError [])
  <-> Exists (fun c => length (op_names c) <> 1%nat) configs.
Proof.
  unfold Allocator._recover_real_sparsity.
  induction configs as [|c configs IH]; cbn [mapM].
  - split; [discriminate|intros H; inversion H].
  - unfold Allocator.recover_config at 1.
    destruct (op_names c) as [|n [|n' names]] eqn:Hn; cbn [bind raise].
    + split; [|reflexivity]. intros _. left. rewrite Hn. discriminate.
    + assert (Hone : mapM (Allocator.recover_config rate) configs
                     = raise (AssertionError [])
                     <-> Exists (fun c => length (op_names c) <> 1%nat)
                                (c :: configs)).
      { rewrite IH. split; [intros H; right; exact H|].
        intros H. apply Exists_cons in H as [H|H]; [|exact H].
        rewrite Hn in H. contradiction H. reflexivity. }
      destruct (rate !! n); cbn [bind ok];
        (destruct (mapM (Allocator.recover_config rate) configs)
           as [e|exported]; cbn [bind ok];
         [exact Hone|]);
        (split; [discriminate|]); intros H; apply Hone in H; discriminate H.
    + split; [|reflexivity]. intros _. left. rewrite Hn. discriminate.
Qed.

Section Adjust.

Variable numel : list (string * Z).
Variable rate : gmap string Q.

Lemma count_numel_zero_division (names : list string) :
  forall remaining pruned : Q,
  Forall (fun n => exists w, dict_get numel n = ok w) names ->
  Exists (fun n => exists m, rate !! n = Some m /\ (m == 0 \/ m == 1)) names ->
  Allocator.count_numel numel rate names remaining pruned
  = raise ZeroDivisionError.
Proof.
  induction names as [|n names IH]; intros remaining pruned Hkeys Hbad.
  - inversion Hbad.
  - apply Forall_cons in Hkeys as [[w Hw] Hkeys].
    cbn [Allocator.count_numel]. rewrite Hw. cbn [bind ok].
    destruct (rate !! n) as [m|] eqn:Hm.
    + unfold py_div at 1. destruct (Qeq_bool m 0) eqn:Hm0; [reflexivity|].
      cbn [bind ok]. unfold py_div at 1.
      destruct (Qeq_bool (1 / m - 1) 0) eqn:Hm1; [reflexivity|].
      cbn [bind ok]. apply IH; [exact Hkeys|].
      apply Exists_cons in Hbad as [(m' & Hm' & Hzero)|Hbad]; [|exact Hbad].
      exfalso. rewrite Hm in Hm'. injection Hm' as <-.
      destruct Hzero as [H0|H1].
      * apply Qeq_bool_iff in H0. congruence.
      * assert (E : 1 / m - 1 == 0) by (rewrite H1; reflexivity).
        apply Qeq_bool_iff in E. congruence.
    + apply IH; [exact Hkeys|].
      apply Exists_cons in Hbad as [(m' & Hm' & _)|Hbad]; [congruence|].
      exact Hbad.
Qed.

Lemma count_numel_bounds (names : list string) :
  forall remaining pruned : Q,
  Forall (fun n => exists w, dict_get numel n = ok w /\ (0 < w)%Z) names ->
  Forall (fun n => forall m, rate !! n = Some m -> 0 < m /\ m < 1) names ->
  exists remaining' pruned' : Q,
    Allocator.count_numel numel rate names remaining pruned
    = ok (remaining', pruned')
    /\ remaining <= remaining' /\ pruned <= pruned'
    /\ (names <> [] -> remaining < remaining')
    /\ (Forall (fun n => rate !! n = None) names -> pruned' = pruned).
Proof.
  induction names as [|n names IH]; intros remaining pruned Hkeys Hrate.
  - exists remaining, pruned. split; [reflexivity|].
    split; [lra|]. split; [lra|]. split; [congruence|reflexivity].
  - apply Forall_cons in Hkeys as [(w & Hw & Hpos) Hkeys].
    apply Forall_cons in Hrate as [Hm Hrate].
    assert (Hw' : 0 < inject_Z w)
      by (change 0 with (inject_Z 0); rewrite <- Zlt_Qlt; exact Hpos).
    cbn [Allocator.count_numel]. rewrite Hw. cbn [bind ok].
    destruct (rate !! n) as [m|] eqn:Hrn.
    + destruct (Hm m eq_refl) as [Hm0 Hm1].
      rewrite py_div_ok by lra. cbn [bind ok].
      rewrite py_div_ok by (apply single_op_inverse_nonzero; assumption).
      cbn [bind ok].
      assert (Hinv : 0 < 1 / (1 / m - 1)).
      { assert (E : 1 / (1 / m - 1) == m / (1 - m))
          by (field; split; lra).
        rewrite E. apply Qlt_shift_div_l; lra. }
      destruct (IH (remaining + inject_Z w)
                   (pruned + 1 / (1 / m - 1) * inject_Z w) Hkeys Hrate)
        as (r' & p' & -> & Hr & Hp & _ & _).
      exists r', p'. split; [reflexivity|].
      assert (0 < 1 / (1 / m - 1) * inject_Z w)
        by (apply Qmult_lt_0_compat; assumption).
      split; [lra|]. split; [lra|]. split; [intros _; lra|].
      intros Hnone. apply Forall_cons in Hnone as [Hnone _]. congruence.
    + destruct (IH (remaining + inject_Z w) pruned Hkeys Hrate)
        as (r' & p' & -> & Hr & Hp & _ & Hsame).
      exists r', p'. split; [reflexivity|].
      split; [lra|]. split; [lra|]. split; [intros _; lra|].
      intros Hnone. apply Forall_cons in Hnone as [_ Hnone]. auto.
Qed.

End Adjust.

(** X3. When the ops of the groups all have an element count and an op
    of some group is recorded in [masked_rate] with the rate 0 or the
    rate 1, [_adjust_target_sparsity] raises a zero division error. *)
Theorem adjust_target_sparsity_zero_division
    (numel : list (string * Z)) (rate : gmap string Q)
    (targets : list Config)
    (Hkeys : Forall (fun config =>
               Forall (fun n => exists w, dict_get numel n = ok w)
                      (op_names config)) targets)
    (Hbad : Exists (fun config =>
              Exists (fun n => exists m, rate !! n = Some m
                                         /\ (m == 0 \/ m == 1))
                     (op_names config)) targets) :
  Allocator._adjust_target_sparsity numel rate targets
  = raise ZeroDivisionError.
Proof.
  unfold Allocator._adjust_target_sparsity.
  destruct (decide (rate = ∅)) as [->|_].
  { exfalso. induction Hbad as [config targets' H|config targets' _ IH].
    - apply Exists_exists in H as (n & _ & m & Hm & _).
      rewrite lookup_empty in Hm. discriminate.
    - apply Forall_cons in Hkeys as [_ Hkeys]. exact (IH Hkeys). }
  assert (Hzde : forall config,
    Forall (fun n => exists w, dict_get numel n = ok w) (op_names config) ->
    Allocator.adjust_config numel rate config = raise ZeroDivisionError
    \/ exists config', Allocator.adjust_config numel rate config = ok config').
  { intros config Hk. unfold Allocator.adjust_config.
    assert (Hcount : forall names r p,
      Forall (fun n => exists w, dict_get numel n = ok w) names ->
      Allocator.count_numel numel rate names r p = raise ZeroDivisionError
      \/ exists rp, Allocator.count_numel numel rate names r p = ok rp).
    { induction names as [|n names IH]; intros r p Hn;
        cbn [Allocator.count_numel]; [eauto|].
      apply Forall_cons in Hn as [[w Hw] Hn]. rewrite Hw. cbn [bind ok].
      destruct (rate !! n) as [m|]; [|apply IH, Hn].
      unfold py_div. destruct (Qeq_bool m 0); [left; reflexivity|].
      cbn [bind ok].
      destruct (Qeq_bool (1 / m - 1) 0); [left; reflexivity|].
      cbn [bind ok]. apply IH, Hn. }
    destruct (Hcount (op_names config) 0 0 Hk) as [->|[[r p] ->]];
      [left; reflexivity|].
    cbn [bind ok]. unfold py_div. destruct (Qeq_bool (p + r) 0);
      [left; reflexivity|right; eexists; reflexivity]. }
  induction Hbad as [config targets' H|config targets' _ IH]; cbn [mapM];
    apply Forall_cons in Hkeys as [Hk Hkeys].
  - unfold Allocator.adjust_config.
    rewrite (count_numel_zero_division numel rate (op_names config) 0 0 Hk H).
    reflexivity.
  - destruct (Hzde config Hk) as [->|[config' ->]]; [reflexivity|].
    cbn [bind ok]. rewrite (IH Hkeys). reflexivity.
Qed.

(** X4. For a group with at least one op, whose ops all have a positive
    element count and whose masked ops have a rate strictly between 0
    and 1, the adjustment of [_adjust_target_sparsity] returns the group
    with the same ops and a target that is not negative, is above
    [target - 1], and is not above the target it had when that was not
    negative; a group with no masked op keeps a target that is not
    negative. *)
Theorem adjust_config_target_bounds
    (numel : list (string * Z)) (rate : gmap string Q) (config : Config)
    (Hnonempty : op_names config <> [])
    (Hkeys : Forall (fun n => exists w, dict_get numel n = ok w /\ (0 < w)%Z)
                    (op_names config))
    (Hrate : Forall (fun n => forall m, rate !! n = Some m -> 0 < m /\ m < 1)
                    (op_names config)) :
  exists config' : Config,
    Allocator.adjust_config numel rate config = ok config'
    /\ op_names config' = op_names config
    /\ 0 <= total_sparsity config'
    /\ total_sparsity config - 1 < total_sparsity config'
    /\ (0 <= total_sparsity config ->
        total_sparsity config' <= total_sparsity config)
    /\ (Forall (fun n => rate !! n = None) (op_names config) ->
        0 <= total_sparsity config ->
        total_sparsity config' == total_sparsity config).
Proof.
  unfold Allocator.adjust_config.
  destruct (count_numel_bounds numel rate (op_names config) 0 0 Hkeys Hrate)
    as (r & p & -> & Hr & Hp & Hpos & Hsame).
  specialize (Hpos Hnonempty). cbn [bind ok].
  rewrite py_div_ok by lra. cbn [bind ok].
  eexists. split; [reflexivity|]. cbn [op_names total_sparsity].
  split; [reflexivity|].
  assert (Hq : 0 <= p / (p + r) /\ p / (p + r) < 1).
  { split; [apply Qle_shift_div_l; lra|apply Qlt_shift_div_r; lra]. }
  destruct (py_max_spec 0 (total_sparsity config - p / (p + r)))
    as [[Hlt ->]|[Hge ->]].
  - split; [lra|]. split; [lra|]. split; [intros; lra|].
    intros Hnone _. rewrite (Hsame Hnone).
    assert (E : 0 / (0 + r) == 0) by (field; lra). rewrite E. ring.
  - split; [lra|]. split; [lra|]. split; [intros; lra|].
    intros Hnone H0. rewrite (Hsame Hnone) in Hge.
    assert (E : 0 / (0 + r) == 0) by (field; lra). rewrite E in Hge. lra.
Qed.

(** ** [_rescale_sparsity] and the two rejection loops *)

Lemma dict_get_missing {V} (d : list (string * V)) (k : string) :
  k ∉ map fst d -> dict_get d k = raise KeyError.
Proof.
  unfold dict_get. induction d as [|[k' v] d IH]; intros Hk;
    cbn [List.find fst snd]; [reflexivity|].
  destruct (String.eqb_spec k' k) as [->|Hne].
  - exfalso. apply Hk. left.
  - apply IH. intros H. apply Hk. right. exact H.
Qed.

Lemma dict_get_present {V} (d : list (string * V)) (k : string) :
  k ∈ map fst d -> exists v, dict_get d k = ok v.
Proof.
  unfold dict_get. induction d as [|[k' v] d IH]; intros Hk;
    cbn [List.find fst snd].
  - inversion Hk.
  - destruct (String.eqb_spec k' k) as [->|Hne]; [eauto|].
    apply IH. cbn [map fst] in Hk. apply elem_of_cons in Hk as [Hk|Hk];
      [congruence|exact Hk].
Qed.

Lemma mapM_dict_get {V} (d : list (string * V)) (names : list string) :
  (Forall (fun n => n ∈ map fst d) names
   /\ exists vs, mapM (dict_get d) names = ok vs)
  \/ (Exists (fun n => n ∉ map fst d) names
      /\ mapM (dict_get d) names = raise KeyError).
Proof.
  induction names as [|n names IH]; cbn [mapM].
  - left. split; [constructor|eauto].
  - destruct (decide (n ∈ map fst d)) as [Hin|Hnin].
    + destruct (dict_get_present d n Hin) as [v ->]. cbn [bind ok].
      destruct IH as [[Hall [vs ->]]|[Hex ->]].
      * left. split; [constructor; assumption|]. cbn [bind ok]. eauto.
      * right. split; [right; exact Hex|reflexivity].
    + right. split; [left; exact Hnin|].
      rewrite (dict_get_missing d n Hnin). reflexivity.
Qed.

(** X5. [_rescale_sparsity] raises an assertion error exactly when the
    candidate vector and the list of op names differ in length, and a
    key error exactly when they agree in length and some op has no
    element count. *)
Theorem rescale_sparsity_raises
    (numel : list (string * Z)) (fractions : list Q) (target : Q)
    (names : list string) :
  (Allocator._rescale_sparsity numel fractions target names
   = raise (AssertionError [])
   <-> length fractions <> length names)
  /\ (Allocator._rescale_sparsity numel fractions target names
      = raise KeyError
      <-> (length fractions = length names
           /\ Exists (fun n => n ∉ map fst numel) names)).
Proof.
  unfold Allocator._rescale_sparsity.
  destruct (Nat.eqb_spec (length fractions) (length names)) as [Hlen|Hlen];
    cbn [negb].
  - assert (Hrest : forall (ws : list Z) (e : exn),
      e = AssertionError [] \/ e = KeyError ->
      (let '(total_weights, total_weights_pruned) :=
         Allocator.weigh (combine (sorted_Z ws) (sorted_Q fractions)) 0%Z 0%Z in
       if (total_weights_pruned =? 0)%Z then ok None
       else
         let* ratio := py_div (inject_Z total_weights_pruned)
                              (inject_Z total_weights) in
         let* scale := py_div target ratio in
         ok (Some (map (fun s => s * scale) (sorted_Q fractions))))
      <> raise e).
    { intros ws e He.
      destruct (Allocator.weigh _ _ _) as [total pruned].
      destruct (pruned =? 0)%Z; [discriminate|].
      unfold py_div.
      destruct (Qeq_bool (inject_Z total) 0); cbn [bind ok raise];
        [destruct He as [-> | ->]; discriminate|].
      destruct (Qeq_bool _ 0); cbn [bind ok raise];
        destruct He as [-> | ->]; discriminate. }
    destruct (mapM_dict_get numel names) as [[Hall [ws ->]]|[Hex ->]];
      cbn [bind ok raise].
    + split; (split; [intros H; exfalso; eapply Hrest; [|exact H]; auto|]).
      * intros H. contradiction.
      * intros [_ Hex]. exfalso.
        apply Exists_exists in Hex as (n & Hn & Hmiss).
        rewrite Forall_forall in Hall. apply Hmiss, Hall, Hn.
    + split; [split; [discriminate|contradiction]|].
      split; [auto|reflexivity].
  - split; [split; [auto|reflexivity]|].
    split; [discriminate|intros [H _]; contradiction].
Qed.

(** X6. For a group without op names and with a target other than 0,
    the rejection loop of [_init_config_sparsity] does not end: whatever
    the fuel and the random stream are, every round draws nothing, gets
    [None] from the rescale and starts again. *)
Theorem init_config_sparsity_empty_group_never_ends
    (numel : list (string * Z)) (config : Config)
    (Hempty : op_names config = [])
    (Htarget : ~ total_sparsity config == 0) :
  forall (fuel : nat) (t : Annealing.tape),
    Annealing._init_config_sparsity numel fuel config t = raise Exhausted.
Proof.
  intros fuel t. unfold Annealing._init_config_sparsity.
  destruct (Qeq_bool (total_sparsity config) 0) eqn:Hz.
  { apply Qeq_bool_iff in Hz. contradiction. }
  assert (Hloop : Annealing.init_loop numel fuel config t = raise Exhausted).
  { induction fuel as [|fuel IH]; cbn [Annealing.init_loop]; [reflexivity|].
    rewrite Hempty. exact IH. }
  rewrite Hloop. reflexivity.
Qed.

Lemma sorted_scaled (scale : Q) (l : list Q) :
  0 <= scale -> StronglySorted Qle l ->
  StronglySorted Qle (map (fun s => s * scale) l).
Proof.
  intros Hs. induction 1 as [|a l Hl IH Ha]; cbn [map]; constructor;
    [exact IH|].
  rewrite Forall_forall in Ha. apply Forall_forall. intros y Hy.
  apply list_elem_of_fmap in Hy as (b & -> & Hb).
  apply Qmult_le_compat_r; [apply Ha, Hb|exact Hs].
Qed.

Lemma sorted_last_bound (l : list Q) (z : Q) :
  StronglySorted Qle l -> last l = Some z -> Forall (fun x => x <= z) l.
Proof.
  induction 1 as [|a l Hl IH Ha]; intros Hlast; [constructor|].
  destruct l as [|b l].
  - injection Hlast as <-. constructor; [lra|constructor].
  - change (last (b :: l) = Some z) in Hlast.
    specialize (IH Hlast). constructor; [|exact IH].
    apply Forall_cons in Ha as [Hab _]. apply Forall_cons in IH as [Hbz _].
    lra.
Qed.

Section Candidates.

Variable numel : list (string * Z).
Variable config : Config.
Variable ws : list Z.
Hypothesis Hws : mapM (dict_get numel) (op_names config) = ok ws.
Hypothesis Hpos : Forall (fun w => (0 < w)%Z) ws.
Hypothesis Htarget : 0 <= total_sparsity config.

Lemma feasible_rescaled_in_unit_interval (fractions v : list Q) :
  Forall (fun f => 0 <= f) fractions ->
  (let* rescaled :=
     Allocator._rescale_sparsity numel fractions (total_sparsity config)
       (op_names config) in
   Annealing.feasible rescaled) = ok (Some v) ->
  length v = length (op_names config)
  /\ StronglySorted Qle v
  /\ Forall (fun x => 0 <= x /\ x < 1) v.
Proof.
  intros Hnonneg.
  destruct (Nat.eq_dec (length fractions) (length (op_names config)))
    as [Hlen|Hlen].
  2: { unfold Allocator._rescale_sparsity.
       apply Nat.eqb_neq in Hlen. rewrite Hlen. discriminate. }
  set (pairs := combine (sorted_Z ws) (sorted_Q fractions)).
  destruct (Z.eq_dec (Spec.pruned_elements pairs) 0%Z) as [Hp|Hp].
  { rewrite (rescale_sparsity_nothing_pruned numel fractions
               (total_sparsity config) (op_names config) ws Hlen Hws Hpos
               Hnonneg Hp).
    discriminate. }
  rewrite (rescale_sparsity_scaled numel fractions (total_sparsity config)
             (op_names config) ws Hlen Hws Hpos Hnonneg Hp).
  fold pairs. cbn [bind ok].
  pose proof (sorted_pairs_nonneg ws fractions Hpos Hnonneg) as Hpairs.
  fold pairs in Hpairs.
  pose proof (total_elements_pos pairs Hpairs Hp) as Htot.
  pose proof (pruned_elements_nonneg pairs Hpairs) as Hpr.
  assert (Hscale : 0 <= Spec.scale (total_sparsity config) pairs).
  { unfold Spec.scale.
    assert (0 < inject_Z (Spec.pruned_elements pairs))
      by (change 0 with (inject_Z 0); rewrite <- Zlt_Qlt; lia).
    assert (0 < inject_Z (Spec.total_elements pairs))
      by (change 0 with (inject_Z 0); rewrite <- Zlt_Qlt; lia).
    apply Qle_shift_div_l; [apply Qlt_shift_div_l; lra|lra]. }
  set (scaled := map (fun f => f * Spec.scale (total_sparsity config) pairs)
                     (sorted_Q fractions)).
  assert (Hsorted : StronglySorted Qle scaled)
    by (apply sorted_scaled; [exact Hscale|apply sorted_Q_sorted]).
  assert (Hlength : length scaled = length (op_names config)).
  { unfold scaled, sorted_Q.
    rewrite length_map, sorted_by_length. exact Hlen. }
  assert (Hge : Forall (fun x => 0 <= x) scaled).
  { apply Forall_forall. intros y Hy.
    apply list_elem_of_fmap in Hy as (b & -> & Hb).
    apply Qmult_le_0_compat; [|exact Hscale].
    unfold sorted_Q in Hb. rewrite sorted_by_perm in Hb.
    rewrite Forall_forall in Hnonneg. apply Hnonneg, Hb. }
  unfold Annealing.feasible.
  destruct (head scaled) as [first|]; [|destruct (last scaled); discriminate].
  destruct (last scaled) as [final|] eqn:Hlast; [|discriminate].
  destruct (Qle_bool 0 first && Annealing.Qlt_bool final 1) eqn:Hok;
    [|discriminate].
  intros [= <-]. apply andb_true_iff in Hok as [_ Hfinal].
  apply Qlt_bool_iff in Hfinal.
  split; [exact Hlength|]. split; [exact Hsorted|].
  pose proof (sorted_last_bound scaled final Hsorted Hlast) as Hle.
  rewrite Forall_forall in Hge, Hle. apply Forall_forall. intros x Hx.
  split; [apply Hge, Hx|]. specialize (Hle x Hx). lra.
Qed.

End Candidates.

Lemma draws_Forall (P : Q -> Prop) (n : nat) :
  forall (t t' : Annealing.tape) (us : list Q),
  Annealing.draws n t = ok (us, t') ->
  Forall P t -> Forall P us /\ Forall P t'.
Proof.
  induction n as [|n IH]; intros t t' us; cbn [Annealing.draws].
  - intros [= <- <-] Ht. split; [constructor|exact Ht].
  - destruct t as [|u t0]; [discriminate|].
    destruct (Annealing.draws n t0) as [e|[us0 t1]] eqn:Hd; cbn [bind];
      [discriminate|].
    intros [= <- <-] Ht. apply Forall_cons in Ht as [Hu Ht].
    destruct (IH _ _ _ Hd Ht). split; [constructor|]; assumption.
Qed.

(** X7. For a group whose ops all have a positive element count and
    whose target is not negative, a vector that leaves one of the two
    rejection loops (of [_init_config_sparsity], on draws that are not
    negative, and of [_update_with_perturbations]) has one value per op
    of the group, in ascending order, and every value is at least 0 and
    below 1. *)
Theorem accepted_candidates_in_unit_interval
    (numel : list (string * Z)) (config : Config) (ws : list Z)
    (Hws : mapM (dict_get numel) (op_names config) = ok ws)
    (Hpos : Forall (fun w => (0 < w)%Z) ws)
    (Htarget : 0 <= total_sparsity config) :
  (forall (fuel : nat) (t t' : Annealing.tape) (v : list Q),
     Forall (fun u => 0 <= u) t ->
     Annealing.init_loop numel fuel config t = ok (v, t') ->
     length v = length (op_names config)
     /\ StronglySorted Qle v
     /\ Forall (fun x => 0 <= x /\ x < 1) v)
  /\ (forall (fuel : nat) (magnitude : Q) (current : list Q)
             (t t' : Annealing.tape) (v : list Q),
        Annealing.perturb_loop numel fuel magnitude config current t
        = ok (v, t') ->
        length v = length (op_names config)
        /\ StronglySorted Qle v
        /\ Forall (fun x => 0 <= x /\ x < 1) v).
Proof.
  split.
  - induction fuel as [|fuel IH]; intros t t' v Ht;
      cbn [Annealing.init_loop]; [discriminate|].
    unfold Annealing.uniform.
    destruct (Annealing.draws _ t) as [e|[us t1]] eqn:Hd; cbn [bind ok];
      [discriminate|].
    destruct (draws_Forall _ _ _ _ _ Hd Ht) as [Hus Ht1].
    assert (Hnonneg : Forall (fun f => 0 <= f)
              (sorted_Q (map (fun u => 0 + (1 - 0) * u) us))).
    { unfold sorted_Q. rewrite sorted_by_perm. apply Forall_forall.
      intros y Hy. apply list_elem_of_fmap in Hy as (u & -> & Hu).
      rewrite Forall_forall in Hus. specialize (Hus u Hu). lra. }
    pose proof (feasible_rescaled_in_unit_interval numel config ws Hws Hpos
                  Htarget
                  (sorted_Q (map (fun u => 0 + (1 - 0) * u) us))) as Hgood.
    destruct (Allocator._rescale_sparsity _ _ _ _) as [e|rescaled];
      cbn [bind] in *; [discriminate|].
    destruct (Annealing.feasible rescaled) as [e|[v'|]] eqn:Hf; cbn [bind].
    + discriminate.
    + intros [= <- <-]. apply (Hgood v' Hnonneg eq_refl).
    + intros Hrec. exact (IH _ _ _ Ht1 Hrec).
  - induction fuel as [|fuel IH]; intros magnitude current t t' v;
      cbn [Annealing.perturb_loop]; [discriminate|].
    destruct (Annealing.uniform _ _ _ t) as [e|[perturbation t1]];
      cbn [bind ok]; [discriminate|].
    assert (Hnonneg : Forall (fun f => 0 <= f)
              (Annealing.np_clip 0 (zip_with Qplus current perturbation))).
    { unfold Annealing.np_clip. apply Forall_forall. intros y Hy.
      apply list_elem_of_fmap in Hy as (x & -> & _).
      destruct (Qlt_le_dec 0 x); lra. }
    pose proof (feasible_rescaled_in_unit_interval numel config ws Hws Hpos
                  Htarget
                  (Annealing.np_clip 0 (zip_with Qplus current perturbation)))
      as Hgood.
    destruct (Allocator._rescale_sparsity _ _ _ _) as [e|rescaled];
      cbn [bind] in *; [discriminate|].
    destruct (Annealing.feasible rescaled) as [e|[v'|]] eqn:Hf; cbn [bind].
    + discriminate.
    + intros [= <- <-]. apply (Hgood v' Hnonneg eq_refl).
    + intros Hrec. eapply IH; eassumption.
Qed.

(** ** The function based generators *)

Section Entries.

Variable float_pow : Q -> Q -> Q.
Variables (k : Schedule.kind) (iteration total : Z).

Lemma config_entry_total_nonzero (target mo entry : Config) :
  Schedule.config_entry float_pow k iteration total target mo = ok entry ->
  total <> 0%Z.
Proof.
  intros H ->. unfold Schedule.config_entry, Schedule.ori_sparsity in H.
  rewrite py_div_zero in H by reflexivity. discriminate.
Qed.

Lemma config_entry_returns (target mo entry : Config) :
  total_sparsity mo < 1 ->
  Schedule.config_entry float_pow k iteration total target mo = ok entry ->
  op_names entry = op_names target
  /\ total_sparsity entry
     == Spec.incremental_sparsity
          (Spec.cumulative_target float_pow k iteration total
             (total_sparsity target))
          (total_sparsity mo)
  /\ 0 <= total_sparsity entry <= 1.
Proof.
  intros HA Hentry.
  pose proof (config_entry_total_nonzero _ _ _ Hentry) as Htotal.
  destruct (config_entry_spec float_pow k iteration total Htotal target mo)
    as (s & c & Hc & Hs & E); [lra|].
  rewrite E in Hentry.
  destruct (Qle_bool 0 s && Qle_bool s 1) eqn:Hin; [|discriminate].
  injection Hentry as <-. cbn [op_names total_sparsity].
  apply in_unit_interval_bool in Hin.
  split; [reflexivity|]. split; [|exact Hin].
  rewrite Hs. unfold Spec.incremental_sparsity. now rewrite Hc.
Qed.

End Entries.

(** X8. When [generate_config_list] returns, with achieved sparsities
    below 1, it returns one entry per pair of a target and an achieved
    sparsity, with the ops of the target; the sparsity [S] of the entry
    composes with the achieved sparsity [A] to the cumulative target,
    [1 - (1 - A) * (1 - S) = C(i)], when [A <= C(i)], and is 0 when
    the cumulative target is already achieved, [C(i) <= A]. *)
Theorem incremental_sparsity_composes
    (float_pow : Q -> Q -> Q) (k : Schedule.kind) (iteration total : Z)
    (targets c2o configs : list Config)
    (Hc2o : Forall (fun mo => total_sparsity mo < 1) c2o)
    (Hgen : Schedule.generate_config_list float_pow k total targets
              iteration c2o = ok configs) :
  Forall2
    (fun entry tm =>
       let C := Spec.cumulative_target float_pow k iteration total
                  (total_sparsity (fst tm)) in
       let A := total_sparsity (snd tm) in
       let S := total_sparsity entry in
       op_names entry = op_names (fst tm)
       /\ (A <= C -> 1 - (1 - A) * (1 - S) == C)
       /\ (C <= A -> S == 0))
    configs (combine targets c2o).
Proof.
  unfold Schedule.generate_config_list in Hgen.
  apply mapM_Forall2 in Hgen.
  assert (Hpairs : Forall (fun tm => total_sparsity (snd tm) < 1)
                          (combine targets c2o)).
  { eapply Forall_impl;
      [apply (Forall_combine (fun _ : Config => True)
                (fun mo : Config => total_sparsity mo < 1) targets c2o);
       [apply Forall_forall; auto|exact Hc2o]|].
    intros tm [_ H]. exact H. }
  induction Hgen as [|tm entry pairs configs Hentry _ IH]; [constructor|].
  apply Forall_cons in Hpairs as [HA Hpairs].
  constructor; [|exact (IH Hpairs)].
  apply config_entry_returns in Hentry as (Hops & HS & _); [|exact HA].
  cbv zeta. split; [exact Hops|].
  set (C := Spec.cumulative_target float_pow k iteration total
              (total_sparsity (fst tm))) in *.
  set (A := total_sparsity (snd tm)) in *.
  unfold Spec.incremental_sparsity in HS.
  assert (H1A : 0 < 1 - A) by lra.
  split; intros HCA; rewrite HS.
  - rewrite Q.max_r by (apply Qle_shift_div_l; lra). field. lra.
  - rewrite Q.max_l; [reflexivity|]. apply Qle_shift_div_r; lra.
Qed.

Lemma cube_unit_interval (x : Q) : 0 <= x <= 1 -> 0 <= x ^ 3 <= 1.
Proof.
  intros [H0 H1]. assert (E : x ^ 3 == x * x * x) by ring. rewrite E.
  assert (0 <= x * x) by nra. assert (x * x <= 1) by nra. split; nra.
Qed.

Lemma agp_linear_cumulative_bounds (float_pow : Q -> Q -> Q)
    (k : Schedule.kind) (iteration total : Z) (T : Q) :
  k <> Schedule.LotteryTicket ->
  (0 <= iteration <= total)%Z -> (0 < total)%Z -> 0 <= T ->
  0 <= Spec.cumulative_target float_pow k iteration total T <= T.
Proof.
  intros Hk [Hi0 HiN] HN HT.
  assert (Hr : 0 <= inject_Z iteration / inject_Z total <= 1).
  { assert (0 < inject_Z total)
      by (change 0 with (inject_Z 0); rewrite <- Zlt_Qlt; exact HN).
    assert (0 <= inject_Z iteration)
      by (change 0 with (inject_Z 0); rewrite <- Zle_Qle; exact Hi0).
    assert (inject_Z iteration <= inject_Z total)
      by (rewrite <- Zle_Qle; exact HiN).
    split; [apply Qle_shift_div_l; lra|apply Qle_shift_div_r; lra]. }
  set (r := inject_Z iteration / inject_Z total) in *.
  destruct k; [| |congruence]; unfold Spec.cumulative_target; fold r.
  - assert (Hc : 0 <= (1 - r) ^ 3 <= 1) by (apply cube_unit_interval; lra).
    split; nra.
  - split; nra.
Qed.

(** X9. For AGP and Linear, with a positive total iteration number, an
    iteration between 0 and the total, targets between 0 and 1 and
    achieved sparsities at least 0 and below 1, [generate_config_list]
    returns: the assertion does not fail, there is one entry per pair of
    a target and an achieved sparsity (the shorter list decides), and
    every sparsity lies between 0 and 1. *)
Theorem agp_linear_config_list_returns
    (float_pow : Q -> Q -> Q) (k : Schedule.kind) (iteration total : Z)
    (targets c2o : list Config)
    (Hk : k <> Schedule.LotteryTicket)
    (Hiteration : (0 <= iteration <= total)%Z)
    (Htotal : (0 < total)%Z)
    (Htargets : Forall (fun target => 0 <= total_sparsity target <= 1) targets)
    (Hc2o : Forall (fun mo => 0 <= total_sparsity mo < 1) c2o) :
  exists configs : list Config,
    Schedule.generate_config_list float_pow k total targets iteration c2o
    = ok configs
    /\ length configs = Nat.min (length targets) (length c2o)
    /\ Forall (fun entry => 0 <= total_sparsity entry <= 1) configs.
Proof.
  unfold Schedule.generate_config_list.
  rewrite <- length_combine.
  pose proof (Forall_combine _ _ targets c2o Htargets Hc2o) as Hpairs.
  induction Hpairs as [|tm pairs [[HT0 HT1] [HA0 HA1]] _ IH]; cbn [mapM].
  - exists []. split; [reflexivity|]. split; [reflexivity|constructor].
  - destruct (config_entry_spec float_pow k iteration total
                ltac:(lia) (fst tm) (snd tm)) as (s & c & Hc & Hs & ->);
      [lra|].
    pose proof (agp_linear_cumulative_bounds float_pow k iteration total
                  (total_sparsity (fst tm)) Hk Hiteration Htotal HT0)
      as [HC0 HC1].
    assert (Hrange : 0 <= s <= 1).
    { rewrite Hs. unfold Spec.incremental_sparsity.
      destruct (Qlt_le_dec 0 ((c - total_sparsity (snd tm))
                              / (1 - total_sparsity (snd tm)))) as [Hq|Hq].
      - rewrite Q.max_r by lra. split; [lra|].
        apply Qle_shift_div_r; lra.
      - rewrite Q.max_l by lra. lra. }
    apply in_unit_interval_bool in Hrange as Hin. rewrite Hin.
    cbn [bind ok]. destruct IH as (configs & -> & Hlen & Hall).
    cbn [bind ok]. eexists. split; [reflexivity|].
    split; [cbn [length]; congruence|].
    constructor; [exact Hrange|exact Hall].
Qed.

(** X10. Whatever the targets are, AGP and Linear ask for the sparsity 0
    in every entry at the iteration 0, which is their first (with a
    total iteration number other than 0 and achieved sparsities at
    least 0 and below 1); and at the iteration [N] of [N] the
    cumulative target of AGP and of Linear is the target itself, as is
    that of LotteryTicket when the power takes the exponent 1 to the
    base. *)
Theorem schedules_at_first_and_last_iteration
    (float_pow : Q -> Q -> Q) (k : Schedule.kind) (total : Z)
    (targets c2o : list Config)
    (Htotal : total <> 0%Z)
    (Hc2o : Forall (fun mo => 0 <= total_sparsity mo < 1) c2o) :
  (k <> Schedule.LotteryTicket ->
   exists configs : list Config,
     Schedule.generate_config_list float_pow k total targets 0 c2o
     = ok configs
     /\ Forall2 (fun entry tm => op_names entry = op_names (fst tm)
                                 /\ total_sparsity entry == 0)
                configs (combine targets c2o))
  /\ ((forall x e : Q, e == 1 -> float_pow x e == x) ->
      forall T : Q,
        exists c : Q,
          Schedule.ori_sparsity float_pow k total total T = ok c /\ c == T).
Proof.
  split.
  - intros Hk. unfold Schedule.generate_config_list.
    assert (Hpairs : Forall (fun tm => 0 <= total_sparsity (snd tm) < 1)
                            (combine targets c2o)).
    { eapply Forall_impl;
        [apply (Forall_combine (fun _ : Config => True)
                  (fun mo : Config => 0 <= total_sparsity mo < 1)
                  targets c2o);
         [apply Forall_forall; auto|exact Hc2o]|].
      intros tm [_ H]. exact H. }
    induction Hpairs as [|tm pairs [HA0 HA1] _ IH]; cbn [mapM].
    + exists []. split; [reflexivity|constructor].
    + destruct (config_entry_spec float_pow k 0 total Htotal (fst tm) (snd tm))
        as (s & c & Hc & Hs & ->); [lra|].
      assert (Hc0 : c == 0).
      { rewrite Hc. destruct k; [| |congruence];
          unfold Spec.cumulative_target.
        - assert (E : inject_Z 0 / inject_Z total == 0)
            by (field; apply inject_Z_nonzero; exact Htotal).
          rewrite E. ring.
        - assert (E : inject_Z 0 / inject_Z total == 0)
            by (field; apply inject_Z_nonzero; exact Htotal).
          rewrite E. ring. }
      assert (Hs0 : s == 0).
      { rewrite Hs. unfold Spec.incremental_sparsity. rewrite Hc0.
        apply Q.max_l. apply Qle_shift_div_r; lra. }
      assert (Hin : Qle_bool 0 s && Qle_bool s 1 = true)
        by (apply in_unit_interval_bool; rewrite Hs0; lra).
      rewrite Hin. cbn [bind ok]. destruct IH as (configs & -> & Hall).
      cbn [bind ok]. eexists. split; [reflexivity|].
      constructor; [|exact Hall]. split; [reflexivity|exact Hs0].
  - intros Hpow T.
    destruct (ori_sparsity_cumulative float_pow k total total Htotal T)
      as (c & Hori & Hc).
    exists c. split; [exact Hori|]. rewrite Hc.
    assert (E : inject_Z total / inject_Z total == 1)
      by (field; apply inject_Z_nonzero; exact Htotal).
    destruct k; unfold Spec.cumulative_target.
    + rewrite E. ring.
    + rewrite E. ring.
    + rewrite (Hpow _ _ E). ring.
Qed.

(** X11. With the total iteration number 0, [generate_config_list]
    raises a zero division error as soon as there is a pair of a target
    and an achieved sparsity; so the first call of AGP and of Linear,
    [init_pending_tasks], raises it instead of returning a task, while
    the first call of LotteryTicket, whose counter starts at 1, returns
    no task. *)
Theorem total_iteration_zero
    (float_pow : Q -> Q -> Q) (k : Schedule.kind) (first_id : Z)
    (targets c2o current : list Config)
    (Htargets : targets <> []) (Hc2o : c2o <> []) :
  (forall iteration : Z,
     Schedule.generate_config_list float_pow k 0 targets iteration c2o
     = raise ZeroDivisionError)
  /\ (k <> Schedule.LotteryTicket ->
      Schedule.init_pending_tasks float_pow k
        (Schedule.init k 0 targets first_id) current c2o
      = raise ZeroDivisionError)
  /\ (k = Schedule.LotteryTicket ->
      exists st', Schedule.init_pending_tasks float_pow k
                    (Schedule.init k 0 targets first_id) current c2o
                  = ok ([], st')).
Proof.
  assert (Hzde : forall iteration : Z,
    Schedule.generate_config_list float_pow k 0 targets iteration c2o
    = raise ZeroDivisionError).
  { intros iteration. unfold Schedule.generate_config_list.
    destruct targets as [|target targets']; [congruence|].
    destruct c2o as [|mo c2o']; [congruence|].
    cbn [combine mapM fst snd].
    unfold Schedule.config_entry, Schedule.ori_sparsity.
    rewrite py_div_zero by reflexivity. reflexivity. }
  split; [exact Hzde|]. split.
  - intros Hk. unfold Schedule.init_pending_tasks, Schedule.generate_tasks.
    cbn [result_task_id bind ok Schedule.init Schedule.total_iteration
         Schedule.current_iteration Schedule.target_sparsity
         Schedule._tasks Schedule._task_id_candidate compact2origin].
    destruct k; [| |congruence];
      change (0 <? 0)%Z with false; cbv iota; rewrite Hzde; reflexivity.
  - intros ->. eexists. reflexivity.
Qed.

Section TaskIds.

Variable float_pow : Q -> Q -> Q.
Variable k : Schedule.kind.
Variable base : Z.

Let known (st : Schedule.state) : Prop :=
  (base <= Schedule._task_id_candidate st)%Z
  /\ forall n : Z,
       is_Some (Schedule._tasks st !! n)
       <-> (base <= n < Schedule._task_id_candidate st)%Z.

Lemma generate_tasks_ids (st st' : Schedule.state) (r : TaskResult)
    (tasks : list Task) :
  known st ->
  Schedule.generate_tasks float_pow k st r = ok (tasks, st') ->
  (forall (i : nat) (task : Task),
     tasks !! i = Some task ->
     task_id task = (Schedule._task_id_candidate st + Z.of_nat i)%Z)
  /\ Schedule._task_id_candidate st'
     = (Schedule._task_id_candidate st + Z.of_nat (length tasks))%Z
  /\ known st'.
Proof.
  intros [Hbase Hdom]. unfold Schedule.generate_tasks.
  assert (Htasks1 : forall tasks1,
    match result_task_id r with
    | Origin => ok (Schedule._tasks st)
    | Tid n =>
        match Schedule._tasks st !! n with
        | Some t => ok (<[n := set_current2origin t (current2origin r)]>
                          (Schedule._tasks st))
        | None => raise KeyError
        end
    end = ok tasks1 ->
    forall n, is_Some (tasks1 !! n) <-> is_Some (Schedule._tasks st !! n)).
  { intros tasks1 H n. destruct (result_task_id r) as [|n0].
    - injection H as <-. reflexivity.
    - destruct (Schedule._tasks st !! n0) as [t0|] eqn:Hn0; [|discriminate].
      injection H as <-. destruct (decide (n0 = n)) as [->|Hne].
      + rewrite lookup_insert_eq, Hn0. split; eauto.
      + rewrite lookup_insert_ne by exact Hne. reflexivity. }
  destruct (match result_task_id r with
            | Origin => ok (Schedule._tasks st)
            | Tid n => _
            end) as [e|tasks1]; cbn [bind]; [discriminate|].
  specialize (Htasks1 tasks1 eq_refl).
  destruct (Z.ltb_spec (Schedule.total_iteration st)
                       (Schedule.current_iteration st)) as [Hlt|Hle].
  - intros [= <- <-]. cbn. split; [intros i task H; discriminate|].
    split; [lia|]. split; [exact Hbase|].
    intros n. rewrite Htasks1. apply Hdom.
  - destruct (Schedule.generate_config_list _ _ _ _ _ _) as [e|configs];
      cbn [bind]; [discriminate|].
    intros [= <- <-]. unfold known. cbn. split.
    { intros [|i] task H; [|discriminate]. injection H as <-. cbn. lia. }
    split; [lia|]. split; [lia|].
    intros n. destruct (decide (Schedule._task_id_candidate st = n))
      as [<-|Hne].
    + rewrite lookup_insert_eq. split; [intros _; lia|eauto].
    + rewrite lookup_insert_ne by exact Hne. rewrite Htasks1, Hdom. lia.
Qed.

Lemma run_ids (rs : list TaskResult) :
  forall (st st' : Schedule.state) (outs : list (list Task)),
  known st ->
  Schedule.run float_pow k st rs = ok (outs, st') ->
  (forall (i : nat) (task : Task),
     concat outs !! i = Some task ->
     task_id task = (Schedule._task_id_candidate st + Z.of_nat i)%Z)
  /\ Schedule._task_id_candidate st'
     = (Schedule._task_id_candidate st + Z.of_nat (length (concat outs)))%Z
  /\ known st'.
Proof.
  induction rs as [|r rs IH]; intros st st' outs Hknown; cbn [Schedule.run].
  - intros [= <- <-]. cbn. split; [intros i task H; discriminate|].
    split; [lia|exact Hknown].
  - destruct (Schedule.generate_tasks float_pow k st r) as [e|[tasks st1]]
      eqn:Hstep; cbn [bind]; [discriminate|].
    destruct (Schedule.run float_pow k st1 rs) as [e|[rest st2]] eqn:Hrun;
      cbn [bind]; [discriminate|].
    intros [= <- <-].
    apply generate_tasks_ids in Hstep as (Hids & Hcand & Hknown1);
      [|exact Hknown].
    apply IH in Hrun as (Hids' & Hcand' & Hknown2); [|exact Hknown1].
    cbn [concat]. split.
    { intros i task Hi. apply lookup_app_Some in Hi as [Hi|[Hge Hi]].
      - apply Hids, Hi.
      - rewrite (Hids' _ _ Hi), Hcand. lia. }
    split; [rewrite Hcand', Hcand, length_app; lia|exact Hknown2].
Qed.

End TaskIds.

(** X12. In a run of a function based generator from its construction,
    the tasks that the calls return have consecutive ids from the first
    free id, in the order in which they are returned; the next free id
    is the first one plus the number of tasks, and the task table holds
    exactly these ids. *)
Theorem function_based_task_ids_are_consecutive
    (float_pow : Q -> Q -> Q) (k : Schedule.kind) (N first_id : Z)
    (targets : list Config) (rs : list TaskResult)
    (outs : list (list Task)) (final : Schedule.state)
    (Hrun : Schedule.run float_pow k (Schedule.init k N targets first_id) rs
            = ok (outs, final)) :
  (forall (i : nat) (task : Task),
     concat outs !! i = Some task ->
     task_id task = (first_id + Z.of_nat i)%Z)
  /\ Schedule._task_id_candidate final
     = (first_id + Z.of_nat (length (concat outs)))%Z
  /\ forall n : Z,
       is_Some (Schedule._tasks final !! n)
       <-> (first_id <= n < Schedule._task_id_candidate final)%Z.
Proof.
  apply (run_ids float_pow k first_id) in Hrun as (Hids & Hcand & _ & Hdom).
  - auto.
  - split; [cbn; lia|]. intros n. cbn. rewrite lookup_empty.
    split; [intros [x Hx]; discriminate|lia].
Qed.

(** X13. A call of [generate_tasks] whose result names a task: when the
    task table has no task of that id the call raises a key error; and
    when the call returns, on a state whose next free id is not in use,
    the task of that id is still in the table afterwards, now with the
    metrics of the result as its [current2origin_sparsity]. *)
Theorem function_based_result_is_recorded
    (float_pow : Q -> Q -> Q) (k : Schedule.kind) (st : Schedule.state)
    (r : TaskResult) (n : Z)
    (Hr : result_task_id r = Tid n) :
  (Schedule._tasks st !! n = None ->
   Schedule.generate_tasks float_pow k st r = raise KeyError)
  /\ (forall (tasks : list Task) (st' : Schedule.state),
        Schedule._tasks st !! Schedule._task_id_candidate st = None ->
        Schedule.generate_tasks float_pow k st r = ok (tasks, st') ->
        exists t : Task,
          Schedule._tasks st !! n = Some t
          /\ Schedule._tasks st' !! n
             = Some (set_current2origin t (current2origin r))).
Proof.
  unfold Schedule.generate_tasks. rewrite Hr. split.
  - intros ->. reflexivity.
  - intros tasks st' Hfree.
    destruct (Schedule._tasks st !! n) as [t|] eqn:Hn; [|discriminate].
    cbn [bind ok].
    destruct (Schedule.total_iteration st <? Schedule.current_iteration st)%Z.
    + intros [= <- <-]. exists t. split; [reflexivity|].
      cbn. apply lookup_insert_eq.
    + destruct (Schedule.generate_config_list _ _ _ _ _ _) as [e|configs];
        cbn [bind]; [discriminate|].
      intros [= <- <-]. exists t. split; [reflexivity|]. cbn.
      rewrite lookup_insert_ne by congruence. apply lookup_insert_eq.
Qed.

(** ** The annealing engine *)

Section Engine.

Variable float_exp : Q -> Q.

(** The acceptance step, whatever the score is: the state is kept, or
    the candidate is adopted at the same or at the cooled temperature. *)
Lemma acceptance_shape (st st1 : Annealing.state) (new_score : option Q)
    (t t1 : Annealing.tape) :
  Annealing.acceptance float_exp st new_score t = ok (st1, t1) ->
  st1 = st
  \/ exists (sc : option Q) (temperature : Q),
       st1 = Annealing.set_current st sc temperature
       /\ (temperature = Annealing.current_temperature st
           \/ temperature = Annealing.current_temperature st
                            * Annealing.cool_down_rate st).
Proof.
  unfold Annealing.acceptance.
  destruct (Annealing._current_sparsity_list st).
  - destruct new_score as [s|]; [|discriminate].
    destruct (Annealing._current_score st) as [current|]; [|discriminate].
    destruct (Annealing.Qlt_bool current s).
    + intros [= <- <-]. right. eauto.
    + destruct (Annealing.uniform 0 1 1 t) as [e|[us t']]; cbn [bind];
        [discriminate|].
      destruct us as [|u [|]]; try discriminate.
      destruct (Annealing.Qlt_bool u _); intros [= <- <-]; [right|left];
        eauto.
  - intros [= <- <-]. right. eauto.
Qed.

(** What a call that returns leaves alone, and what it does with the
    temperature, the task table and the directory. *)
Lemma generate_tasks_bookkeeping (fuel : nat) (st st' : Annealing.state)
    (r : TaskResult) (t t' : Annealing.tape) (tasks : list Task) :
  Annealing.generate_tasks float_exp fuel st r t = ok (tasks, st', t') ->
  Annealing.start_temperature st' = Annealing.start_temperature st
  /\ Annealing.cool_down_rate st' = Annealing.cool_down_rate st
  /\ (Annealing.current_temperature st' = Annealing.current_temperature st
      \/ Annealing.current_temperature st'
         = Annealing.current_temperature st * Annealing.cool_down_rate st)
  /\ is_Some (Annealing._temp_config_list st')
  /\ ((tasks = []
       /\ Annealing.writes st' = Annealing.writes st
       /\ Annealing._tasks st' = Annealing._tasks st
       /\ Annealing._task_id_candidate st' = Annealing._task_id_candidate st)
      \/ exists configs exported : list Config,
           let id := Annealing._task_id_candidate st in
           let task := mkTask id (CompactModelPath Origin)
                         (CompactMasksPath Origin) (ConfigListPath id)
                         None None in
           tasks = [task]
           /\ Annealing._temp_config_list st' = Some configs
           /\ Allocator._recover_real_sparsity (Annealing.masked_rate st)
                configs = ok exported
           /\ Annealing.writes st'
              = Annealing.writes st ++ [Dumped (ConfigListPath id) exported]
           /\ Annealing._tasks st' = <[id := task]> (Annealing._tasks st)
           /\ Annealing._task_id_candidate st' = (id + 1)%Z).
Proof.
  assert (Hemit : forall st2 tasks2 st3,
    Annealing.emit st2 = ok (tasks2, st3) ->
    Annealing.start_temperature st3 = Annealing.start_temperature st2
    /\ Annealing.cool_down_rate st3 = Annealing.cool_down_rate st2
    /\ Annealing.current_temperature st3 = Annealing.current_temperature st2
    /\ exists configs exported : list Config,
         let id := Annealing._task_id_candidate st2 in
         let task := mkTask id (CompactModelPath Origin)
                       (CompactMasksPath Origin) (ConfigListPath id)
                       None None in
         tasks2 = [task]
         /\ Annealing._temp_config_list st3 = Some configs
         /\ Allocator._recover_real_sparsity (Annealing.masked_rate st2)
              configs = ok exported
         /\ Annealing.writes st3
            = Annealing.writes st2 ++ [Dumped (ConfigListPath id) exported]
         /\ Annealing._tasks st3 = <[id := task]> (Annealing._tasks st2)
         /\ Annealing._task_id_candidate st3 = (id + 1)%Z).
  { intros st2 tasks2 st3. unfold Annealing.emit.
    destruct (Annealing._temp_config_list st2) as [configs|] eqn:Hc;
      [|discriminate].
    destruct (Allocator._recover_real_sparsity _ _) as [e|exported] eqn:Hr;
      cbn [bind]; [discriminate|].
    intros [= <- <-]. cbn. split; [reflexivity|]. split; [reflexivity|].
    split; [reflexivity|]. exists configs, exported. auto 10. }
  unfold Annealing.generate_tasks.
  destruct (Annealing._temp_config_list st) as [configs0|] eqn:Hc.
  - destruct (Annealing.task_score st r) as [e|new_score]; cbn [bind];
      [discriminate|].
    destruct (Annealing.acceptance float_exp st new_score t) as [e|[st1 t1]]
      eqn:Hacc; cbn [bind]; [discriminate|].
    apply acceptance_shape in Hacc.
    assert (H1 :
      Annealing.start_temperature st1 = Annealing.start_temperature st
      /\ Annealing.cool_down_rate st1 = Annealing.cool_down_rate st
      /\ (Annealing.current_temperature st1 = Annealing.current_temperature st
          \/ Annealing.current_temperature st1
             = Annealing.current_temperature st * Annealing.cool_down_rate st)
      /\ Annealing._temp_config_list st1 = Some configs0
      /\ Annealing.writes st1 = Annealing.writes st
      /\ Annealing._tasks st1 = Annealing._tasks st
      /\ Annealing._task_id_candidate st1 = Annealing._task_id_candidate st
      /\ Annealing.masked_rate st1 = Annealing.masked_rate st).
    { destruct Hacc as [->|(sc & temperature & -> & Htemp)]; cbn; auto 10. }
    destruct H1 as (Hs1 & Hcool1 & HT1 & Hc1 & Hw1 & Htasks1 & Hid1 & Hrate1).
    destruct (Annealing.Qlt_bool (Annealing.current_temperature st1)
                (Annealing.stop_temperature st1)).
    + intros [= <- <- <-]. rewrite Hc1. split; [exact Hs1|].
      split; [exact Hcool1|]. split; [exact HT1|]. split; [eauto|].
      left. auto.
    + unfold Annealing._update_with_perturbations.
      destruct (py_div _ _) as [e|ratio]; cbn [bind]; [discriminate|].
      destruct (Annealing._current_sparsity_list st1); [|discriminate].
      destruct (Annealing.perturb_groups _ _ _ _ _)
        as [e|[[configs sps] t2]]; cbn [bind ok]; [discriminate|].
      destruct (Annealing.emit _) as [e|[tasks' st3]] eqn:He; cbn [bind];
        [discriminate|].
      intros [= <- <- <-].
      apply Hemit in He as (Hs3 & Hcool3 & HT3 & cs & ex & He).
      cbn in Hs3, Hcool3, HT3, He.
      rewrite Hrate1, Hw1, Htasks1, Hid1 in He.
      split; [congruence|]. split; [congruence|].
      split; [rewrite HT3; exact HT1|].
      split; [destruct He as (_ & -> & _); eauto|].
      right. exists cs, ex. exact He.
  - unfold Annealing._init_temp_config_list.
    destruct (Annealing.init_groups _ _ _ _) as [e|[[configs sps] t1]];
      cbn [bind ok]; [discriminate|].
    destruct (Annealing.emit _) as [e|[tasks' st3]] eqn:He; cbn [bind];
      [discriminate|].
    intros [= <- <- <-].
    apply Hemit in He as (Hs3 & Hcool3 & HT3 & cs & ex & He).
    cbn in Hs3, Hcool3, HT3, He.
    split; [exact Hs3|]. split; [exact Hcool3|]. split; [left; exact HT3|].
    split; [destruct He as (_ & -> & _); eauto|].
    right. exists cs, ex. exact He.
Qed.

End Engine.

(** X14. In a run of the annealing engine from its construction, the
    temperature is at every time the start temperature multiplied [k]
    times by the cool down rate, for some [k] that does not exceed the
    number of calls; the start temperature and the cool down rate do
    not change. *)
Theorem temperature_is_start_cooled_k_times
    (float_exp : Q -> Q) (start stop cool magnitude : Q)
    (numel : list (string * Z)) (rate : gmap string Q)
    (targets : list Config) (first_id : Z) (st0 final : Annealing.state)
    (fuel : nat) (feedback : list (TaskResult * option Q))
    (t t' : Annealing.tape) (outs : list (list Task))
    (Hinit : Annealing.init start stop cool magnitude numel rate targets
               first_id = ok st0)
    (Hrun : Annealing.run float_exp fuel st0 feedback t
            = ok (outs, final, t')) :
  exists k : nat,
    (k <= length feedback)%nat
    /\ Annealing.current_temperature final = Spec.cooled start cool k
    /\ Annealing.start_temperature final = start
    /\ Annealing.cool_down_rate final = cool.
Proof.
  assert (Hgen : forall feedback (st : Annealing.state) final t t' outs
                        (k0 : nat),
    Annealing.current_temperature st = Spec.cooled start cool k0 ->
    Annealing.start_temperature st = start ->
    Annealing.cool_down_rate st = cool ->
    Annealing.run float_exp fuel st feedback t = ok (outs, final, t') ->
    exists k : nat,
      (k <= k0 + length feedback)%nat
      /\ Annealing.current_temperature final = Spec.cooled start cool k
      /\ Annealing.start_temperature final = start
      /\ Annealing.cool_down_rate final = cool).
  { clear. induction feedback as [|[r sc] feedback IH];
      intros st final t t' outs k0 HT Hs Hc; cbn [Annealing.run].
    - intros [= <- <- <-]. exists k0. split; [lia|auto].
    - destruct (Annealing.generate_tasks _ _ _ _ _) as [e|[[tasks st1] t1]]
        eqn:Hcall; cbn [bind]; [discriminate|].
      destruct (Annealing.run float_exp fuel st1 feedback t1)
        as [e|[[rest st2] t2]] eqn:Hrun; cbn [bind]; [discriminate|].
      intros [= <- <- <-].
      apply generate_tasks_bookkeeping in Hcall
        as (Hs1 & Hc1 & HT1 & _).
      assert (Hstore : Annealing.start_temperature
                         (Annealing.store_score st r sc)
                       = Annealing.start_temperature st
                       /\ Annealing.cool_down_rate
                            (Annealing.store_score st r sc)
                          = Annealing.cool_down_rate st
                       /\ Annealing.current_temperature
                            (Annealing.store_score st r sc)
                          = Annealing.current_temperature st).
      { unfold Annealing.store_score. destruct (result_task_id r); auto. }
      destruct Hstore as (Hss & Hsc & HsT).
      rewrite Hss in Hs1. rewrite Hsc in Hc1, HT1. rewrite HsT in HT1.
      assert (Hs1' : Annealing.start_temperature st1 = start) by congruence.
      assert (Hc1' : Annealing.cool_down_rate st1 = cool) by congruence.
      destruct HT1 as [HT1|HT1].
      + assert (HT1' : Annealing.current_temperature st1
                       = Spec.cooled start cool k0) by congruence.
        destruct (IH st1 st2 t1 t2 rest k0 HT1' Hs1' Hc1' Hrun)
          as (k & Hk & Hrest).
        exists k. split; [cbn [length]; lia|exact Hrest].
      + assert (HT1' : Annealing.current_temperature st1
                       = Spec.cooled start cool (S k0))
          by (cbn [Spec.cooled]; congruence).
        destruct (IH st1 st2 t1 t2 rest (S k0) HT1' Hs1' Hc1' Hrun)
          as (k & Hk & Hrest).
        exists k. split; [cbn [length]; lia|exact Hrest]. }
  unfold Annealing.init in Hinit.
  destruct (Allocator._adjust_target_sparsity numel rate targets)
    as [e|adjusted]; cbn [bind] in Hinit; [discriminate|].
  injection Hinit as <-.
  apply (Hgen feedback _ final t t' outs 0%nat) in Hrun; auto.
Qed.

(** X15. When the exponential of 0 is 1, a candidate whose score equals
    the current score is adopted at every temperature other than 0, for
    every draw below 1: the engine takes one draw, adopts the candidate
    and cools down. *)
Theorem equal_score_is_accepted
    (float_exp : Q -> Q) (st : Annealing.state) (s current u : Q)
    (assignment : list (list Q)) (t : Annealing.tape)
    (Hexp : forall x : Q, x == 0 -> float_exp x == 1)
    (Hassignment : Annealing._current_sparsity_list st = Some assignment)
    (Hcurrent : Annealing._current_score st = Some current)
    (Htie : s == current)
    (Htemperature : ~ Annealing.current_temperature st == 0)
    (Hdraw : u < 1) :
  Annealing.acceptance float_exp st (Some s) (u :: t)
  = ok (Annealing.set_current st (Some s)
          (Annealing.current_temperature st * Annealing.cool_down_rate st),
        t).
Proof.
  unfold Annealing.acceptance. rewrite Hassignment, Hcurrent.
  assert (Hnot : Annealing.Qlt_bool current s = false).
  { destruct (Annealing.Qlt_bool current s) eqn:E; [|reflexivity].
    apply Qlt_bool_iff in E. lra. }
  rewrite Hnot. unfold Annealing.uniform. cbn [Annealing.draws bind ok map].
  assert (Hp : Annealing.acceptance_probability float_exp
                 (Qabs (s - current)) (Annealing.current_temperature st)
               == 1).
  { unfold Annealing.acceptance_probability.
    destruct (Qeq_bool (Annealing.current_temperature st) 0) eqn:E.
    { apply Qeq_bool_iff in E. contradiction. }
    apply Hexp.
    assert (Ha : Qabs (s - current) == 0).
    { assert (E0 : s - current == 0) by lra. rewrite E0. reflexivity. }
    rewrite Ha. field. exact Htemperature. }
  assert (Hlt : Annealing.Qlt_bool (0 + (1 - 0) * u)
                  (Annealing.acceptance_probability float_exp
                     (Qabs (s - current))
                     (Annealing.current_temperature st)) = true).
  { apply Qlt_bool_iff. rewrite Hp. lra. }
  rewrite Hlt. reflexivity.
Qed.

(** X16. A call of the annealing engine that returns gives no task or
    one.  With no task, nothing is written and no id is used.  The one
    task has the next free id and the model and the masks of the
    origin, whatever was run before; the config list written for it is
    the recovery of the candidate that the state then holds; the task
    is entered in the task table and the next id is used. *)
Theorem annealing_task_restarts_from_origin
    (float_exp : Q -> Q) (fuel : nat) (st st' : Annealing.state)
    (r : TaskResult) (t t' : Annealing.tape) (tasks : list Task)
    (Hcall : Annealing.generate_tasks float_exp fuel st r t
             = ok (tasks, st', t')) :
  (tasks = []
   /\ Annealing.writes st' = Annealing.writes st
   /\ Annealing._tasks st' = Annealing._tasks st
   /\ Annealing._task_id_candidate st' = Annealing._task_id_candidate st)
  \/ exists configs exported : list Config,
       let id := Annealing._task_id_candidate st in
       let task := mkTask id (CompactModelPath Origin)
                     (CompactMasksPath Origin) (ConfigListPath id)
                     None None in
       tasks = [task]
       /\ Annealing._temp_config_list st' = Some configs
       /\ Allocator._recover_real_sparsity (Annealing.masked_rate st)
            configs = ok exported
       /\ Annealing.writes st'
          = Annealing.writes st ++ [Dumped (ConfigListPath id) exported]
       /\ Annealing._tasks st' = <[id := task]> (Annealing._tasks st)
       /\ Annealing._task_id_candidate st' = (id + 1)%Z.
Proof.
  apply generate_tasks_bookkeeping in Hcall as (_ & _ & _ & _ & H).
  exact H.
Qed.

(** X17. Once a call of the annealing engine has returned, the engine
    holds a candidate, and a call whose result is the origin, such as a
    second [init_pending_tasks], or names a task that the table does
    not hold, raises a key error. *)
Theorem annealing_origin_only_once
    (float_exp : Q -> Q) (fuel : nat) (st st' : Annealing.state)
    (r : TaskResult) (t t' : Annealing.tape) (tasks : list Task)
    (Hcall : Annealing.generate_tasks float_exp fuel st r t
             = ok (tasks, st', t')) :
  is_Some (Annealing._temp_config_list st')
  /\ (forall (fuel' : nat) (r' : TaskResult) (t2 : Annealing.tape),
        result_task_id r' = Origin
        \/ (exists n, result_task_id r' = Tid n
                      /\ Annealing._tasks st' !! n = None) ->
        Annealing.generate_tasks float_exp fuel' st' r' t2 = raise KeyError)
  /\ (forall (fuel' : nat) (t2 : Annealing.tape),
        Annealing.init_pending_tasks float_exp fuel' st' t2
        = raise KeyError).
Proof.
  apply generate_tasks_bookkeeping in Hcall
    as (_ & _ & _ & [configs Hc] & _).
  split; [eauto|]. split.
  - intros fuel' r' t2 Hr. unfold Annealing.generate_tasks. rewrite Hc.
    unfold Annealing.task_score.
    destruct Hr as [->|(n & -> & ->)]; reflexivity.
  - intros fuel' t2. unfold Annealing.init_pending_tasks,
      Annealing.generate_tasks.
    cbn. rewrite Hc. reflexivity.
Qed.

(** ** Commands and the protocol *)

Section CamelCase.

Import Command.

Lemma has_underscore_app (a b : string) :
  Spec.has_underscore (a ++ b)
  = Spec.has_underscore a || Spec.has_underscore b.
Proof.
  induction a as [|c a IH]; simpl; [reflexivity|].
  rewrite IH. apply orb_assoc.
Qed.

Lemma title_char_not_underscore (c : ascii) (cased : bool) :
  Ascii.eqb c "_" = false ->
  Ascii.eqb (if cased then to_lower c else to_upper c) "_" = false.
Proof.
  destruct c as [[] [] [] [] [] [] [] []]; destruct cased;
    vm_compute; congruence.
Qed.

Lemma title_from_no_underscore (word : string) :
  forall cased : bool,
  Spec.has_underscore word = false ->
  Spec.has_underscore (title_from cased word) = false.
Proof.
  induction word as [|c word IH]; intros cased; cbn [title_from];
    [reflexivity|].
  cbn [Spec.has_underscore]. intros H.
  apply orb_false_iff in H as [Hc Hword].
  destruct (is_upper c || is_lower c); cbn [Spec.has_underscore];
    rewrite IH by exact Hword.
  - rewrite (title_char_not_underscore c cased Hc). reflexivity.
  - rewrite Hc. reflexivity.
Qed.

Lemma split_underscore_words (name : string) :
  Forall (fun word => Spec.has_underscore word = false)
         (split_underscore name)
  /\ split_underscore name <> [].
Proof.
  induction name as [|c name [IH Hne]]; cbn [split_underscore].
  - split; [repeat constructor|discriminate].
  - destruct (Ascii.eqb c "_") eqn:Hc.
    + split; [constructor; [reflexivity|exact IH]|discriminate].
    + destruct (split_underscore name) as [|word words]; [congruence|].
      apply Forall_cons in IH as [Hword Hwords].
      split; [|discriminate]. constructor; [|exact Hwords].
      cbn [Spec.has_underscore]. rewrite Hc, Hword. reflexivity.
Qed.

Lemma split_underscore_none (name : string) :
  Spec.has_underscore name = false -> split_underscore name = [name].
Proof.
  induction name as [|c name IH]; cbn [split_underscore Spec.has_underscore];
    [reflexivity|].
  intros H. apply orb_false_iff in H as [Hc Hname].
  rewrite Hc, (IH Hname). reflexivity.
Qed.

Lemma concat_titles_no_underscore (words : list string) :
  Forall (fun word => Spec.has_underscore word = false) words ->
  Spec.has_underscore (String.concat "" (map title words)) = false.
Proof.
  induction 1 as [|word words Hword _ IH]; [reflexivity|].
  cbn [map String.concat].
  destruct (map title words) as [|w ws] eqn:Hmap.
  - apply title_from_no_underscore, Hword.
  - rewrite !has_underscore_app, IH.
    unfold title. rewrite (title_from_no_underscore word false Hword).
    reflexivity.
Qed.

Lemma append_empty (s : string) : (s ++ "")%string = s.
Proof.
  induction s as [|c s IH]; [reflexivity|].
  change (String c (s ++ "")%string = String c s). now rewrite IH.
Qed.

Lemma camel_case_no_underscore (name : string) :
  Spec.has_underscore (_camel_case name) = false.
Proof.
  unfold _camel_case. destruct (split_underscore_words name) as [Hall _].
  destruct (split_underscore name) as [|first words]; [reflexivity|].
  apply Forall_cons in Hall as [Hfirst Hwords].
  rewrite has_underscore_app, Hfirst.
  apply concat_titles_no_underscore, Hwords.
Qed.

Lemma camel_case_fixed (name : string) :
  Spec.has_underscore name = false -> _camel_case name = name.
Proof.
  intros H. unfold _camel_case. rewrite (split_underscore_none name H).
  apply append_empty.
Qed.

End CamelCase.

(** X18. The camel case key of a field name never holds an underscore;
    a name without an underscore is its own key; and so the key of a
    key is the key itself. *)
Theorem camel_case_is_idempotent (name : string) :
  Spec.has_underscore (Command._camel_case name) = false
  /\ (Spec.has_underscore name = false -> Command._camel_case name = name)
  /\ Command._camel_case (Command._camel_case name)
     = Command._camel_case name.
Proof.
  split; [apply camel_case_no_underscore|].
  split; [apply camel_case_fixed|].
  apply camel_case_fixed, camel_case_no_underscore.
Qed.

(** X19. When the two first declared fields of a class have the same
    camel case key and the input holds that key, [_load] gives the value
    to the first of them and sets the second to [None]: the first pop
    removes the key from the input. *)
Theorem load_fields_sharing_a_key
    (first second : string) (fields : list string)
    (data : gmap string Command.json) (value : Command.json)
    (Hfields : NoDup (first :: second :: fields))
    (Hkey : Command._camel_case first = Command._camel_case second)
    (Hvalue : data !! Command._camel_case first = Some value) :
  exists (obj : gmap string Command.json) (log : list Command.log_entry),
    Command._load (first :: second :: fields) data = ok (obj, log)
    /\ obj !! first = Some value
    /\ obj !! second = Some Command.JNull
    /\ Command.MissingField second
         (delete (Command._camel_case first) data) ∈ log.
Proof.
  apply NoDup_cons in Hfields as [Hfirst Hfields].
  apply NoDup_cons in Hfields as [Hsecond Hfields].
  unfold Command._load. cbn [Command.load_fields].
  destruct (decide (data !! Command._camel_case first = None)) as [E|_];
    [congruence|].
  unfold Command.dict_pop at 1. rewrite Hvalue. cbn [bind ok].
  rewrite <- Hkey.
  destruct (decide (delete (Command._camel_case first) data
                    !! Command._camel_case first = None)) as [_|E];
    [|exfalso; apply E, lookup_delete_eq].
  destruct (load_fields_spec fields
              (delete (Command._camel_case first) data)
              (<[second := Command.JNull]> (<[first := value]> ∅))
              ([] ++ [Command.MissingField second
                        (delete (Command._camel_case first) data)]))
    as (rest & obj & missing & -> & _ & _ & Hother & _).
  cbn [bind ok]. eexists. eexists. split; [reflexivity|].
  assert (Hne : first <> second).
  { intros ->. apply Hfirst. left. }
  split.
  { rewrite Hother by (intros H; apply Hfirst; right; exact H).
    rewrite lookup_insert_ne by congruence. apply lookup_insert_eq. }
  split.
  { rewrite Hother by exact Hsecond. apply lookup_insert_eq. }
  destruct (decide (rest = ∅)); cbn [app]; repeat rewrite elem_of_app;
    repeat rewrite elem_of_cons; auto.
Qed.

(** X20. [InitializeCommand._load] is not fault tolerant as the loader
    of the base class is: it raises a type error when the input has no
    key [config], and when the value of that key is not an object; on
    an object, it gives its members to [ExperimentConfig] and returns
    or raises what that does. *)
Theorem initialize_command_needs_a_config_object
    (V : Type) (ExperimentConfig : list (string * Command.json) -> result V)
    (data : gmap string Command.json) :
  (data !! "config"%string = None ->
   Command.InitializeCommand_load V ExperimentConfig data = raise TypeError)
  /\ (forall value : Command.json,
        data !! "config"%string = Some value ->
        (forall members, value <> Command.JObj members) ->
        Command.InitializeCommand_load V ExperimentConfig data
        = raise TypeError)
  /\ (forall members : list (string * Command.json),
        data !! "config"%string = Some (Command.JObj members) ->
        (forall e, ExperimentConfig members = raise e ->
           Command.InitializeCommand_load V ExperimentConfig data = raise e)
        /\ (forall config, ExperimentConfig members = ok config ->
              exists obj log,
                Command.InitializeCommand_load V ExperimentConfig data
                = ok (obj, config, log))).
Proof.
  assert (Hload : exists obj log,
    Command._load Command.InitializeCommand data = ok (obj, log)
    /\ obj !! "config"%string
       = Some (default Command.JNull (data !! "config"%string))).
  { unfold Command._load.
    destruct (load_fields_spec Command.InitializeCommand data ∅ [])
      as (rest & obj & missing & -> & _ & _ & _ & Hfields).
    cbn [bind ok]. eexists. eexists. split; [reflexivity|].
    apply (Hfields ltac:(apply (bool_decide_unpack _); vm_compute; exact I)
             "config"%string
             ltac:(apply (bool_decide_unpack _); vm_compute; exact I)). }
  destruct Hload as (obj & log & Hload & Hconfig).
  unfold Command.InitializeCommand_load. rewrite Hload. cbn [bind ok].
  rewrite Hconfig. split; [|split].
  - intros ->. reflexivity.
  - intros value -> Hvalue. cbn [default].
    destruct value; try reflexivity. exfalso. eapply Hvalue. reflexivity.
  - intros members Hm. rewrite Hm. simpl. split.
    + intros e He. rewrite He. reflexivity.
    + intros config He. rewrite He. simpl. eauto.
Qed.

(** X21. [send] puts nothing on the out queue: no value of
    [CommandType] starts with the prefix that its assertion asks for, so
    for every command it raises the assertion error. *)
Theorem send_always_fails_its_assertion
    (command : Protocol.CommandType) (data : string)
    (queue : list string) :
  Protocol.send command data queue = raise (AssertionError [])
  /\ String.prefix "from-tuner/" (Protocol.value command) = false.
Proof. destruct command; split; reflexivity. Qed.

(** X22. On an input that holds exactly the camel case keys of the
    declared fields, these keys being pairwise distinct, [_load] logs
    nothing and returns an object with exactly the declared fields, each
    with the value that the input has under its key. *)
Theorem load_of_a_complete_input
    (fields : list string) (data : gmap string Command.json)
    (Hkeys : NoDup (map Command._camel_case fields))
    (Hpresent : forall name, name ∈ fields ->
                  is_Some (data !! Command._camel_case name))
    (Hknown : forall key, is_Some (data !! key) ->
                key ∈ map Command._camel_case fields) :
  exists obj : gmap string Command.json,
    Command._load fields data = ok (obj, [])
    /\ (forall name, name ∈ fields ->
          obj !! name = data !! Command._camel_case name)
    /\ (forall name, name ∉ fields -> obj !! name = None).
Proof.
  unfold Command._load.
  destruct (load_fields_spec fields data ∅ [])
    as (rest & obj & missing & -> & Hrest & Hmissing & Hother & Hfields).
  cbn [bind ok app].
  assert (Hempty : rest = ∅).
  { apply map_eq. intros key. rewrite Hrest, lookup_empty.
    destruct (decide (key ∈ map Command._camel_case fields)) as [_|Hnin];
      [reflexivity|].
    destruct (data !! key) eqn:Hkey; [|reflexivity].
    exfalso. apply Hnin, Hknown. rewrite Hkey. eauto. }
  assert (Hnone : missing = []).
  { destruct missing as [|entry missing]; [reflexivity|]. exfalso.
    apply Forall_cons in Hmissing as [(name & d & -> & Hname) _].
    destruct (Hfields Hkeys name Hname) as [_ Hlog].
    destruct (Hpresent name Hname) as [v Hv].
    assert (data !! Command._camel_case name = None)
      by (apply Hlog; exists d; left).
    congruence. }
  subst. rewrite decide_True by reflexivity.
  exists obj. split; [reflexivity|]. split.
  - intros name Hname. destruct (Hfields Hkeys name Hname) as [-> _].
    destruct (Hpresent name Hname) as [v ->]. reflexivity.
  - intros name Hname. rewrite (Hother name Hname). apply lookup_empty.
Qed.

(** * The theorems at concrete inputs *)

(** One op [conv] of 4 remaining elements, half of it masked before,
    the target 3/4 and the first draw 1/2: the first task exports the
    sparsity 5/8 for the op, not 3/4. *)
Lemma single_op_export_witness :
  0 < 1 # 2 /\ (1 # 2) < 1 /\ (3 # 4) < 1 /\ (0 < 2 < Z.pos 4)%Z
  /\ exists (st0 st1 : Annealing.state) (task : Task)
            (tape' : Annealing.tape) (s : Q),
       Annealing.init 100 20 (9 # 10) (35 # 100) [("conv"%string, 4%Z)]
         {["conv"%string := 1 # 2]} [mkConfig ["conv"%string] (3 # 4)] 0
       = ok st0
       /\ Annealing.init_pending_tasks Scenario.half 1 st0 [2 # 4]
          = ok ([task], st1, tape')
       /\ Annealing.writes st1
          = [Saved (CompactModelPath Origin);
             Saved (CompactMasksPath Origin);
             Dumped (ConfigListPath 0) [mkConfig ["conv"%string] s]]
       /\ s == 5 # 8 /\ s < 3 # 4.
Proof.
  assert (Hm0 : 0 < 1 # 2) by reflexivity.
  assert (Hm1 : (1 # 2) < 1) by reflexivity.
  assert (Ht1 : (3 # 4) < 1) by reflexivity.
  assert (Hk : (0 < 2 < Z.pos 4)%Z) by lia.
  split; [exact Hm0|]. split; [exact Hm1|]. split; [exact Ht1|].
  split; [exact Hk|].
  destruct (single_op_export_misses_target Scenario.half 100 20 (9 # 10)
              (35 # 100) "conv" 4 2 (1 # 2) (3 # 4) 0 [] Hm0 Hm1 Ht1 Hk)
    as (st0 & st1 & task & tape' & exported & Hinit & Hcall & Hwrites
        & _ & Habove).
  destruct Habove as (s & -> & Hs & Hlt); [reflexivity|].
  exists st0, st1, task, tape', s.
  split; [exact Hinit|]. split; [exact Hcall|]. split; [exact Hwrites|].
  split; [rewrite Hs; reflexivity|exact Hlt].
Defined.

Lemma rescale_sparsity_witness :
  length [3 # 8; 1 # 4] = length ["a"%string; "b"%string]
  /\ mapM (dict_get [("a"%string, 4%Z); ("b"%string, 2%Z)])
          ["a"%string; "b"%string] = ok [4%Z; 2%Z]
  /\ Forall (fun w => (0 < w)%Z) [4%Z; 2%Z]
  /\ Forall (fun f => 0 <= f) [3 # 8; 1 # 4]
  /\ exists (sizes : list Z) (sorted_fractions : list Q),
       sizes ≡ₚ [4%Z; 2%Z] /\ StronglySorted Z.le sizes
       /\ sorted_fractions ≡ₚ [3 # 8; 1 # 4]
       /\ StronglySorted Qle sorted_fractions
       /\ (Spec.pruned_elements (combine sizes sorted_fractions) = 0%Z <->
           Allocator._rescale_sparsity [("a"%string, 4%Z); ("b"%string, 2%Z)]
             [3 # 8; 1 # 4] (1 # 2) ["a"%string; "b"%string] = ok None)
       /\ (Spec.pruned_elements (combine sizes sorted_fractions) <> 0%Z ->
           Allocator._rescale_sparsity [("a"%string, 4%Z); ("b"%string, 2%Z)]
             [3 # 8; 1 # 4] (1 # 2) ["a"%string; "b"%string]
           = ok (Some (map (fun f =>
                              f * Spec.scale (1 # 2)
                                    (combine sizes sorted_fractions))
                           sorted_fractions))).
Proof.
  refine ((fun Hlen Hws Hpos Hnonneg =>
             conj Hlen (conj Hws (conj Hpos (conj Hnonneg
               (rescale_sparsity_none_iff_nothing_pruned
                  [("a"%string, 4%Z); ("b"%string, 2%Z)]
                  [3 # 8; 1 # 4] (1 # 2) ["a"%string; "b"%string]
                  [4%Z; 2%Z] Hlen Hws Hpos Hnonneg)))))
            _ _ _ _).
  - reflexivity.
  - reflexivity.
  - repeat constructor.
  - repeat constructor; vm_compute; discriminate.
Defined.

Lemma rescaled_fraction_witness :
  length [3 # 8] = length ["a"%string]
  /\ mapM (dict_get [("a"%string, 4%Z)]) ["a"%string] = ok [4%Z]
  /\ Forall (fun w => (0 < w)%Z) [4%Z]
  /\ Forall (fun f => 0 <= f) [3 # 8]
  /\ Spec.pruned_elements (combine (sorted_Z [4%Z]) (sorted_Q [3 # 8])) <> 0%Z
  /\ exists v : list Q,
       Allocator._rescale_sparsity [("a"%string, 4%Z)] [3 # 8] (1 # 2)
         ["a"%string] = ok (Some v)
       /\ Spec.weighted_fraction (sorted_Z [4%Z]) v
          == (1 # 2)
             * (Spec.weighted_sum (combine (sorted_Z [4%Z]) (sorted_Q [3 # 8]))
                / inject_Z (Spec.pruned_elements
                              (combine (sorted_Z [4%Z]) (sorted_Q [3 # 8])))).
Proof.
  refine ((fun Hlen Hws Hpos Hnonneg Hpruned =>
             conj Hlen (conj Hws (conj Hpos (conj Hnonneg (conj Hpruned
               match rescaled_fraction_is_target_up_to_floor
                       [("a"%string, 4%Z)] [3 # 8] (1 # 2) ["a"%string]
                       [4%Z] Hlen Hws Hpos Hnonneg Hpruned
               with
               | ex_intro _ v (conj Hv (conj Hfrac _)) =>
                   ex_intro _ v (conj Hv Hfrac)
               end)))))
            _ _ _ _ _).
  - reflexivity.
  - reflexivity.
  - repeat constructor.
  - repeat constructor; vm_compute; discriminate.
  - vm_compute. discriminate.
Defined.


Lemma generate_config_list_witness :
  10%Z <> 0%Z
  /\ Forall (fun mo => ~ total_sparsity mo == 1) [mkConfig ["a"%string] (1 # 5)]
  /\ exists configs : list Config,
       Schedule.generate_config_list (fun _ _ => 0) Schedule.AGP 10
         [mkConfig ["a"%string] (1 # 2)] 5 [mkConfig ["a"%string] (1 # 5)]
       = ok configs
       /\ Forall2 (fun entry tm =>
                     op_names entry = op_names (fst tm)
                     /\ total_sparsity entry
                        == Spec.incremental_sparsity
                             (Spec.cumulative_target (fun _ _ => 0)
                                Schedule.AGP 5 10 (total_sparsity (fst tm)))
                             (total_sparsity (snd tm)))
                  configs
                  (combine [mkConfig ["a"%string] (1 # 2)]
                           [mkConfig ["a"%string] (1 # 5)]).
Proof.
  refine ((fun Htotal Hc2o Hrange =>
             conj Htotal (conj Hc2o
               (proj1 (generate_config_list_incremental_or_abort
                         (fun _ _ => 0) Schedule.AGP 5 10
                         [mkConfig ["a"%string] (1 # 2)]
                         [mkConfig ["a"%string] (1 # 5)] Htotal Hc2o)
                      Hrange)))
            _ _ _).
  - discriminate.
  - repeat constructor. intros H. vm_compute in H. discriminate H.
  - repeat constructor; vm_compute; discriminate.
Defined.

Lemma one_task_per_iteration_witness :
  exists (outs : list (list Task)) (final : Schedule.state),
    Schedule.run (fun _ _ => 0) Schedule.AGP
      (Schedule.init Schedule.AGP 1 [mkConfig ["a"%string] (1 # 2)] 0)
      [Scenario.achieved Origin 0; Scenario.achieved (Tid 0) 0;
       Scenario.achieved (Tid 1) (1 # 2)]
    = ok (outs, final)
    /\ length outs = 3%nat
    /\ forall (j : nat) (r : TaskResult) (tasks : list Task),
         [Scenario.achieved Origin 0; Scenario.achieved (Tid 0) 0;
          Scenario.achieved (Tid 1) (1 # 2)] !! j = Some r ->
         outs !! j = Some tasks ->
         ((1 < 0 + Z.of_nat j)%Z -> tasks = [])
         /\ ((0 + Z.of_nat j <= 1)%Z ->
             exists (task : Task) (configs : list Config),
               tasks = [task]
               /\ Schedule.generate_config_list (fun _ _ => 0) Schedule.AGP 1
                    [mkConfig ["a"%string] (1 # 2)] (0 + Z.of_nat j)
                    (compact2origin r) = ok configs
               /\ Dumped (config_list_path task) configs
                  ∈ Schedule.writes final).
Proof.
  eexists. eexists.
  refine ((fun Hrun =>
             conj Hrun
               match one_task_per_iteration_until_total (fun _ _ => 0)
                       Schedule.AGP 1 0 [mkConfig ["a"%string] (1 # 2)]
                       [Scenario.achieved Origin 0;
                        Scenario.achieved (Tid 0) 0;
                        Scenario.achieved (Tid 1) (1 # 2)] _ _ Hrun
               with
               | conj _ (conj _ (conj Hlen Hall)) => conj Hlen Hall
               end) _).
  vm_compute. reflexivity.
Defined.

Lemma strict_improvement_witness :
  Annealing._current_sparsity_list Scenario.warm = Some [[1 # 2]]
  /\ Annealing._current_score Scenario.warm = Some 0
  /\ 0 < 1
  /\ forall t : Annealing.tape,
       exists st1 : Annealing.state,
         Annealing.acceptance Scenario.half Scenario.warm (Some 1) t
         = ok (st1, t)
         /\ Spec.adopted Scenario.warm st1 1
         /\ Annealing.current_temperature st1
            = Annealing.current_temperature Scenario.warm
              * Annealing.cool_down_rate Scenario.warm.
Proof.
  refine ((fun Ha Hc Hb =>
             conj Ha (conj Hc (conj Hb
               (fun t => proj1 (strict_improvement_is_accepted Scenario.half
                                  Scenario.warm 1 0 [[1 # 2]] Ha Hc Hb t)))))
            _ _ _); reflexivity.
Defined.

Lemma temperature_cools_witness :
  0 < Annealing.cool_down_rate Scenario.warm
  /\ Annealing.cool_down_rate Scenario.warm <= 1
  /\ 0 <= Annealing.current_temperature Scenario.warm
  /\ is_Some (Annealing._temp_config_list Scenario.warm)
  /\ Annealing.task_score Scenario.warm (Scenario.result_of 0) = ok (Some 1)
  /\ Annealing.acceptance Scenario.half Scenario.warm (Some 1) []
     = ok (Annealing.set_current Scenario.warm (Some 1) (100 * (9 # 10)), [])
  /\ (Spec.accepted_by_rule Scenario.half Scenario.warm 1 [] ->
      Annealing.current_temperature
        (Annealing.set_current Scenario.warm (Some 1) (100 * (9 # 10)))
      = Annealing.current_temperature Scenario.warm
        * Annealing.cool_down_rate Scenario.warm
      /\ Spec.adopted Scenario.warm
           (Annealing.set_current Scenario.warm (Some 1) (100 * (9 # 10))) 1)
  /\ Annealing.current_temperature
       (Annealing.set_current Scenario.warm (Some 1) (100 * (9 # 10)))
     <= Annealing.current_temperature Scenario.warm.
Proof.
  refine ((fun H0 H1 Ht Hcand Hscore Hacc =>
             conj H0 (conj H1 (conj Ht (conj Hcand (conj Hscore (conj Hacc
               match temperature_cools_when_the_rule_accepts Scenario.half
                       Scenario.warm
                       (Annealing.set_current Scenario.warm (Some 1)
                          (100 * (9 # 10)))
                       (Scenario.result_of 0) 1 [] [] H0 H1 Ht Hcand Hscore
                       Hacc
               with
               | conj Hrule (conj _ (conj Hle _)) => conj Hrule Hle
               end))))))
            _ _ _ _ _ _).
  - reflexivity.
  - vm_compute. discriminate.
  - vm_compute. discriminate.
  - eexists. reflexivity.
  - reflexivity.
  - reflexivity.
Defined.

Lemma zero_sparsity_groups_witness :
  Annealing.init 100 20 (9 # 10) (35 # 100) Scenario.numel2 ∅
    Scenario.targets2 0 = ok Scenario.two_groups
  /\ exists (final : Annealing.state) (outs : list (list Task))
            (t' : Annealing.tape),
       Annealing.run Scenario.half 1 Scenario.two_groups
         [(Scenario.origin, None)] [1 # 2]
       = ok (outs, final, t')
       /\ (forall configs : list Config,
             Annealing._temp_config_list final = Some configs ->
             Forall (Spec.from_nonzero_group Scenario.targets2) configs
             /\ Spec.zero_groups_empty Scenario.targets2
                  (Annealing._temp_sparsity_list final))
       /\ (forall (p : path) (configs : list Config),
             Dumped p configs ∈ Annealing.writes final ->
             Forall (Spec.from_nonzero_group Scenario.targets2) configs).
Proof.
  split; [reflexivity|]. do 3 eexists.
  refine ((fun Hrun =>
             conj Hrun
               match zero_sparsity_groups_emit_nothing Scenario.half 100 20
                       (9 # 10) (35 # 100) Scenario.numel2 ∅
                       Scenario.targets2 0 Scenario.two_groups _ 1
                       [(Scenario.origin, None)] [1 # 2] _ _ eq_refl Hrun
               with
               | conj _ (conj Htemp (conj _ Hw)) => conj Htemp Hw
               end) _).
  vm_compute. reflexivity.
Defined.

Lemma load_witness :
  NoDup (map Command._camel_case Command.KillTrialJobCommand)
  /\ exists (obj rest : gmap string Command.json)
            (missing : list Command.log_entry),
       Command._load Command.KillTrialJobCommand
         {[ "channel"%string := Command.JStr "from-algo";
            "trialJobId"%string := Command.JStr "x";
            "zzz"%string := Command.JNull ]}
       = ok (obj, if decide (rest = ∅) then missing
                  else missing ++ [Command.UnrecognizedFields rest])
       /\ obj !! "trial_job_id"%string = Some (Command.JStr "x")
       /\ obj !! "command_type"%string = Some Command.JNull.
Proof.
  refine ((fun Hnd =>
             conj Hnd
               match load_never_raises Command.KillTrialJobCommand
                       {[ "channel"%string := Command.JStr "from-algo";
                          "trialJobId"%string := Command.JStr "x";
                          "zzz"%string := Command.JNull ]}
               with
               | ex_intro _ obj (ex_intro _ rest (ex_intro _ missing
                   (conj Hload (conj _ (conj _ (conj _ Hfields)))))) =>
                   ex_intro _ obj (ex_intro _ rest (ex_intro _ missing
                     (conj Hload
                        (conj (proj1 (proj2 (Hfields Hnd "trial_job_id"%string _)
                                        (Command.JStr "x") _))
                              (proj1 (proj1 (Hfields Hnd "command_type"%string _)
                                        _))))))
               end) _);
    first [ vm_compute; reflexivity
          | apply (bool_decide_unpack _); vm_compute; exact I ].
Defined.

(** * The further properties at concrete inputs *)

Lemma recover_real_sparsity_witness :
  let rate : gmap string Q := {["a"%string := 1 # 2]} in
  let configs : list Config := [mkConfig ["a"%string] (1 # 4); mkConfig ["b"%string] (1 # 3)] in
  (Forall (fun c => length (op_names c) = 1%nat) configs)
  /\
  (exists exported : list Config,
    Allocator._recover_real_sparsity rate configs = ok exported
    /\ Forall2
         (fun c e =>
            op_names e = op_names c
            /\ (forall n, op_names c = [n] -> rate !! n = None -> e = c)
            /\ (forall n m, op_names c = [n] -> rate !! n = Some m ->
                  total_sparsity e = m + total_sparsity c * (1 - m)
                  /\ (0 <= m <= 1 -> 0 <= total_sparsity c <= 1 ->
                      m <= total_sparsity e <= 1)
                  /\ (m < 1 -> total_sparsity c < 1 ->
                      total_sparsity e < 1)))
         configs exported).
Proof.
  intros rate configs.
  refine ((fun Hsingle =>
    conj Hsingle (recover_real_sparsity_between_mask_and_one rate configs Hsingle))
    _).
  - repeat constructor.
Defined.

Lemma adjust_zero_division_witness :
  let numel : list (string * Z) := [("a"%string, 4%Z)] in
  let rate : gmap string Q := {["a"%string := 0]} in
  let targets : list Config := [mkConfig ["a"%string] (1 # 2)] in
  (Forall (fun config => Forall (fun n => exists w, dict_get numel n = ok w) (op_names config)) targets)
  /\
  (Exists (fun config => Exists (fun n => exists m, rate !! n = Some m /\ (m == 0 \/ m == 1)) (op_names config)) targets)
  /\
  (Allocator._adjust_target_sparsity numel rate targets
  = raise ZeroDivisionError).
Proof.
  intros numel rate targets.
  refine ((fun Hkeys Hbad =>
    conj Hkeys (conj Hbad (adjust_target_sparsity_zero_division numel rate targets Hkeys Hbad)))
    _ _).
  - repeat econstructor.
  - left. left. exists 0. split; [reflexivity|left; reflexivity].
Defined.

Lemma adjust_config_witness :
  let numel : list (string * Z) := [("a"%string, 4%Z); ("b"%string, 2%Z)] in
  let rate : gmap string Q := {["a"%string := 1 # 2]} in
  let config : Config := mkConfig ["a"%string; "b"%string] (3 # 4) in
  (op_names config <> [])
  /\
  (Forall (fun n => exists w, dict_get numel n = ok w /\ (0 < w)%Z) (op_names config))
  /\
  (Forall (fun n => forall m, rate !! n = Some m -> 0 < m /\ m < 1) (op_names config))
  /\
  (exists config' : Config,
    Allocator.adjust_config numel rate config = ok config'
    /\ op_names config' = op_names config
    /\ 0 <= total_sparsity config'
    /\ total_sparsity config - 1 < total_sparsity config'
    /\ (0 <= total_sparsity config ->
        total_sparsity config' <= total_sparsity config)
    /\ (Forall (fun n => rate !! n = None) (op_names config) ->
        0 <= total_sparsity config ->
        total_sparsity config' == total_sparsity config)).
Proof.
  intros numel rate config.
  refine ((fun Hnonempty Hkeys Hrate =>
    conj Hnonempty (conj Hkeys (conj Hrate (adjust_config_target_bounds numel rate config Hnonempty Hkeys Hrate))))
    _ _ _).
  - discriminate.
  - repeat econstructor.
  - constructor; [|constructor; [|constructor]]; intros m Hm; vm_compute in Hm; try discriminate Hm; injection Hm as <-; split; reflexivity.
Defined.

Lemma empty_group_witness :
  let numel : list (string * Z) := [] in
  let config : Config := mkConfig [] (1 # 2) in
  (op_names config = [])
  /\
  (~ total_sparsity config == 0)
  /\
  (forall (fuel : nat) (t : Annealing.tape),
    Annealing._init_config_sparsity numel fuel config t = raise Exhausted).
Proof.
  intros numel config.
  refine ((fun Hempty Htarget =>
    conj Hempty (conj Htarget (init_config_sparsity_empty_group_never_ends numel config Hempty Htarget)))
    _ _).
  - reflexivity.
  - intros H; vm_compute in H; discriminate H.
Defined.

Lemma accepted_candidates_witness :
  let numel : list (string * Z) := [("a"%string, 10%Z)] in
  let config : Config := mkConfig ["a"%string] (1 # 2) in
  let ws : list Z := [10%Z] in
  (mapM (dict_get numel) (op_names config) = ok ws)
  /\
  (Forall (fun w => (0 < w)%Z) ws)
  /\
  (0 <= total_sparsity config)
  /\
  ((forall (fuel : nat) (t t' : Annealing.tape) (v : list Q),
     Forall (fun u => 0 <= u) t ->
     Annealing.init_loop numel fuel config t = ok (v, t') ->
     length v = length (op_names config)
     /\ StronglySorted Qle v
     /\ Forall (fun x => 0 <= x /\ x < 1) v)
  /\ (forall (fuel : nat) (magnitude : Q) (current : list Q)
             (t t' : Annealing.tape) (v : list Q),
        Annealing.perturb_loop numel fuel magnitude config current t
        = ok (v, t') ->
        length v = length (op_names config)
        /\ StronglySorted Qle v
        /\ Forall (fun x => 0 <= x /\ x < 1) v)).
Proof.
  intros numel config ws.
  refine ((fun Hws Hpos Htarget =>
    conj Hws (conj Hpos (conj Htarget (accepted_candidates_in_unit_interval numel config ws Hws Hpos Htarget))))
    _ _ _).
  - reflexivity.
  - repeat constructor.
  - vm_compute; discriminate.
Defined.

Lemma incremental_sparsity_witness :
  let float_pow : Q -> Q -> Q := fun _ _ => 0 in
  let k : Schedule.kind := Schedule.AGP in
  let iteration : Z := 5%Z in
  let total : Z := 10%Z in
  let targets : list Config := [mkConfig ["a"%string] (1 # 2)] in
  let c2o : list Config := [mkConfig ["a"%string] (1 # 5)] in
  let configs : list Config := Scenario.get [] (Schedule.generate_config_list (fun _ _ => 0) Schedule.AGP 10 [mkConfig ["a"%string] (1 # 2)] 5 [mkConfig ["a"%string] (1 # 5)]) in
  (Forall (fun mo => total_sparsity mo < 1) c2o)
  /\
  (Schedule.generate_config_list float_pow k total targets iteration c2o = ok configs)
  /\
  (Forall2
    (fun entry tm =>
       let C := Spec.cumulative_target float_pow k iteration total
                  (total_sparsity (fst tm)) in
       let A := total_sparsity (snd tm) in
       let S := total_sparsity entry in
       op_names entry = op_names (fst tm)
       /\ (A <= C -> 1 - (1 - A) * (1 - S) == C)
       /\ (C <= A -> S == 0))
    configs (combine targets c2o)).
Proof.
  intros float_pow k iteration total targets c2o configs.
  refine ((fun Hc2o Hgen =>
    conj Hc2o (conj Hgen (incremental_sparsity_composes float_pow k iteration total targets c2o configs Hc2o Hgen)))
    _ _).
  - constructor; [reflexivity|constructor].
  - vm_compute; reflexivity.
Defined.

Lemma agp_linear_returns_witness :
  let float_pow : Q -> Q -> Q := fun _ _ => 0 in
  let k : Schedule.kind := Schedule.AGP in
  let iteration : Z := 5%Z in
  let total : Z := 10%Z in
  let targets : list Config := [mkConfig ["a"%string] (1 # 2)] in
  let c2o : list Config := [mkConfig ["a"%string] (1 # 5)] in
  (k <> Schedule.LotteryTicket)
  /\
  ((0 <= iteration <= total)%Z)
  /\
  ((0 < total)%Z)
  /\
  (Forall (fun target => 0 <= total_sparsity target <= 1) targets)
  /\
  (Forall (fun mo => 0 <= total_sparsity mo < 1) c2o)
  /\
  (exists configs : list Config,
    Schedule.generate_config_list float_pow k total targets iteration c2o
    = ok configs
    /\ length configs = Nat.min (length targets) (length c2o)
    /\ Forall (fun entry => 0 <= total_sparsity entry <= 1) configs).
Proof.
  intros float_pow k iteration total targets c2o.
  refine ((fun Hk Hiteration Htotal Htargets Hc2o =>
    conj Hk (conj Hiteration (conj Htotal (conj Htargets (conj Hc2o (agp_linear_config_list_returns float_pow k iteration total targets c2o Hk Hiteration Htotal Htargets Hc2o))))))
    _ _ _ _ _).
  - discriminate.
  - lia.
  - reflexivity.
  - constructor; [split; vm_compute; discriminate|constructor].
  - constructor; [split; [vm_compute; discriminate|reflexivity]|constructor].
Defined.

Lemma total_iteration_zero_witness :
  let float_pow : Q -> Q -> Q := fun _ _ => 0 in
  let k : Schedule.kind := Schedule.AGP in
  let first_id : Z := 0%Z in
  let targets : list Config := [mkConfig ["a"%string] (1 # 2)] in
  let c2o : list Config := [mkConfig ["a"%string] (1 # 5)] in
  let current : list Config := [] in
  (targets <> [])
  /\
  (c2o <> [])
  /\
  ((forall iteration : Z,
     Schedule.generate_config_list float_pow k 0 targets iteration c2o
     = raise ZeroDivisionError)
  /\ (k <> Schedule.LotteryTicket ->
      Schedule.init_pending_tasks float_pow k
        (Schedule.init k 0 targets first_id) current c2o
      = raise ZeroDivisionError)
  /\ (k = Schedule.LotteryTicket ->
      exists st', Schedule.init_pending_tasks float_pow k
                    (Schedule.init k 0 targets first_id) current c2o
                  = ok ([], st'))).
Proof.
  intros float_pow k first_id targets c2o current.
  refine ((fun Htargets Hc2o =>
    conj Htargets (conj Hc2o (total_iteration_zero float_pow k first_id targets c2o current Htargets Hc2o)))
    _ _).
  - discriminate.
  - discriminate.
Defined.

Lemma task_ids_witness :
  let float_pow : Q -> Q -> Q := fun _ _ => 0 in
  let k : Schedule.kind := Schedule.AGP in
  let N : Z := 1%Z in
  let first_id : Z := 0%Z in
  let targets : list Config := [mkConfig ["a"%string] (1 # 2)] in
  let rs : list TaskResult := Scenario.feedback3 in
  let outs : list (list Task) := fst Scenario.agp1_run in
  let final : Schedule.state := snd Scenario.agp1_run in
  (Schedule.run float_pow k (Schedule.init k N targets first_id) rs = ok (outs, final))
  /\
  ((forall (i : nat) (task : Task),
     concat outs !! i = Some task ->
     task_id task = (first_id + Z.of_nat i)%Z)
  /\ Schedule._task_id_candidate final
     = (first_id + Z.of_nat (length (concat outs)))%Z
  /\ forall n : Z,
       is_Some (Schedule._tasks final !! n)
       <-> (first_id <= n < Schedule._task_id_candidate final)%Z).
Proof.
  intros float_pow k N first_id targets rs outs final.
  refine ((fun Hrun =>
    conj Hrun (function_based_task_ids_are_consecutive float_pow k N first_id targets rs outs final Hrun))
    _).
  - vm_compute; reflexivity.
Defined.

Lemma equal_score_witness :
  let float_exp : Q -> Q := fun _ => 1 in
  let st : Annealing.state := Scenario.warm in
  let s : Q := 0 in
  let current : Q := 0 in
  let u : Q := 1 # 2 in
  let assignment : list (list Q) := [[1 # 2]] in
  let t : Annealing.tape := [] in
  (forall x : Q, x == 0 -> float_exp x == 1)
  /\
  (Annealing._current_sparsity_list st = Some assignment)
  /\
  (Annealing._current_score st = Some current)
  /\
  (s == current)
  /\
  (~ Annealing.current_temperature st == 0)
  /\
  (u < 1)
  /\
  (Annealing.acceptance float_exp st (Some s) (u :: t)
  = ok (Annealing.set_current st (Some s)
          (Annealing.current_temperature st * Annealing.cool_down_rate st),
        t)).
Proof.
  intros float_exp st s current u assignment t.
  refine ((fun Hexp Hassignment Hcurrent Htie Htemperature Hdraw =>
    conj Hexp (conj Hassignment (conj Hcurrent (conj Htie (conj Htemperature (conj Hdraw (equal_score_is_accepted float_exp st s current u assignment t Hexp Hassignment Hcurrent Htie Htemperature Hdraw)))))))
    _ _ _ _ _ _).
  - intros x _; reflexivity.
  - reflexivity.
  - reflexivity.
  - reflexivity.
  - intros H; vm_compute in H; discriminate H.
  - reflexivity.
Defined.

Lemma annealing_task_witness :
  let float_exp : Q -> Q := Scenario.half in
  let fuel : nat := 1%nat in
  let st : Annealing.state := Scenario.two_groups in
  let st' : Annealing.state := snd (fst Scenario.first_call) in
  let r : TaskResult := Scenario.origin in
  let t : Annealing.tape := [1 # 2] in
  let t' : Annealing.tape := snd Scenario.first_call in
  let tasks : list Task := fst (fst Scenario.first_call) in
  (Annealing.generate_tasks float_exp fuel st r t = ok (tasks, st', t'))
  /\
  ((tasks = []
   /\ Annealing.writes st' = Annealing.writes st
   /\ Annealing._tasks st' = Annealing._tasks st
   /\ Annealing._task_id_candidate st' = Annealing._task_id_candidate st)
  \/ exists configs exported : list Config,
       let id := Annealing._task_id_candidate st in
       let task := mkTask id (CompactModelPath Origin)
                     (CompactMasksPath Origin) (ConfigListPath id)
                     None None in
       tasks = [task]
       /\ Annealing._temp_config_list st' = Some configs
       /\ Allocator._recover_real_sparsity (Annealing.masked_rate st)
            configs = ok exported
       /\ Annealing.writes st'
          = Annealing.writes st ++ [Dumped (ConfigListPath id) exported]
       /\ Annealing._tasks st' = <[id := task]> (Annealing._tasks st)
       /\ Annealing._task_id_candidate st' = (id + 1)%Z).
Proof.
  intros float_exp fuel st st' r t t' tasks.
  refine ((fun Hcall =>
    conj Hcall (annealing_task_restarts_from_origin float_exp fuel st st' r t t' tasks Hcall))
    _).
  - vm_compute; reflexivity.
Defined.

Lemma annealing_origin_witness :
  let float_exp : Q -> Q := Scenario.half in
  let fuel : nat := 1%nat in
  let st : Annealing.state := Scenario.two_groups in
  let st' : Annealing.state := snd (fst Scenario.first_call) in
  let r : TaskResult := Scenario.origin in
  let t : Annealing.tape := [1 # 2] in
  let t' : Annealing.tape := snd Scenario.first_call in
  let tasks : list Task := fst (fst Scenario.first_call) in
  (Annealing.generate_tasks float_exp fuel st r t = ok (tasks, st', t'))
  /\
  (is_Some (Annealing._temp_config_list st')
  /\ (forall (fuel' : nat) (r' : TaskResult) (t2 : Annealing.tape),
        result_task_id r' = Origin
        \/ (exists n, result_task_id r' = Tid n
                      /\ Annealing._tasks st' !! n = None) ->
        Annealing.generate_tasks float_exp fuel' st' r' t2 = raise KeyError)
  /\ (forall (fuel' : nat) (t2 : Annealing.tape),
        Annealing.init_pending_tasks float_exp fuel' st' t2
        = raise KeyError)).
Proof.
  intros float_exp fuel st st' r t t' tasks.
  refine ((fun Hcall =>
    conj Hcall (annealing_origin_only_once float_exp fuel st st' r t t' tasks Hcall))
    _).
  - vm_compute; reflexivity.
Defined.

Lemma sharing_a_key_witness :
  let first : string := "a_b"%string in
  let second : string := "aB"%string in
  let fields : list string := [] in
  let data : gmap string Command.json := {["aB"%string := Command.JNum 1]} in
  let value : Command.json := Command.JNum 1 in
  (NoDup (first :: second :: fields))
  /\
  (Command._camel_case first = Command._camel_case second)
  /\
  (data !! Command._camel_case first = Some value)
  /\
  (exists (obj : gmap string Command.json) (log : list Command.log_entry),
    Command._load (first :: second :: fields) data = ok (obj, log)
    /\ obj !! first = Some value
    /\ obj !! second = Some Command.JNull
    /\ Command.MissingField second
         (delete (Command._camel_case first) data) ∈ log).
Proof.
  intros first second fields data value.
  refine ((fun Hfields Hkey Hvalue =>
    conj Hfields (conj Hkey (conj Hvalue (load_fields_sharing_a_key first second fields data value Hfields Hkey Hvalue))))
    _ _ _).
  - apply (bool_decide_unpack _); vm_compute; exact I.
  - reflexivity.
  - reflexivity.
Defined.

Lemma complete_input_witness :
  let fields : list string := Command.KillTrialJobCommand in
  let data : gmap string Command.json := {["channel"%string := Command.JStr "from-algo"; "commandType"%string := Command.JStr "kill-trial-job"; "trialJobId"%string := Command.JStr "x"]} in
  (NoDup (map Command._camel_case fields))
  /\
  (forall name, name ∈ fields -> is_Some (data !! Command._camel_case name))
  /\
  (forall key, is_Some (data !! key) -> key ∈ map Command._camel_case fields)
  /\
  (exists obj : gmap string Command.json,
    Command._load fields data = ok (obj, [])
    /\ (forall name, name ∈ fields ->
          obj !! name = data !! Command._camel_case name)
    /\ (forall name, name ∉ fields -> obj !! name = None)).
Proof.
  intros fields data.
  refine ((fun Hkeys Hpresent Hknown =>
    conj Hkeys (conj Hpresent (conj Hknown (load_of_a_complete_input fields data Hkeys Hpresent Hknown))))
    _ _ _).
  - apply (bool_decide_unpack _); vm_compute; exact I.
  - intros name Hname; unfold fields, Command.KillTrialJobCommand in Hname; rewrite !elem_of_cons in Hname; destruct Hname as [->|[->|[->|Hname]]]; [eexists; reflexivity..|inversion Hname].
  - intros key Hkey; apply elem_of_dom in Hkey; unfold data in Hkey; rewrite !dom_insert_L, dom_singleton_L in Hkey; rewrite !elem_of_union, !elem_of_singleton in Hkey; destruct Hkey as [ -> | [ -> | -> ] ]; apply (bool_decide_unpack _); vm_compute; exact I.
Defined.

(** At the iteration 0 of 10, AGP and Linear ask for the sparsity 0 of a
    group with the target 1/2 of which 1/5 is achieved; and at the
    iteration 10 of 10 the three schedules are at the target, the power
    being one that takes the exponent 1 to the base. *)
Lemma first_and_last_iteration_witness :
  let targets : list Config := [mkConfig ["a"%string] (1 # 2)] in
  let c2o : list Config := [mkConfig ["a"%string] (1 # 5)] in
  let at_first (k : Schedule.kind) : Prop :=
    exists configs : list Config,
      Schedule.generate_config_list Scenario.pow1 k 10 targets 0 c2o
      = ok configs
      /\ Forall2 (fun entry tm => op_names entry = op_names (fst tm)
                                  /\ total_sparsity entry == 0)
                 configs (combine targets c2o) in
  let at_last (k : Schedule.kind) : Prop :=
    forall T : Q,
      exists c : Q,
        Schedule.ori_sparsity Scenario.pow1 k 10 10 T = ok c /\ c == T in
  10%Z <> 0%Z
  /\ Forall (fun mo => 0 <= total_sparsity mo < 1) c2o
  /\ (forall x e : Q, e == 1 -> Scenario.pow1 x e == x)
  /\ at_first Schedule.AGP /\ at_first Schedule.Linear
  /\ at_last Schedule.AGP /\ at_last Schedule.Linear
  /\ at_last Schedule.LotteryTicket.
Proof.
  intros targets c2o at_first at_last.
  refine ((fun Htotal Hc2o Hpow =>
    conj Htotal (conj Hc2o (conj Hpow
      (conj (proj1 (schedules_at_first_and_last_iteration Scenario.pow1
                      Schedule.AGP 10 targets c2o Htotal Hc2o) _)
      (conj (proj1 (schedules_at_first_and_last_iteration Scenario.pow1
                      Schedule.Linear 10 targets c2o Htotal Hc2o) _)
      (conj (proj2 (schedules_at_first_and_last_iteration Scenario.pow1
                      Schedule.AGP 10 targets c2o Htotal Hc2o) Hpow)
      (conj (proj2 (schedules_at_first_and_last_iteration Scenario.pow1
                      Schedule.Linear 10 targets c2o Htotal Hc2o) Hpow)
            (proj2 (schedules_at_first_and_last_iteration Scenario.pow1
                      Schedule.LotteryTicket 10 targets c2o Htotal Hc2o)
                   Hpow))))))))
    _ _ _).
  - discriminate.
  - discriminate.
  - discriminate.
  - constructor; [split; [vm_compute; discriminate|reflexivity]|constructor].
  - intros x e He. unfold Scenario.pow1.
    apply Qeq_bool_iff in He. rewrite He. reflexivity.
Defined.

(** The generator of one iteration after its first call: the task 0 is
    in the table, its result comes back, the call returns and the
    metrics of the result are on the task. *)
Lemma result_is_recorded_witness :
  let float_pow : Q -> Q -> Q := fun _ _ => 0 in
  let st : Schedule.state := snd Scenario.agp1_first in
  let r : TaskResult := Scenario.achieved (Tid 0) (1 # 4) in
  let called : list Task * Schedule.state :=
    Scenario.get ([], st)
      (Schedule.generate_tasks float_pow Schedule.AGP st r) in
  result_task_id r = Tid 0
  /\ Schedule._tasks st !! Schedule._task_id_candidate st = None
  /\ Schedule.generate_tasks float_pow Schedule.AGP st r
     = ok (fst called, snd called)
  /\ exists t : Task,
       Schedule._tasks st !! 0%Z = Some t
       /\ Schedule._tasks (snd called) !! 0%Z
          = Some (set_current2origin t (current2origin r)).
Proof.
  intros float_pow st r called.
  refine ((fun Hr Hfree Hcall =>
    conj Hr (conj Hfree (conj Hcall
      (proj2 (function_based_result_is_recorded float_pow Schedule.AGP st r
                0%Z Hr)
             (fst called) (snd called) Hfree Hcall))))
    _ _ _).
  - reflexivity.
  - vm_compute; reflexivity.
  - vm_compute; reflexivity.
Defined.

(** Three rounds of the engine of two groups: the first score is
    adopted as it is, the second is better and cools the temperature
    once, from 100 to 90. *)
Lemma temperature_cooled_witness :
  let st0 : Annealing.state := Scenario.two_groups in
  let outs : list (list Task) := fst (fst Scenario.three_rounds) in
  let final : Annealing.state := snd (fst Scenario.three_rounds) in
  let t' : Annealing.tape := snd Scenario.three_rounds in
  Annealing.init 100 20 (9 # 10) (35 # 100) Scenario.numel2 ∅
    Scenario.targets2 0 = ok st0
  /\ Annealing.run Scenario.half 1 st0 Scenario.scores3
       [1 # 2; 1 # 2; 1 # 2] = ok (outs, final, t')
  /\ length (concat outs) = 3%nat
  /\ Annealing.current_temperature final == 90
  /\ exists k : nat,
       (k <= length Scenario.scores3)%nat
       /\ Annealing.current_temperature final
          = Spec.cooled 100 (9 # 10) k
       /\ Annealing.start_temperature final = 100
       /\ Annealing.cool_down_rate final = 9 # 10.
Proof.
  intros st0 outs final t'.
  refine ((fun Hinit Hrun Houts Htemp =>
    conj Hinit (conj Hrun (conj Houts (conj Htemp
      (temperature_is_start_cooled_k_times Scenario.half 100 20 (9 # 10)
         (35 # 100) Scenario.numel2 ∅ Scenario.targets2 0 st0 final 1
         Scenario.scores3 [1 # 2; 1 # 2; 1 # 2] t' outs Hinit Hrun)))))
    _ _ _ _).
  - reflexivity.
  - vm_compute; reflexivity.
  - vm_compute; reflexivity.
  - vm_compute; reflexivity.
Defined.
